(** * MediaCanon: the reconciliation engine

    A shallow embedding of the parts of the MediaCanon code base that keep
    the local store in step with the IMDb bulk dataset and the TMDB detail
    API, together with the properties the design document states about
    them.

    Part I holds the definitions, one module per source unit:
    - [Go]: the functions of Go's library the code calls;
    - [Float]: [float64], [float32] and PostgreSQL's [real];
    - [Store]: the [titles] rows and the backfill UPDATE both programs run;
    - [TMDB]: the responses of the TMDB API and what the code reads in them;
    - [SyncMain]: [main], [hashFiles], [getSyncState] and [setSyncState] of
      [backend/cmd/sync/main.go];
    - [SyncEpisodes]: the second pass of [syncEpisodes];
    - [SyncRatings]: [syncRatings] and [updateRatingsBatch];
    - [Backfill]: [tmdbBackfillBatch];
    - [Server]: the lazy fetch gate of [backend/main.go], from
      [fetchAndStoreTMDBImage] to the page handlers;
    - [SyncTitles]: the scan of [syncTitles], with [intsEqual];
    - [SyncSeasons]: the first pass of [syncEpisodes] and the insertion of
      the seasons it finds;
    - [TmdbBackfill]: [tmdbBackfill], the backfill of one title;
    - [Samples]: inputs for the examples.

    Part II holds the theorems: one module per module of Part I, and
    [MergeProps] for the UPDATE the two backfill paths share.

    Go's [int] is modelled as [Z]; Go strings are byte strings and are
    modelled as [string]; a nilable pointer [*T] is [option T]; Go maps are
    [gmap]s. *)

From stdpp Require Import gmap strings list fin_maps sorting.
From Stdlib Require Import ZArith Ascii Floats.SpecFloat.

Set Default Proof Using "Type".

(** * Part I: definitions *)

(** ** Go library functions used by the code *)

Module Go.

(** [sort.Strings]: ascending byte-wise lexicographic order. *)
Fixpoint insert_sorted (s : string) (l : list string) : list string :=
  match l with
  | [] => [s]
  | x :: xs => if String.leb s x then s :: l else x :: insert_sorted s xs
  end.

Definition sort_Strings (l : list string) : list string :=
  foldr insert_sorted [] l.

(** [s[:n]] on a string: [None] is the run-time panic raised when [n]
    exceeds the length. *)
Definition slice_to (s : string) (n : nat) : option string :=
  if decide (n ≤ String.length s)%nat then Some (String.substring 0 n s) else None.

(** The horizontal tab, the field separator of the dataset files. *)
Definition tab : ascii := "009"%char.

(** [strings.Split(s, sep)] for a separator of one byte: the substrings
    between the separators, one more than there are separators. *)
Fixpoint Split (s : string) (sep : ascii) : list string :=
  match s with
  | EmptyString => [EmptyString]
  | String c rest =>
      if Ascii.eqb c sep then EmptyString :: Split rest sep
      else match Split rest sep with
           | f :: fs => String c f :: fs
           | [] => [String c EmptyString]
           end
  end.

(** [strings.Join(fields, "\t")], used to write dataset lines. *)
Fixpoint join_tab (fields : list string) : string :=
  match fields with
  | [] => EmptyString
  | [f] => f
  | f :: fs => f +:+ String tab (join_tab fs)
  end.

Definition digit_value (c : ascii) : option Z :=
  let n := Z.of_N (N_of_ascii c) in
  if decide (48 ≤ n ≤ 57)%Z then Some (n - 48)%Z else None.

(** The value of a run of decimal digits, [None] when a byte is no digit. *)
Fixpoint parse_digits (s : string) (acc : Z) : option Z :=
  match s with
  | EmptyString => Some acc
  | String c rest =>
      match digit_value c with
      | Some d => parse_digits rest (10 * acc + d)%Z
      | None => None
      end
  end.

(** [strconv.Atoi]: an optional sign, then one or more decimal digits, the
    value within the range of a 64-bit [int]; [None] is the error (syntax or
    range). *)
Definition Atoi (s : string) : option Z :=
  let '(neg, body) :=
    match s with
    | String "-"%char rest => (true, rest)
    | String "+"%char rest => (false, rest)
    | _ => (false, s)
    end in
  match body with
  | EmptyString => None
  | _ =>
      match parse_digits body 0 with
      | None => None
      | Some n =>
          let v := if neg then (- n)%Z else n in
          if decide (- 2 ^ 63 ≤ v < 2 ^ 63)%Z then Some v else None
      end
  end.

End Go.

(** ** Floating point: Go's [float64] and [float32], PostgreSQL's [real] *)

Module Float.

(** A [float64] is a binary64 number in the form of [SpecFloat] (precision
    53, [emax] 1024); a [float32] or a [real] is a binary32 number
    (precision 24, [emax] 128). Finite values are kept in canonical form,
    which is what [binary_round] returns. *)
Definition round_to (prec emax : Z) (x : spec_float) : spec_float :=
  match x with
  | S754_finite s m e => binary_round prec emax s m e
  | _ => x
  end.

(** The conversion [float32(x)] of a [float64]: round to nearest, ties to
    even, overflow to an infinity. *)
Definition to_float32 (x : spec_float) : spec_float := round_to 24 128 x.

(** The conversion [float64(y)] of a [float32]: exact. *)
Definition to_float64 (y : spec_float) : spec_float := round_to 53 1024 y.

(** Go's [==] on floats: IEEE equality (a NaN equals nothing, the two zeros
    are equal). *)
Definition eqb (x y : spec_float) : bool := SFeqb x y.

Definition zero : spec_float := S754_zero false.

(** The binary64 number nearest to a decimal [m / 10^k] with [m < 2^53] and
    [k <= 22], which is how such short decimals parse. *)
Definition of_decimal (m : positive) (k : nat) : spec_float :=
  SFdiv 53 1024 (binary_round 53 1024 false m 0)
                (binary_round 53 1024 false (Pos.pow 10 (Pos.of_nat k)) 0).

(** [x::real] in PostgreSQL: the value in single precision; a finite value
    that becomes an infinity or a non-zero value that becomes zero is an
    error ([None]). *)
Definition cast_real (x : spec_float) : option spec_float :=
  match x with
  | S754_finite _ _ _ =>
      match to_float32 x with
      | S754_finite s m e => Some (S754_finite s m e)
      | _ => None
      end
  | _ => Some x
  end.

(** Go's conversion [int(x)] of a [float64] that lies within the 64-bit
    range: truncation toward zero. Outside the range the result depends on
    the platform; the examples do not go there. *)
Definition trunc (x : spec_float) : Z :=
  match x with
  | S754_finite s m e =>
      let a := if (0 <=? e)%Z then (Zpos m * 2 ^ e)%Z else (Zpos m / 2 ^ (- e))%Z in
      if s then (- a)%Z else a
  | _ => 0%Z
  end.

End Float.

(** ** The [titles] table and the statements both programs run on it *)

Module Store.
Local Open Scope Z_scope.

(** The columns of [titles] the reconciliation code reads or writes; every
    one but [title_type] is nullable. Dates are kept as the text
    [TO_CHAR(..., 'YYYY-MM-DD')] reads back, timestamps as nanoseconds. *)
Record TitleRow := {
  title_type : string;
  imdb_id : option string;
  tmdb_id : option Z;
  image_url : option string;
  original_language : option string;
  release_date : option string;
  tmdb_popularity : option spec_float;
  origin_country : option string;
  runtime_minutes : option Z;
  needs_backfill_tmdb : option bool;
  num_votes : option Z;
  episodes_checked_at : option Z;
}.

(** PostgreSQL's conversions of text that the statements rely on: [s::date]
    and the assignment of a text to a VARCHAR(10) or VARCHAR(500) column;
    [None] is the error that makes the statement fail. *)
Record Sql := {
  to_date : string → option string;
  to_varchar10 : string → option string;
  to_varchar500 : string → option string;
}.

Definition in_int4 (z : Z) : bool := bool_decide (- 2 ^ 31 ≤ z < 2 ^ 31).

(** [UPDATE titles SET needs_backfill_tmdb = false WHERE id = $1], on the
    row it finds. *)
Definition clear_flag (row : TitleRow) : TitleRow :=
  {| title_type := title_type row; imdb_id := imdb_id row; tmdb_id := tmdb_id row;
     image_url := image_url row; original_language := original_language row;
     release_date := release_date row; tmdb_popularity := tmdb_popularity row;
     origin_country := origin_country row; runtime_minutes := runtime_minutes row;
     needs_backfill_tmdb := Some false; num_votes := num_votes row;
     episodes_checked_at := episodes_checked_at row |}.

(** The arguments [$1] to [$7] of the UPDATE at the end of
    [tmdbBackfillBatch] and of [maybeTMDBBackfill]. *)
Record BackfillArgs := {
  arg_tmdbID : Z;
  arg_imageURL : string;
  arg_originalLanguage : string;
  arg_releaseDate : string;
  arg_popularity : spec_float;
  arg_originCountry : string;
  arg_runtime : Z;
}.

(** [COALESCE(NULLIF(new, ''), old)] assigned to a VARCHAR(10) column whose
    value is [old]. *)
Definition coalesce_nullif_varchar10 (sql : Sql) (new : string) (old : option string)
  : option (option string) :=
  if String.eqb new "" then Some old
  else Some <$> to_varchar10 sql new.

(** The row after
    [UPDATE titles SET
       tmdb_id = $1,
       image_url = CASE WHEN $2 = '' THEN image_url
                   ELSE COALESCE(NULLIF($2, ''), image_url) END,
       original_language = COALESCE(NULLIF($3, ''), original_language),
       release_date = CASE WHEN $4 = '' THEN release_date ELSE $4::date END,
       tmdb_popularity = CASE WHEN $5::real = 0 THEN tmdb_popularity
                         ELSE $5::real END,
       origin_country = COALESCE(NULLIF($6, ''), origin_country),
       runtime_minutes = CASE WHEN $7::int = 0 THEN runtime_minutes
                         ELSE $7::int END,
       needs_backfill_tmdb = false
     WHERE id = $8];
    [None] when a conversion fails, which fails the statement. *)
Definition backfill_update (sql : Sql) (a : BackfillArgs) (row : TitleRow)
  : option TitleRow :=
  if negb (in_int4 (arg_tmdbID a) && in_int4 (arg_runtime a)) then None else
  match Float.cast_real (arg_popularity a) with
  | None => None
  | Some popularity =>
  match coalesce_nullif_varchar10 sql (arg_originalLanguage a) (original_language row) with
  | None => None
  | Some language =>
  match coalesce_nullif_varchar10 sql (arg_originCountry a) (origin_country row) with
  | None => None
  | Some country =>
  match (if String.eqb (arg_releaseDate a) "" then Some (release_date row)
         else Some <$> to_date sql (arg_releaseDate a)) with
  | None => None
  | Some date =>
      Some {| title_type := title_type row;
              imdb_id := imdb_id row;
              tmdb_id := Some (arg_tmdbID a);
              image_url := if String.eqb (arg_imageURL a) "" then image_url row
                           else Some (arg_imageURL a);
              original_language := language;
              release_date := date;
              tmdb_popularity := if Float.eqb popularity Float.zero
                                 then tmdb_popularity row else Some popularity;
              origin_country := country;
              runtime_minutes := if decide (arg_runtime a = 0) then runtime_minutes row
                                 else Some (arg_runtime a);
              needs_backfill_tmdb := Some false;
              num_votes := num_votes row;
              episodes_checked_at := episodes_checked_at row |}
  end end end end.

(** A statement with [WHERE id = $n] on a table: the row with that id, if
    there is one, is replaced; [None] is the failure of the statement. *)
Definition update_by_id {Row : Type} (f : Row → option Row) (id : Z)
    (tbl : gmap Z Row) : option (gmap Z Row) :=
  match tbl !! id with
  | None => Some tbl
  | Some row =>
      match f row with
      | None => None
      | Some row' => Some (<[id := row']> tbl)
      end
  end.

(** A value that counts as real for a text column: neither NULL nor empty. *)
Definition real_text (v : option string) : Prop := ∃ s, v = Some s ∧ s ≠ "".

(** The two halves of the merge of one column: when the fetched value is
    empty (or zero) the column keeps [old]; otherwise it takes the value the
    store makes of the fetched one, which exists. *)
Definition keeps_or_takes {A} (fetched_empty : Prop) (taken : option A)
    (old new : option A) : Prop :=
  (fetched_empty → new = old) ∧ (¬ fetched_empty → new = taken ∧ is_Some taken).

(** What the backfill UPDATE with arguments [a] makes of [row]. *)
Definition merge_policy (sql : Sql) (a : BackfillArgs) (row row' : TitleRow) : Prop :=
  tmdb_id row' = Some (arg_tmdbID a)
  ∧ keeps_or_takes (arg_imageURL a = "") (Some (arg_imageURL a))
      (image_url row) (image_url row')
  ∧ keeps_or_takes (arg_originalLanguage a = "") (to_varchar10 sql (arg_originalLanguage a))
      (original_language row) (original_language row')
  ∧ keeps_or_takes (arg_releaseDate a = "") (to_date sql (arg_releaseDate a))
      (release_date row) (release_date row')
  ∧ keeps_or_takes (∃ p, Float.cast_real (arg_popularity a) = Some p
                         ∧ Float.eqb p Float.zero = true)
      (Float.cast_real (arg_popularity a))
      (tmdb_popularity row) (tmdb_popularity row')
  ∧ keeps_or_takes (arg_originCountry a = "") (to_varchar10 sql (arg_originCountry a))
      (origin_country row) (origin_country row')
  ∧ keeps_or_takes (arg_runtime a = 0) (Some (arg_runtime a))
      (runtime_minutes row) (runtime_minutes row')
  ∧ needs_backfill_tmdb row' = Some false
  ∧ title_type row' = title_type row
  ∧ imdb_id row' = imdb_id row
  ∧ num_votes row' = num_votes row
  ∧ episodes_checked_at row' = episodes_checked_at row.

(** For the examples: a movie whose columns are all set, flagged for
    backfill, and arguments that carry a new poster and nothing else. *)
Definition new_poster_args : BackfillArgs :=
  {| arg_tmdbID := 603;
     arg_imageURL := "https://image.tmdb.org/t/p/w500/new.jpg";
     arg_originalLanguage := ""; arg_releaseDate := "";
     arg_popularity := Float.zero; arg_originCountry := ""; arg_runtime := 0 |}.

(** For the examples: a store in which no conversion of text fails. *)
Definition toy_sql : Sql :=
  {| to_date := Some; to_varchar10 := Some; to_varchar500 := Some |}.

End Store.

(** ** The TMDB API, as both programs see it *)

Module TMDB.
Local Open Scope Z_scope.

(** What [http.Get] and the JSON decoder give: a transport error, or a
    status with what the decoder left in the target struct and whether it
    reported an error. *)
Inductive http (A : Type) :=
| NetErr
| Resp (status : Z) (decoded : A) (decode_ok : bool).
Arguments NetErr {A}.
Arguments Resp {A} status decoded decode_ok.

(** An entry of [tv_results] or [movie_results] of the Find API
    ([Date] is [first_air_date] or [release_date]). *)
Record FindEntry := {
  fe_ID : Z;
  fe_PosterPath : string;
  fe_OriginalLanguage : string;
  fe_Date : string;
  fe_Popularity : spec_float;
  fe_OriginCountry : list string;
}.

Record TMDBFindResponse := {
  TVResults : list FindEntry;
  MovieResults : list FindEntry;
}.

(** The struct the Details API is decoded into. *)
Record Detail := {
  PosterPath : string;
  OriginalLanguage : string;
  ReleaseDate : string;
  FirstAirDate : string;
  Popularity : spec_float;
  OriginCountry : list string;
  ProductionCountries : list string;
  Runtime : spec_float;
}.

Record TMDBEpisodeResponse := {
  Name : string;
  Overview : string;
  StillPath : string;
  AirDate : string;
  ep_Runtime : Z;
}.

Definition poster_base : string := "https://image.tmdb.org/t/p/w500".
Definition still_base : string := "https://image.tmdb.org/t/p/w400".

Definition first_id (results : list FindEntry) : Z :=
  match results with
  | e :: _ => fe_ID e
  | [] => 0
  end.

Definition nonempty {A} (l : list A) : bool := bool_decide (0 < length l)%nat.

(** The id both backfill paths take from a decoded Find response, starting
    from [tmdbID = 0]:
    [if Type == "show" && len(TVResults) > 0 { TVResults[0].ID }
     else if Type == "movie" && len(MovieResults) > 0 { MovieResults[0].ID }
     else if len(MovieResults) > 0 { MovieResults[0].ID }
     else if len(TVResults) > 0 { TVResults[0].ID }]. *)
Definition pick_id (titleType : string) (result : TMDBFindResponse) : Z :=
  if String.eqb titleType "show" && nonempty (TVResults result)
  then first_id (TVResults result)
  else if String.eqb titleType "movie" && nonempty (MovieResults result)
  then first_id (MovieResults result)
  else if nonempty (MovieResults result) then first_id (MovieResults result)
  else if nonempty (TVResults result) then first_id (TVResults result)
  else 0.

(** The arguments of the backfill UPDATE computed from a decoded Details
    response; [int_of_float64] is Go's conversion [int(x)] of a [float64]. *)
Definition backfill_args (int_of_float64 : spec_float → Z) (tmdbID : Z) (detail : Detail)
  : Store.BackfillArgs :=
  {| Store.arg_tmdbID := tmdbID;
     Store.arg_imageURL :=
       if String.eqb (PosterPath detail) "" then "" else poster_base +:+ PosterPath detail;
     Store.arg_originalLanguage := OriginalLanguage detail;
     Store.arg_releaseDate :=
       if String.eqb (ReleaseDate detail) "" then FirstAirDate detail else ReleaseDate detail;
     Store.arg_popularity := Popularity detail;
     Store.arg_originCountry :=
       match OriginCountry detail, ProductionCountries detail with
       | c :: _, _ => c
       | [], iso :: _ => iso
       | [], [] => ""
       end;
     Store.arg_runtime := int_of_float64 (Runtime detail) |}.

End TMDB.

(** ** [backend/cmd/sync/main.go]: the import driver *)

Module SyncMain.

Inductive stage := StTitles | StGenres | StEpisodes | StRatings.

(** What a run does that is visible from outside: the downloads, every call
    of an import stage with the error it returned, the checkpoint statement
    and the call of the backfill scheduler. *)
Inductive event :=
| EvDownload (url dest : string)
| EvStage (s : stage) (err : option string)
| EvSetSyncState (key value : string)
| EvBackfill.

(** How a step of [main] ends: normally, in [log.Fatal] (the process exits
    with status 1), or in a run-time panic. *)
Inductive result (A : Type) :=
| Ok (a : A)
| FatalExit (msg : string)
| Panic.
Arguments Ok {A} a.
Arguments FatalExit {A} msg.
Arguments Panic {A}.

#[global] Instance stage_eq_dec : EqDecision stage.
Proof. solve_decision. Defined.
#[global] Instance event_eq_dec : EqDecision event.
Proof. solve_decision. Defined.

Definition basicsURL : string := "https://datasets.imdbws.com/title.basics.tsv.gz".
Definition episodesURL : string := "https://datasets.imdbws.com/title.episode.tsv.gz".
Definition ratingsURL : string := "https://datasets.imdbws.com/title.ratings.tsv.gz".

(** What [main] calls and this module does not look into. [FS] is the local
    file system holding the downloaded files; [Env] is everything the import
    stages and the backfill work on: the tables other than [sync_state] and
    the scratch maps of the process ([episodeTitles], [titleGenres]). *)
Record Ops (FS Env : Type) := {
  (** [downloadFile url dest]: the new file system and the error. *)
  downloadFile : string → string → FS → FS * option string;
  (** [os.Open] followed by [io.Copy]: the bytes of a file, if readable. *)
  readFile : FS → string → option string;
  (** [hex.EncodeToString] of the SHA-256 of the bytes written. *)
  sha256_hex : string → string;
  (** The four import stages; each returns the error it reports. *)
  syncTitles : string → FS → Env → Env * option string;
  syncGenres : Env → Env * option string;
  syncEpisodes : string → FS → Env → Env * option string;
  syncRatings : string → FS → Env → Env * option string;
  tmdbBackfillBatch : Env → Env;
  (** Whether the upsert statement of [setSyncState] succeeds. *)
  sync_state_exec_ok : bool;
}.
Arguments downloadFile {FS Env} _ _ _ _.
Arguments readFile {FS Env} _ _ _.
Arguments sha256_hex {FS Env} _ _.
Arguments syncTitles {FS Env} _ _ _ _.
Arguments syncGenres {FS Env} _ _.
Arguments syncEpisodes {FS Env} _ _ _ _.
Arguments syncRatings {FS Env} _ _ _ _.
Arguments tmdbBackfillBatch {FS Env} _ _.
Arguments sync_state_exec_ok {FS Env} _.

Record proc (FS Env : Type) := Proc {
  fs : FS;
  env : Env;
  sync_state : gmap string string;
}.
Arguments Proc {FS Env} _ _ _.
Arguments fs {FS Env} _.
Arguments env {FS Env} _.
Arguments sync_state {FS Env} _.

Section Main.
Context {FS Env : Type} (ops : Ops FS Env).

(** State, output of events, and early exit. *)
Definition M (A : Type) : Type :=
  proc FS Env → proc FS Env * list event * result A.

Definition ret {A} (a : A) : M A := λ p, (p, [], Ok a).

Definition bind {A B} (c : M A) (k : A → M B) : M B := λ p,
  match c p with
  | (p1, t1, Ok a) => let '(p2, t2, r) := k a p1 in (p2, t1 ++ t2, r)
  | (p1, t1, FatalExit msg) => (p1, t1, FatalExit msg)
  | (p1, t1, Panic) => (p1, t1, Panic)
  end.

Notation "x <- c ;; k" := (bind c (λ x, k))
  (at level 100, c at next level, right associativity).
Notation "c ;;; k" := (bind c (λ _, k))
  (at level 100, right associativity).

(** [if err := downloadFile(url, dest); err != nil { log.Fatal(err) }] *)
Definition download (url dest : string) : M unit := λ p,
  let '(fs1, err) := downloadFile ops url dest (fs p) in
  (Proc fs1 (env p) (sync_state p), [EvDownload url dest],
   match err with None => Ok () | Some e => FatalExit e end).

(** [if err := syncX(...); err != nil { log.Fatal(err) }] *)
Definition run_stage (s : stage) (f : FS → Env → Env * option string) : M unit :=
  λ p,
  let '(env1, err) := f (fs p) (env p) in
  (Proc (fs p) env1 (sync_state p), [EvStage s err],
   match err with None => Ok () | Some e => FatalExit e end).

Fixpoint hashFiles_loop (fsys : FS) (sorted : list string) (written : string)
  : string + string :=
  match sorted with
  | [] => inl (sha256_hex ops written)
  | p :: ps =>
      match readFile ops fsys p with
      | None => inr ("hash " +:+ p)
      | Some content => hashFiles_loop fsys ps (written +:+ content)
      end
  end.

(** [hashFiles]: one SHA-256 over the contents of all files, the paths
    sorted first. [inr] is the error. *)
Definition hashFiles (fsys : FS) (paths : list string) : string + string :=
  hashFiles_loop fsys (Go.sort_Strings paths) "".

(** [getSyncState]: the stored value, the empty string when the query finds
    no row. *)
Definition getSyncState (key : string) (p : proc FS Env) : string :=
  default "" (sync_state p !! key).

(** [setSyncState]: an upsert; a failure is logged and nothing else. *)
Definition setSyncState (key value : string) : M unit := λ p,
  (Proc (fs p) (env p)
     (if sync_state_exec_ok ops then <[key := value]> (sync_state p) else sync_state p),
   [EvSetSyncState key value], Ok ()).

(** A log line that prints [s[:12]]. *)
Definition log_prefix12 (s : string) : M unit := λ p,
  (p, [], match Go.slice_to s 12 with Some _ => Ok () | None => Panic end).

Definition dataset_paths (dir : string) : list string :=
  [dir +:+ "/title.basics.tsv.gz"; dir +:+ "/title.episode.tsv.gz";
   dir +:+ "/title.ratings.tsv.gz"].

(** Step 1.1: the three downloads. *)
Definition download_all (dir : string) : M unit :=
  download basicsURL (dir +:+ "/title.basics.tsv.gz") ;;;
  download episodesURL (dir +:+ "/title.episode.tsv.gz") ;;;
  download ratingsURL (dir +:+ "/title.ratings.tsv.gz").

(** The [else] branch of [if !imdbChanged] after its log line: steps 1.3 to
    1.6 and the checkpoint. *)
Definition import_stages (dir currentHash : string) : M unit :=
  run_stage StTitles (syncTitles ops (dir +:+ "/title.basics.tsv.gz")) ;;;
  run_stage StGenres (λ _, syncGenres ops) ;;;
  run_stage StEpisodes (syncEpisodes ops (dir +:+ "/title.episode.tsv.gz")) ;;;
  run_stage StRatings (syncRatings ops (dir +:+ "/title.ratings.tsv.gz")) ;;;
  setSyncState "imdb_files_hash" currentHash.

(** Step 1.2 and the branch on [imdbChanged]. *)
Definition import_if_changed (forceImdb : bool) (dir : string) : M unit :=
  currentHash <- (λ p, (p, [],
                    match hashFiles (fs p) (dataset_paths dir) with
                    | inl h => Ok h
                    | inr e => FatalExit e
                    end)) ;;
  previousHash <- (λ p, (p, [], Ok (getSyncState "imdb_files_hash" p))) ;;
  let imdbChanged := forceImdb || negb (String.eqb currentHash previousHash) in
  if negb imdbChanged then log_prefix12 currentHash
  else
    (if String.eqb previousHash "" then ret ()
     else if forceImdb then ret ()
     else (log_prefix12 previousHash ;;; log_prefix12 currentHash)) ;;;
    import_stages dir currentHash.

(** Section 2 of [main]: the backfill runs when the API key is set. *)
Definition backfill_section (tmdbAPIKey : string) : M unit :=
  if String.eqb tmdbAPIKey "" then ret ()
  else λ p, (Proc (fs p) (tmdbBackfillBatch ops (env p)) (sync_state p),
             [EvBackfill], Ok ()).

(** [main] from "Section 1: IMDb Import" on ([forceImdb] is the [-force]
    flag, [dir] the download directory, [tmdbAPIKey] the environment
    variable). *)
Definition main (forceImdb : bool) (dir tmdbAPIKey : string) : M unit :=
  download_all dir ;;;
  import_if_changed forceImdb dir ;;;
  backfill_section tmdbAPIKey.

End Main.

Definition is_stage (e : event) : bool :=
  match e with EvStage _ _ => true | _ => false end.
Definition is_checkpoint (e : event) : bool :=
  match e with EvSetSyncState _ _ => true | _ => false end.

Definition quiet (e : event) : Prop := is_stage e = false ∧ is_checkpoint e = false.

(** The four stage calls of a complete import, each without an error,
    followed by the checkpoint statement. *)
Definition full_import (h : string) : list event :=
  [EvStage StTitles None; EvStage StGenres None; EvStage StEpisodes None;
   EvStage StRatings None; EvSetSyncState "imdb_files_hash" h].

(** The events of an import that a stage aborted with error [e]. *)
Definition aborted_import (e : string) (t : list event) : Prop :=
  t = [EvStage StTitles (Some e)]
  ∨ t = [EvStage StTitles None; EvStage StGenres (Some e)]
  ∨ t = [EvStage StTitles None; EvStage StGenres None; EvStage StEpisodes (Some e)]
  ∨ t = [EvStage StTitles None; EvStage StGenres None; EvStage StEpisodes None;
         EvStage StRatings (Some e)].

(** A small instance to run [main] on: files are a map from path to bytes,
    the environment is the list of the stages that have run, a download
    leaves the files as they are, and the hash is the text itself. *)
Definition toy_ops (fail_at : option stage) : Ops (gmap string string) (list stage) := {|
  downloadFile := λ _ _ fsys, (fsys, None);
  readFile := λ fsys p, fsys !! p;
  sha256_hex := λ s, s;
  syncTitles := λ _ _ e,
    (e ++ [StTitles], if decide (fail_at = Some StTitles) then Some "titles" else None);
  syncGenres := λ e,
    (e ++ [StGenres], if decide (fail_at = Some StGenres) then Some "genres" else None);
  syncEpisodes := λ _ _ e,
    (e ++ [StEpisodes], if decide (fail_at = Some StEpisodes) then Some "episodes" else None);
  syncRatings := λ _ _ e,
    (e ++ [StRatings], if decide (fail_at = Some StRatings) then Some "ratings" else None);
  tmdbBackfillBatch := λ e, e;
  sync_state_exec_ok := true;
|}.

Definition toy_fs : gmap string string :=
  {[ "d/title.basics.tsv.gz" := "aaaaaa";
     "d/title.episode.tsv.gz" := "bbbbbb";
     "d/title.ratings.tsv.gz" := "cccccc" ]}.

End SyncMain.

(** ** [backend/cmd/sync/main.go]: [syncEpisodes], from the second pass on *)

Module SyncEpisodes.
Local Open Scope Z_scope.

(** [seasonKey{showID, season}] and [episodeKey{seasonID, episode}]. *)
Definition seasonKey : Type := Z * Z.
Definition episodeKey : Type := Z * Z.

Record ExistingEpisode := {
  ID : Z;
  DisplayName : string;
}.

Record EpisodeInsert := {
  ins_SeasonID : Z;
  ins_Episode : Z;
  ins_DisplayName : option string;
}.

Record EpisodeUpdate := {
  upd_ID : Z;
  upd_DisplayName : string;
}.

(** The variables of the second pass. The counters count lines of one file
    and stay far below the 64-bit range. *)
Record scan_state := {
  toInsert : list EpisodeInsert;
  toUpdate : list EpisodeUpdate;
  scanned : Z;
  unchanged : Z;
  skipped : Z;
}.

Definition scan_init : scan_state :=
  {| toInsert := []; toUpdate := []; scanned := 0; unchanged := 0; skipped := 0 |}.

Definition count_skipped (st : scan_state) : scan_state :=
  {| toInsert := toInsert st; toUpdate := toUpdate st; scanned := scanned st;
     unchanged := unchanged st; skipped := skipped st + 1 |}.

(** A row of [show_episodes]; [display_name] is nullable. *)
Record EpisodeRow := {
  season_id : Z;
  episode : Z;
  display_name : option string;
}.

Definition key_of (r : EpisodeRow) : episodeKey := (season_id r, episode r).

(** The table, by primary key, and the next value of its id sequence. *)
Record db := {
  show_episodes : gmap Z EpisodeRow;
  next_id : Z;
}.

(** The loop that fills [existingEpisodes]: [displayName.String] of a
    [sql.NullString] is the empty string for NULL. *)
Definition load_existingEpisodes (tbl : gmap Z EpisodeRow)
  : gmap episodeKey ExistingEpisode :=
  list_to_map
    ((λ ir : Z * EpisodeRow,
        (key_of ir.2, {| ID := ir.1; DisplayName := default "" (display_name ir.2) |}))
       <$> map_to_list tbl).

Section Scan.
(** [showCache] and [existingSeasons] as they are when the second pass
    starts (after the first pass has inserted the new seasons),
    [existingEpisodes] as loaded at the start of [syncEpisodes], and the
    episode titles collected by [syncTitles]. *)
Context (showCache : gmap string Z)
        (existingSeasons : gmap seasonKey Z)
        (existingEpisodes : gmap episodeKey ExistingEpisode)
        (episodeTitles : gmap string string).

(** The body of [for scanner.Scan()] of the second pass. *)
Definition scan_line (st : scan_state) (line : string) : scan_state :=
  match Go.Split line Go.tab with
  | episodeImdbID :: parentImdbID :: seasonStr :: episodeStr :: _ =>
      if String.eqb seasonStr "\N" || String.eqb episodeStr "\N"
      then count_skipped st
      else
        match Go.Atoi seasonStr with
        | None => st
        | Some season =>
        match Go.Atoi episodeStr with
        | None => st
        | Some episode =>
        match showCache !! parentImdbID with
        | None => st
        | Some showID =>
        match existingSeasons !! (showID, season) with
        | None => st
        | Some seasonID =>
            let displayName := default "" (episodeTitles !! episodeImdbID) in
            match existingEpisodes !! (seasonID, episode) with
            | Some existing =>
                if negb (String.eqb displayName "")
                   && negb (String.eqb (DisplayName existing) displayName)
                then {| toInsert := toInsert st;
                        toUpdate := toUpdate st ++
                          [{| upd_ID := ID existing; upd_DisplayName := displayName |}];
                        scanned := scanned st + 1;
                        unchanged := unchanged st;
                        skipped := skipped st |}
                else {| toInsert := toInsert st;
                        toUpdate := toUpdate st;
                        scanned := scanned st + 1;
                        unchanged := unchanged st + 1;
                        skipped := skipped st |}
            | None =>
                let dn := if String.eqb displayName "" then None else Some displayName in
                {| toInsert := toInsert st ++
                     [{| ins_SeasonID := seasonID; ins_Episode := episode;
                         ins_DisplayName := dn |}];
                   toUpdate := toUpdate st;
                   scanned := scanned st + 1;
                   unchanged := unchanged st;
                   skipped := skipped st |}
            end
        end end end end
  | _ => st  (* len(fields) < 4 *)
  end.

(** The second pass over the lines that follow the header. *)
Definition scan (lines : list string) : scan_state :=
  foldl scan_line scan_init lines.

(** An update is justified when its name is not empty, is the title the
    dataset gives for some episode id, and differs from the name loaded for
    the episode it updates. *)
Definition update_justified (u : EpisodeUpdate) : Prop :=
  upd_DisplayName u ≠ ""
  ∧ ∃ key existing imdbID,
      existingEpisodes !! key = Some existing
      ∧ ID existing = upd_ID u
      ∧ DisplayName existing ≠ upd_DisplayName u
      ∧ episodeTitles !! imdbID = Some (upd_DisplayName u).

End Scan.

(** [for i := 0; i < len(l); i += batchSize { batch := l[i:end] ... }]: the
    batches in order. With [batchSize = 0] the loop never advances and every
    batch is empty. *)
Fixpoint batches_fuel {A} (fuel : nat) (batchSize : nat) (l : list A) : list (list A) :=
  match fuel, l with
  | _, [] => []
  | O, _ => []
  | S fuel', _ => take batchSize l :: batches_fuel fuel' batchSize (drop batchSize l)
  end.

Definition batches {A} (batchSize : nat) (l : list A) : list (list A) :=
  batches_fuel (length l) batchSize l.

Definition in_int4 (z : Z) : bool := bool_decide (- 2 ^ 31 ≤ z < 2 ^ 31).

Definition key_taken (tbl : gmap Z EpisodeRow) (k : episodeKey) : bool :=
  bool_decide (map_Exists (λ _ row, key_of row = k) tbl).

(** The rows of one multi-row INSERT, one after the other; [None] when the
    statement fails: a value outside INTEGER, a taken (season_id, episode)
    pair or a taken id. *)
Fixpoint insert_rows (rows : list EpisodeInsert) (d : db) : option db :=
  match rows with
  | [] => Some d
  | r :: rs =>
      if negb (in_int4 (ins_SeasonID r) && in_int4 (ins_Episode r)) then None
      else if key_taken (show_episodes d) (ins_SeasonID r, ins_Episode r) then None
      else
        match show_episodes d !! next_id d with
        | Some _ => None
        | None =>
            insert_rows rs
              {| show_episodes :=
                   <[next_id d := {| season_id := ins_SeasonID r; episode := ins_Episode r;
                                     display_name := ins_DisplayName r |}]> (show_episodes d);
                 next_id := next_id d + 1 |}
        end
  end.

(** [INSERT INTO show_episodes (season_id, episode, display_name) VALUES ...]:
    all rows or none; an empty VALUES list is a syntax error. *)
Definition exec_insert (batch : list EpisodeInsert) (d : db) : option db :=
  match batch with
  | [] => None
  | _ => insert_rows batch d
  end.

(** [CASE WHEN id = $1 THEN $2 WHEN id = $3 THEN $4 ... END]: the first
    branch whose id matches. *)
Fixpoint case_when (batch : list EpisodeUpdate) (id : Z) : option string :=
  match batch with
  | [] => None
  | u :: us => if decide (upd_ID u = id) then Some (upd_DisplayName u) else case_when us id
  end.

Definition set_display_name (n : option string) (row : EpisodeRow) : EpisodeRow :=
  {| season_id := season_id row; episode := episode row; display_name := n |}.

(** [UPDATE show_episodes SET display_name = CASE ... END WHERE id IN (...)];
    an empty batch is a syntax error. *)
Definition exec_update (batch : list EpisodeUpdate) (d : db) : option db :=
  match batch with
  | [] => None
  | _ =>
      Some {| show_episodes :=
                map_imap (λ id row,
                            Some (match case_when batch id with
                                  | Some n => set_display_name (Some n) row
                                  | None => row
                                  end)) (show_episodes d);
              next_id := next_id d |}
  end.

(** A loop over batches that returns at the first failing statement. *)
Fixpoint exec_batches {A} (exec : list A → db → option db) (err : string)
    (bs : list (list A)) (d : db) : db * option string :=
  match bs with
  | [] => (d, None)
  | b :: bs' =>
      match exec b d with
      | None => (d, Some err)
      | Some d' => exec_batches exec err bs' d'
      end
  end.

(** [syncEpisodes] from "Second pass" to its return: the scan of the lines
    after the header, the batched inserts, the batched updates. *)
Definition syncEpisodes_pass2 (batchSize : nat)
    (showCache : gmap string Z) (existingSeasons : gmap seasonKey Z)
    (episodeTitles : gmap string string)
    (file : list string) (d : db) : db * option string :=
  let existingEpisodes := load_existingEpisodes (show_episodes d) in
  let st := scan showCache existingSeasons existingEpisodes episodeTitles (tail file) in
  match exec_batches exec_insert "episode insert" (batches batchSize (toInsert st)) d with
  | (d1, Some e) => (d1, Some e)
  | (d1, None) =>
      exec_batches exec_update "episode update" (batches batchSize (toUpdate st)) d1
  end.

(** Fields 2 and 3 of a line that has at least four. *)
Definition season_episode_fields (line : string) : option (string * string) :=
  match Go.Split line Go.tab with
  | _ :: _ :: seasonStr :: episodeStr :: _ => Some (seasonStr, episodeStr)
  | _ => None
  end.

(** How the row of an episode may differ after the import: same key, and
    either the same name or the name of one of the given updates for it. *)
Definition row_kept_or_renamed (updates : list EpisodeUpdate) (id : Z)
    (row row' : EpisodeRow) : Prop :=
  season_id row' = season_id row ∧ episode row' = episode row
  ∧ (display_name row' = display_name row
     ∨ ∃ u, u ∈ updates ∧ upd_ID u = id ∧ display_name row' = Some (upd_DisplayName u)).

(** Every row of [d] is still in [d'], kept or renamed. *)
Definition rows_kept_or_renamed (updates : list EpisodeUpdate) (d d' : db) : Prop :=
  ∀ id row, show_episodes d !! id = Some row →
    ∃ row', show_episodes d' !! id = Some row' ∧ row_kept_or_renamed updates id row row'.

(** A table of one episode, named "Pilot", for the examples. *)
Definition one_episode_db : db :=
  {| show_episodes :=
       {[ 7 := {| season_id := 100; episode := 1; display_name := Some "Pilot" |} ]};
     next_id := 8 |}.

(** A file for the examples: the header and one line for episode 1 of
    season 1 of the show [tt1], whose title in the dataset is [title]. *)
Definition one_line_file : list string :=
  [Go.join_tab ["tconst"; "parentTconst"; "seasonNumber"; "episodeNumber"];
   Go.join_tab ["tt2"; "tt1"; "1"; "1"]].

Definition run_one_line (title : string) : db * option string :=
  syncEpisodes_pass2 5000 {[ "tt1" := 10 ]} {[ (10, 1) := 100 ]} {[ "tt2" := title ]}
    one_line_file one_episode_db.

End SyncEpisodes.

(** ** [backend/cmd/sync/main.go]: [syncRatings] and [updateRatingsBatch] *)

Module SyncRatings.
Local Open Scope Z_scope.

Record ExistingRating := {
  ex_NumVotes : Z;
  ex_AverageRating : spec_float;
}.

Record RatingRecord := {
  ImdbID : string;
  NumVotes : Z;
  AverageRating : spec_float;
}.

(** The rating columns of a row of [titles] that has an [imdb_id]:
    [num_votes INTEGER] and [average_rating REAL], both nullable. *)
Record RatingRow := {
  num_votes : option Z;
  average_rating : option spec_float;
}.

(** The variables of [syncRatings], the rows of [titles] by [imdb_id], and
    the records of every UPDATE statement issued so far. *)
Record state := {
  titles : gmap string RatingRow;
  issued : list (list RatingRecord);
  batch : list RatingRecord;
  scanned : Z;
  updated : Z;
  unchanged : Z;
}.

(** The SELECT that fills [existingRatings]:
    [COALESCE(num_votes, 0), COALESCE(average_rating, 0)], the [real] read
    into a [float64]. *)
Definition load_existingRatings (tbl : gmap string RatingRow)
  : gmap string ExistingRating :=
  (λ row, {| ex_NumVotes := default 0 (num_votes row);
             ex_AverageRating :=
               default Float.zero (Float.to_float64 <$> average_rating row) |})
    <$> tbl.

Definition in_int4 (z : Z) : bool := bool_decide (- 2 ^ 31 ≤ z < 2 ^ 31).

(** [CASE WHEN imdb_id = $1 THEN ... END]: the first record with the id. *)
Fixpoint case_when (records : list RatingRecord) (id : string) : option RatingRecord :=
  match records with
  | [] => None
  | r :: rs => if decide (ImdbID r = id) then Some r else case_when rs id
  end.

(** The parameters of the statement can be cast: every vote count fits
    INTEGER and every rating fits REAL. *)
Definition casts_ok (records : list RatingRecord) : bool :=
  forallb (λ r, in_int4 (NumVotes r) && bool_decide (is_Some (Float.cast_real (AverageRating r))))
          records.

(** [updateRatingsBatch]: one UPDATE for the records; the rows affected and
    the error. An empty list of records makes a statement that does not
    parse. *)
Definition updateRatingsBatch (records : list RatingRecord) (tbl : gmap string RatingRow)
  : gmap string RatingRow * Z * option string :=
  match records with
  | [] => (tbl, 0, Some "ratings update")
  | _ =>
      if casts_ok records then
        (map_imap (λ id row,
                     Some (match case_when records id with
                           | Some r => {| num_votes := Some (NumVotes r);
                                          average_rating := Float.cast_real (AverageRating r) |}
                           | None => row
                           end)) tbl,
         Z.of_nat (size (filter (λ ir, is_Some (case_when records ir.1)) tbl)),
         None)
      else (tbl, 0, Some "ratings update")
  end.

(** The three fields of a line that has at least three. *)
Definition rating_fields (line : string) : option (string * string * string) :=
  match Go.Split line Go.tab with
  | imdbID :: ratingStr :: votesStr :: _ => Some (imdbID, ratingStr, votesStr)
  | _ => None
  end.

Section Scan.
(** [strconv.ParseFloat(s, 64)], [None] for an error; the [-batch] flag; the
    map loaded at the start. *)
Context (ParseFloat : string → option spec_float)
        (batchSize : Z)
        (existingRatings : gmap string ExistingRating).

(** The test under "Skip if unchanged". *)
Definition is_unchanged (imdbID : string) (numVotes : Z) (averageRating : spec_float) : bool :=
  match existingRatings !! imdbID with
  | Some existing =>
      bool_decide (ex_NumVotes existing = numVotes)
      && Float.eqb (ex_AverageRating existing)
                   (Float.to_float64 (Float.to_float32 averageRating))
  | None => false
  end.

(** [n, err := updateRatingsBatch(batch)] followed by [updated += n] and
    [batch = batch[:0]]; on an error the function returns it. *)
Definition flush (st : state) : state * option string :=
  let '(tbl, n, err) := updateRatingsBatch (batch st) (titles st) in
  match err with
  | Some e =>
      ({| titles := tbl; issued := issued st ++ [batch st]; batch := batch st;
          scanned := scanned st; updated := updated st; unchanged := unchanged st |},
       Some e)
  | None =>
      ({| titles := tbl; issued := issued st ++ [batch st]; batch := [];
          scanned := scanned st; updated := updated st + n; unchanged := unchanged st |},
       None)
  end.

(** The body of [for scanner.Scan()]; the error is the one the function
    returns from inside the loop. *)
Definition scan_line (st : state) (line : string) : state * option string :=
  match rating_fields line with
  | None => (st, None)
  | Some (imdbID, ratingStr, votesStr) =>
      match ParseFloat ratingStr with
      | None => (st, None)
      | Some averageRating =>
      match Go.Atoi votesStr with
      | None => (st, None)
      | Some numVotes =>
          if is_unchanged imdbID numVotes averageRating then
            ({| titles := titles st; issued := issued st; batch := batch st;
                scanned := scanned st + 1; updated := updated st;
                unchanged := unchanged st + 1 |}, None)
          else
            let st1 :=
              {| titles := titles st; issued := issued st;
                 batch := batch st ++
                   [{| ImdbID := imdbID; NumVotes := numVotes;
                       AverageRating := averageRating |}];
                 scanned := scanned st + 1; updated := updated st;
                 unchanged := unchanged st |} in
            if decide (batchSize ≤ Z.of_nat (length (batch st1))) then flush st1
            else (st1, None)
      end end
  end.

Fixpoint scan_lines (lines : list string) (st : state) : state * option string :=
  match lines with
  | [] => (st, None)
  | line :: rest =>
      match scan_line st line with
      | (st1, Some e) => (st1, Some e)
      | (st1, None) => scan_lines rest st1
      end
  end.

(** The loop and "Flush remaining". *)
Definition scan_and_flush (lines : list string) (st : state) : state * option string :=
  match scan_lines lines st with
  | (st1, Some e) => (st1, Some e)
  | (st1, None) =>
      match batch st1 with
      | [] => (st1, None)
      | _ => flush st1
      end
  end.

End Scan.

Definition start (tbl : gmap string RatingRow) : state :=
  {| titles := tbl; issued := []; batch := []; scanned := 0; updated := 0; unchanged := 0 |}.

(** [syncRatings] on the lines of the file (the first is the header). *)
Definition syncRatings (ParseFloat : string → option spec_float) (batchSize : Z)
    (file : list string) (tbl : gmap string RatingRow) : state * option string :=
  scan_and_flush ParseFloat batchSize (load_existingRatings tbl) (tail file) (start tbl).

(** What a run leaves behind, the two counters of the scan apart. *)
Definition effects (r : state * option string)
  : gmap string RatingRow * list (list RatingRecord) * list RatingRecord * Z * option string :=
  (titles r.1, issued r.1, batch r.1, updated r.1, r.2).

(** The two counters a line classified unchanged moves. *)
Definition count_unchanged (st : state) : state :=
  {| titles := titles st; issued := issued st; batch := batch st;
     scanned := scanned st + 1; updated := updated st; unchanged := unchanged st + 1 |}.

(** For the examples: the ratings "7.3" and "8.1" as [strconv.ParseFloat]
    reads them, every other text an error. *)
Definition toy_ParseFloat (s : string) : option spec_float :=
  if String.eqb s "7.3" then Some (Float.of_decimal 73 1)
  else if String.eqb s "8.1" then Some (Float.of_decimal 81 1)
  else None.

(** A table with one title, rated 7.3 (as a [real]) by 500 votes. *)
Definition one_title : gmap string RatingRow :=
  {[ "tt01" := {| num_votes := Some 500;
                  average_rating := Float.cast_real (Float.of_decimal 73 1) |} ]}.

(** The invariant of the loop of [syncRatings]: every scanned line was
    counted unchanged, or its record is in a statement already issued or
    in the batch; and no statement was issued for an empty batch. *)
Definition accounted (st : state) : Prop :=
  scanned st
  = unchanged st + Z.of_nat (length (concat (issued st))) + Z.of_nat (length (batch st))
  ∧ Forall (λ b, b ≠ []) (issued st).

End SyncRatings.

(** ** [backend/cmd/sync/main.go]: [tmdbBackfillBatch] *)

Module Backfill.
Import Store TMDB.
Local Open Scope Z_scope.

(** The HTTP requests of the scheduler. *)
Inductive call :=
| CallFind (imdbID : string)
| CallDetail (show : bool) (tmdbID : Z).

(** The API as the scheduler meets it: the answer to a request may depend on
    how many requests the run has made before it. *)
Record Api := {
  find : nat → string → http TMDBFindResponse;
  detail : nat → bool → Z → http Detail;
}.

Record backfillRow := {
  ID : Z;
  Type_ : string;
  ImdbID : option string;
  TmdbID : option Z;
}.

(** The table, the requests made so far, the two counters, and the number
    of five-second sleeps. *)
Record state := {
  titles : gmap Z TitleRow;
  calls : list call;
  processed : Z;
  updated : Z;
  sleeps : nat;
}.

Definition flagged (row : TitleRow) : Prop := needs_backfill_tmdb row = Some true.

#[global] Instance flagged_dec row : Decision (flagged row).
Proof. unfold flagged. apply _. Defined.

(** [ORDER BY num_votes DESC NULLS LAST]. *)
Definition votes_before (a b : Z * TitleRow) : Prop :=
  match num_votes a.2, num_votes b.2 with
  | Some x, Some y => y ≤ x
  | Some _, None => True
  | None, Some _ => False
  | None, None => True
  end.

#[global] Instance votes_before_dec a b : Decision (votes_before a b).
Proof. unfold votes_before. repeat case_match; apply _. Defined.

(** The page query:
    [SELECT id, type, imdb_id, tmdb_id FROM titles
     WHERE needs_backfill_tmdb = true
     ORDER BY num_votes DESC NULLS LAST LIMIT 100]. *)
Definition page (tbl : gmap Z TitleRow) : list backfillRow :=
  (λ ir : Z * TitleRow,
     {| ID := ir.1; Type_ := title_type ir.2; ImdbID := imdb_id ir.2; TmdbID := tmdb_id ir.2 |})
    <$> take 100 (merge_sort votes_before
                    (filter (λ ir, flagged ir.2) (map_to_list tbl))).

(** [db.Exec] of the statement that only clears the flag; nothing in it can
    fail to convert. *)
Definition exec_clear_flag (id : Z) (tbl : gmap Z TitleRow) : gmap Z TitleRow :=
  default tbl (update_by_id (λ row, Some (clear_flag row)) id tbl).

Section ProcessRow.
Context (sql : Sql) (int_of_float64 : spec_float → Z) (api : Api).

Definition count_processed (tbl : gmap Z TitleRow) (cs : list call) (st : state) : state :=
  {| titles := tbl; calls := cs; processed := processed st + 1;
     updated := updated st; sleeps := sleeps st |}.

(** "Resolve TMDB ID via Find API if needed": the id and the requests made. *)
Definition resolve_tmdbID (r : backfillRow) (imdbID : string) (cs : list call)
  : Z * list call :=
  let tmdbID := default 0 (TmdbID r) in
  if decide (tmdbID = 0) then
    (match find api (length cs) imdbID with
     | Resp 200 result true => pick_id (Type_ r) result
     | _ => 0
     end,
     cs ++ [CallFind imdbID])
  else (tmdbID, cs).

(** The body of [for _, r := range batch]. *)
Definition process_row (st : state) (r : backfillRow) : state :=
  match ImdbID r with
  | None => count_processed (exec_clear_flag (ID r) (titles st)) (calls st) st
  | Some imdbID =>
      if String.eqb imdbID "" then
        count_processed (exec_clear_flag (ID r) (titles st)) (calls st) st
      else
        let '(tmdbID, cs1) := resolve_tmdbID r imdbID (calls st) in
        if decide (tmdbID = 0) then
          count_processed (exec_clear_flag (ID r) (titles st)) cs1 st
        else
          let show := String.eqb (Type_ r) "show" in
          let cs2 := cs1 ++ [CallDetail show tmdbID] in
          match detail api (length cs1) show tmdbID with
          | NetErr => count_processed (exec_clear_flag (ID r) (titles st)) cs2 st
          | Resp status decoded _ =>
              if decide (status = 200) then
                match update_by_id
                        (backfill_update sql (backfill_args int_of_float64 tmdbID decoded))
                        (ID r) (titles st) with
                | None =>
                    (* the error is logged *)
                    count_processed (titles st) cs2 st
                | Some tbl =>
                    {| titles := tbl; calls := cs2; processed := processed st + 1;
                       updated := updated st + 1; sleeps := sleeps st |}
                end
              else if decide (status = 429) then
                (* don't clear flag, retry next batch *)
                {| titles := titles st; calls := cs2; processed := processed st + 1;
                   updated := updated st; sleeps := S (sleeps st) |}
              else count_processed (exec_clear_flag (ID r) (titles st)) cs2 st
          end
  end.

(** The [for { ... }] loop: a page, its rows, the next page, until a page is
    empty. [None] when [fuel] pages were not enough. *)
Fixpoint pages (fuel : nat) (st : state) : option state :=
  match fuel with
  | O => None
  | S fuel' =>
      match page (titles st) with
      | [] => Some st
      | batch => pages fuel' (foldl process_row st batch)
      end
  end.

(** [tmdbBackfillBatch]: nothing to do when no row is flagged. *)
Definition tmdbBackfillBatch (fuel : nat) (tbl : gmap Z TitleRow) : option state :=
  let st := {| titles := tbl; calls := []; processed := 0; updated := 0; sleeps := 0 |} in
  if decide (size (filter (λ ir, flagged ir.2) tbl) = 0%nat) then Some st
  else pages fuel st.

End ProcessRow.

(** How the processing of a row ends. *)
Inductive row_outcome :=
| NoExternalID            (* no IMDb id: nothing to look up *)
| NoSecondaryID           (* no TMDB id stored and none resolved *)
| DetailNetworkError      (* the detail request failed *)
| DetailThrottled         (* the detail request was answered 429 *)
| DetailOtherStatus (status : Z)  (* answered neither 200 nor 429 *)
| DetailSuccess (decoded : Detail).

(** The outcome for row [r] when [n] requests have been made before it. *)
Definition outcome (api : Api) (r : backfillRow) (cs : list call) : row_outcome :=
  match ImdbID r with
  | None => NoExternalID
  | Some imdbID =>
      if String.eqb imdbID "" then NoExternalID
      else
        let '(tmdbID, cs1) := resolve_tmdbID api r imdbID cs in
        if decide (tmdbID = 0) then NoSecondaryID
        else
          match detail api (length cs1) (String.eqb (Type_ r) "show") tmdbID with
          | NetErr => DetailNetworkError
          | Resp status decoded _ =>
              if decide (status = 200) then DetailSuccess decoded
              else if decide (status = 429) then DetailThrottled
              else DetailOtherStatus status
          end
  end.

Definition is_success (o : row_outcome) : Prop :=
  match o with DetailSuccess _ => True | _ => False end.

(** The row with id [id] is there and its flag is set: it matches the WHERE
    clause of the page query. *)
Definition still_flagged (id : Z) (tbl : gmap Z TitleRow) : Prop :=
  ∃ row, tbl !! id = Some row ∧ flagged row.

(** For the examples: the API answers every detail request with the given
    status. *)
Definition empty_detail : Detail :=
  {| PosterPath := ""; OriginalLanguage := ""; ReleaseDate := ""; FirstAirDate := "";
     Popularity := Float.zero; OriginCountry := []; ProductionCountries := [];
     Runtime := Float.zero |}.

(** For the examples: details that carry a poster and a language and
    nothing else. *)
Definition poster_detail : Detail :=
  {| PosterPath := "/new.jpg"; OriginalLanguage := "fr"; ReleaseDate := "";
     FirstAirDate := ""; Popularity := Float.zero; OriginCountry := [];
     ProductionCountries := []; Runtime := Float.zero |}.

Definition toy_api (status : Z) (d : Detail) : Api :=
  {| find := λ _ _, Resp 200 {| TVResults := []; MovieResults := [] |} true;
     detail := λ _ _ _, Resp status d true |}.

Definition toy_row : TitleRow :=
  {| title_type := "movie"; imdb_id := Some "tt01"; tmdb_id := Some 603;
     image_url := Some "https://image.tmdb.org/t/p/w500/old.jpg";
     original_language := Some "en"; release_date := Some "1999-03-31";
     tmdb_popularity := None; origin_country := Some "US";
     runtime_minutes := Some 136; needs_backfill_tmdb := Some true;
     num_votes := Some 500; episodes_checked_at := None |}.

Definition toy_state : state :=
  {| titles := {[ 1 := toy_row ]}; calls := []; processed := 0; updated := 0; sleeps := 0 |}.

Definition toy_backfillRow : backfillRow :=
  {| ID := 1; Type_ := "movie"; ImdbID := Some "tt01"; TmdbID := Some 603 |}.

(** A request to the Find API. *)
Definition is_find (c : call) : Prop :=
  match c with CallFind _ => True | CallDetail _ _ => False end.

(** The API throttles every Details request, and [row0] is a flagged row
    with an IMDb id and a TMDB id. *)
Definition throttled (api : Api) (row0 : TitleRow) (imdbID : string) (tmdbID : Z)
  : Prop :=
  (∀ n show id, ∃ d ok, detail api n show id = Resp 429 d ok)
  ∧ (imdb_id row0 = Some imdbID ∧ imdbID ≠ "")
  ∧ (tmdb_id row0 = Some tmdbID ∧ tmdbID ≠ 0)
  ∧ flagged row0.

(** The Details API answers no request with 200 or 429: the network is
    down, or the key is refused. *)
Definition no_details (api : Api) : Prop :=
  ∀ n show id status d ok, detail api n show id = Resp status d ok →
    status ≠ 200 ∧ status ≠ 429.

(** For a flagged row with an IMDb id and a TMDB id, the Details API keeps
    giving an answer of 200 that the UPDATE cannot store in the row. *)
Definition unstorable (sql : Sql) (int_of_float64 : spec_float → Z) (api : Api)
    (row0 : TitleRow) (imdbID : string) (tmdbID : Z) (d : Detail) : Prop :=
  (∀ n, ∃ ok, detail api n (String.eqb (title_type row0) "show") tmdbID = Resp 200 d ok)
  ∧ backfill_update sql (backfill_args int_of_float64 tmdbID d) row0 = None
  ∧ (imdb_id row0 = Some imdbID ∧ imdbID ≠ "")
  ∧ (tmdb_id row0 = Some tmdbID ∧ tmdbID ≠ 0)
  ∧ flagged row0.

(** The Details request for [r] was answered 200 and the UPDATE of its row
    failed: the error is logged, and the row is not counted as updated. *)
Definition update_failed (sql : Sql) (int_of_float64 : spec_float → Z) (api : Api)
    (st : state) (r : backfillRow) : Prop :=
  ∃ imdbID d,
    ImdbID r = Some imdbID
    ∧ outcome api r (calls st) = DetailSuccess d
    ∧ update_by_id
        (backfill_update sql
           (backfill_args int_of_float64 (resolve_tmdbID api r imdbID (calls st)).1 d))
        (ID r) (titles st) = None.

End Backfill.

(** ** [backend/main.go]: the lazy fetch gate *)

Module Server.
Import Store TMDB.
Local Open Scope Z_scope.

(** The title-level and the episode-level negative sentinel. *)
Definition title_sentinel : string := "none".
Definition episode_sentinel : string := "TMDB_NOT_FOUND_DO_NOT_RETRY".

(** The fields of [Title] the gate reads or writes. *)
Record Title := {
  TitleID : Z;
  Type_ : string;
  IMDbID : option string;
  ImageURL : option string;
  TMDBID : option Z;
  TMDBPopularity : option spec_float;
  OriginCountry : option string;
  NeedsBackfillTMDB : bool;
  EpisodesCheckedAt : option Z;
}.

Record Episode := {
  EpisodeID : Z;
  EpisodeNumber : Z;
  ep_DisplayName : option string;
  ep_ImageURL : option string;
  ep_AirDate : option string;
  ep_RuntimeMinutes : option Z;
  ep_Synopsis : option string;
}.

Record Season := {
  SeasonNumber : Z;
  Episodes : list Episode;
}.

Record Show := {
  show_Title : Title;
  Seasons : list Season;
}.

(** A row of [show_episodes], the columns the gate writes. *)
Record EpisodeRow := {
  image_url : option string;
  air_date : option string;
  runtime_minutes : option Z;
  display_name : option string;
  synopsis : option string;
}.

(** The HTTP requests of the gate. *)
Inductive call :=
| CallFind (imdbID : string)
| CallDetail (show : bool) (tmdbID : Z)
| CallEpisode (tmdbID seasonNum episodeNum : Z).

#[global] Instance call_eq_dec : EqDecision call.
Proof. solve_decision. Defined.

(** The API as the gate meets it; the answer to an episode request may
    depend on the attempt (0, 1, 2) within one fetch. *)
Record Api := {
  find : string → http TMDBFindResponse;
  detail : bool → Z → http Detail;
  episode : Z → Z → Z → nat → http TMDBEpisodeResponse;
}.

(** The two tables and the requests made so far. *)
Record world := {
  titles : gmap Z TitleRow;
  show_episodes : gmap Z EpisodeRow;
  calls : list call;
}.

Definition with_titles (tbl : gmap Z TitleRow) (w : world) : world :=
  {| titles := tbl; show_episodes := show_episodes w; calls := calls w |}.
Definition with_episodes (tbl : gmap Z EpisodeRow) (w : world) : world :=
  {| titles := titles w; show_episodes := tbl; calls := calls w |}.
Definition called (c : call) (w : world) : world :=
  {| titles := titles w; show_episodes := show_episodes w; calls := calls w ++ [c] |}.

(** [hasImage]. *)
Definition hasImage (imageURL : option string) : bool :=
  match imageURL with
  | None => false
  | Some u => negb (String.eqb u "") && negb (String.eqb u "TMDB_NOT_FOUND_DO_NOT_RETRY")
  end.

(** [needsFetch]. *)
Definition needsFetch (imageURL : option string) (imdbID : option string) : bool :=
  match imdbID with
  | None => false
  | Some i =>
      if String.eqb i "" then false
      else match imageURL with
           | None => true
           | Some u => String.eqb u ""
           end
  end.

(** The local variables of [fetchAndStoreTMDBImage] taken from the Find
    response. *)
Record picked := {
  posterPath : string;
  tmdbID : Z;
  origLang : string;
  releaseDate : string;
  popularity : spec_float;
  originCountry : string;
}.

Definition picked_zero : picked :=
  {| posterPath := ""; tmdbID := 0; origLang := ""; releaseDate := "";
     popularity := Float.zero; originCountry := "" |}.

(** The assignments of one branch: all fields from the entry, the country
    only when the entry lists one. *)
Definition take_entry (e : FindEntry) (p : picked) : picked :=
  {| posterPath := fe_PosterPath e; tmdbID := fe_ID e;
     origLang := fe_OriginalLanguage e; releaseDate := fe_Date e;
     popularity := fe_Popularity e;
     originCountry := match fe_OriginCountry e with c :: _ => c | [] => originCountry p end |}.

(** The fallback blocks: the poster always, the rest when no id is known. *)
Definition fallback_entry (e : FindEntry) (p : picked) : picked :=
  if decide (tmdbID p = 0) then take_entry e p
  else {| posterPath := fe_PosterPath e; tmdbID := tmdbID p; origLang := origLang p;
          releaseDate := releaseDate p; popularity := popularity p;
          originCountry := originCountry p |}.

Definition on_first (f : FindEntry → picked → picked) (results : list FindEntry)
    (p : picked) : picked :=
  match results with
  | e :: _ => f e p
  | [] => p
  end.

(** The selection of [fetchAndStoreTMDBImage]: the result of the title's
    kind, then "Fallback: check both result types". *)
Definition pick (titleType : string) (result : TMDBFindResponse) : picked :=
  let p0 :=
    if String.eqb titleType "show" && nonempty (TVResults result)
    then on_first take_entry (TVResults result) picked_zero
    else if String.eqb titleType "movie" && nonempty (MovieResults result)
    then on_first take_entry (MovieResults result) picked_zero
    else picked_zero in
  let p1 :=
    if String.eqb (posterPath p0) "" && nonempty (MovieResults result)
    then on_first fallback_entry (MovieResults result) p0
    else p0 in
  if String.eqb (posterPath p1) "" && nonempty (TVResults result)
  then on_first fallback_entry (TVResults result) p1
  else p1.

(** The row after either UPDATE of [fetchAndStoreTMDBImage]; [image] is
    ['none'] or the poster URL:
    [SET image_url = image, tmdb_id = $,
         original_language = COALESCE(NULLIF($, ''), original_language),
         release_date = CASE WHEN $ = '' THEN release_date ELSE $::date END,
         tmdb_popularity = $,
         origin_country = COALESCE(NULLIF($, ''), origin_country),
         needs_backfill_tmdb = false]. *)
Definition find_update (sql : Sql) (image : string) (p : picked) (row : TitleRow)
  : option TitleRow :=
  if negb (in_int4 (tmdbID p)) then None else
  match Float.cast_real (popularity p) with
  | None => None
  | Some pop =>
  match coalesce_nullif_varchar10 sql (origLang p) (original_language row) with
  | None => None
  | Some language =>
  match coalesce_nullif_varchar10 sql (originCountry p) (origin_country row) with
  | None => None
  | Some country =>
  match (if String.eqb (releaseDate p) "" then Some (release_date row)
         else Some <$> to_date sql (releaseDate p)) with
  | None => None
  | Some date =>
      Some {| title_type := title_type row;
              imdb_id := imdb_id row;
              tmdb_id := Some (tmdbID p);
              Store.image_url := Some image;
              original_language := language;
              release_date := date;
              tmdb_popularity := Some pop;
              origin_country := country;
              Store.runtime_minutes := Store.runtime_minutes row;
              needs_backfill_tmdb := Some false;
              num_votes := num_votes row;
              episodes_checked_at := episodes_checked_at row |}
  end end end end.

(** A statement with [WHERE imdb_id = $n]: every row with that id is
    replaced; [None] when the statement fails on one of them. *)
Definition update_by_imdb_id (f : TitleRow → option TitleRow) (imdbID : string)
    (tbl : gmap Z TitleRow) : option (gmap Z TitleRow) :=
  if bool_decide (map_Exists (λ _ row, imdb_id row = Some imdbID ∧ f row = None) tbl)
  then None
  else Some ((λ row, if decide (imdb_id row = Some imdbID) then default row (f row) else row)
               <$> tbl).

(** "The Find API often omits origin_country for movies": the country is
    taken from the Details API when the Find result has none and a TMDB id
    is known. *)
Definition with_detail_country (api : Api) (tmdbAPIKey titleType : string) (p : picked)
  : picked :=
  if String.eqb (originCountry p) "" && negb (bool_decide (tmdbID p = 0))
     && negb (String.eqb tmdbAPIKey "")
  then
    match detail api (String.eqb titleType "show") (tmdbID p) with
    | Resp 200 d true =>
        {| posterPath := posterPath p; tmdbID := tmdbID p; origLang := origLang p;
           releaseDate := releaseDate p; popularity := popularity p;
           originCountry :=
             match TMDB.OriginCountry d, ProductionCountries d with
             | c :: _, _ => c
             | [], iso :: _ => iso
             | [], [] => originCountry p
             end |}
    | _ => p
    end
  else p.

(** The image [fetchAndStoreTMDBImage] stores for a selection: the poster
    URL, or ['none'] to cache a miss. *)
Definition stored_image (p : picked) : string :=
  if String.eqb (posterPath p) "" then title_sentinel else poster_base +:+ posterPath p.

Section Gate.
Context (sql : Sql) (int_of_float64 : spec_float → Z) (api : Api)
        (tmdbAPIKey : string) (now : Z).

(** A [db.Exec] whose error is logged or ignored: the table is replaced
    when the statement succeeds. *)
Definition exec_titles (r : option (gmap Z TitleRow)) (w : world) : world :=
  match r with
  | Some tbl => with_titles tbl w
  | None => w
  end.

(** [fetchAndStoreTMDBImage]: the poster URL and the TMDB id. *)
Definition fetchAndStoreTMDBImage (imdbID titleType : string) (w : world)
  : (string * Z) * world :=
  if String.eqb tmdbAPIKey "" || String.eqb imdbID "" then (("", 0), w)
  else
    let w1 := called (CallFind imdbID) w in
    match find api imdbID with
    | Resp 200 result true =>
        let p := pick titleType result in
        (* the Find API often omits origin_country for movies *)
        let '(p, w2) :=
          if String.eqb (originCountry p) "" && negb (bool_decide (tmdbID p = 0))
             && negb (String.eqb tmdbAPIKey "")
          then
            let show := String.eqb titleType "show" in
            (match detail api show (tmdbID p) with
             | Resp 200 d true =>
                 {| posterPath := posterPath p; tmdbID := tmdbID p; origLang := origLang p;
                    releaseDate := releaseDate p; popularity := popularity p;
                    originCountry :=
                      match TMDB.OriginCountry d, ProductionCountries d with
                      | c :: _, _ => c
                      | [], iso :: _ => iso
                      | [], [] => originCountry p
                      end |}
             | _ => p
             end,
             called (CallDetail show (tmdbID p)) w1)
          else (p, w1) in
        if String.eqb (posterPath p) "" then
          (* cache the miss *)
          (("", tmdbID p),
           exec_titles (update_by_imdb_id (find_update sql "none" p) imdbID (titles w2)) w2)
        else
          let imageURL := poster_base +:+ posterPath p in
          ((imageURL, tmdbID p),
           exec_titles (update_by_imdb_id (find_update sql imageURL p) imdbID (titles w2)) w2)
    | _ => (("", 0), w1)
    end.

Definition set_image_tmdb (image : option string) (id : option Z) (t : Title) : Title :=
  {| TitleID := TitleID t; Type_ := Type_ t; IMDbID := IMDbID t; ImageURL := image;
     TMDBID := id; TMDBPopularity := TMDBPopularity t; OriginCountry := OriginCountry t;
     NeedsBackfillTMDB := NeedsBackfillTMDB t; EpisodesCheckedAt := EpisodesCheckedAt t |}.

(** [maybeFetchImage]. *)
Definition maybeFetchImage (title : Title) (w : world) : Title * world :=
  if negb (needsFetch (ImageURL title) (IMDbID title)) then (title, w)
  else
    let '((url, id), w1) := fetchAndStoreTMDBImage (default "" (IMDbID title)) (Type_ title) w in
    (set_image_tmdb (if String.eqb url "" then None else Some url)
                    (if decide (id = 0) then TMDBID title else Some id) title,
     w1).

Definition clear_NeedsBackfillTMDB (t : Title) : Title :=
  {| TitleID := TitleID t; Type_ := Type_ t; IMDbID := IMDbID t; ImageURL := ImageURL t;
     TMDBID := TMDBID t; TMDBPopularity := TMDBPopularity t; OriginCountry := OriginCountry t;
     NeedsBackfillTMDB := false; EpisodesCheckedAt := EpisodesCheckedAt t |}.

(** [maybeTMDBBackfill]. *)
Definition maybeTMDBBackfill (title : Title) (w : world) : Title * world :=
  if negb (NeedsBackfillTMDB title) || String.eqb tmdbAPIKey "" then (title, w)
  else
    let clear w :=
      (clear_NeedsBackfillTMDB title,
       exec_titles (update_by_id (λ row, Some (clear_flag row)) (TitleID title) (titles w)) w) in
    match IMDbID title with
    | None => clear w
    | Some imdbID =>
        if String.eqb imdbID "" then clear w
        else
          let stored := default 0 (TMDBID title) in
          let resolved : option (Z * world) :=
            if decide (stored = 0) then
              match find api imdbID with
              | Resp 200 result true => Some (pick_id (Type_ title) result, called (CallFind imdbID) w)
              | _ => None
              end
            else Some (stored, w) in
          match resolved with
          | None => (title, called (CallFind imdbID) w)
          | Some (id, w1) =>
              if decide (id = 0) then clear w1
              else
                let show := String.eqb (Type_ title) "show" in
                let w2 := called (CallDetail show id) w1 in
                match detail api show id with
                | NetErr => (title, w2)
                | Resp status d decode_ok =>
                    if negb (bool_decide (status = 200)) then clear w2
                    else if negb decode_ok then (title, w2)
                    else
                      let a := backfill_args int_of_float64 id d in
                      match update_by_id (backfill_update sql a) (TitleID title) (titles w2) with
                      | None => (title, w2)
                      | Some tbl =>
                          ({| TitleID := TitleID title; Type_ := Type_ title;
                              IMDbID := IMDbID title;
                              ImageURL := if String.eqb (arg_imageURL a) "" then ImageURL title
                                          else Some (arg_imageURL a);
                              TMDBID := Some id;
                              TMDBPopularity :=
                                if SFltb Float.zero (Popularity d) then Some (Popularity d)
                                else TMDBPopularity title;
                              OriginCountry :=
                                if String.eqb (arg_originCountry a) "" then OriginCountry title
                                else Some (arg_originCountry a);
                              NeedsBackfillTMDB := false;
                              EpisodesCheckedAt := EpisodesCheckedAt title |},
                           with_titles tbl w2)
                      end
                end
          end
    end.

End Gate.

(** *** Episodes *)

(** What [fetchAndStoreEpisodeData] returns. *)
Record epData := {
  d_imageURL : string;
  d_airDate : string;
  d_displayName : string;
  d_synopsis : string;
  d_runtime : Z;
  d_ok : bool;
  d_notFound : bool;
}.

Definition epData_zero : epData :=
  {| d_imageURL := ""; d_airDate := ""; d_displayName := ""; d_synopsis := "";
     d_runtime := 0; d_ok := false; d_notFound := false |}.

(** The row after the UPDATE of [fetchAndStoreEpisodeData]:
    [SET image_url = $1,
         air_date = CASE WHEN $2 = '' THEN air_date ELSE $2::date END,
         runtime_minutes = CASE WHEN $3 = 0 THEN runtime_minutes ELSE $3 END,
         display_name = COALESCE(NULLIF($4, ''), display_name),
         synopsis = $5]. *)
Definition episode_update (sql : Sql) (dbImageURL airDate : string) (runtime : Z)
    (displayName synopsis : string) (row : EpisodeRow) : option EpisodeRow :=
  if negb (in_int4 runtime) then None else
  match (if String.eqb airDate "" then Some (air_date row)
         else Some <$> to_date sql airDate) with
  | None => None
  | Some date =>
  match (if String.eqb displayName "" then Some (display_name row)
         else Some <$> to_varchar500 sql displayName) with
  | None => None
  | Some name =>
      Some {| image_url := Some dbImageURL;
              air_date := date;
              runtime_minutes := if decide (runtime = 0) then runtime_minutes row
                                 else Some runtime;
              display_name := name;
              synopsis := Some synopsis |}
  end end.

Definition set_episode_image (image : string) (row : EpisodeRow) : EpisodeRow :=
  {| image_url := Some image; air_date := air_date row;
     runtime_minutes := runtime_minutes row; display_name := display_name row;
     synopsis := synopsis row |}.

Record epRef := {
  seasonIdx : nat;
  episodeIdx : nat;
  seasonNum : Z;
  episodeNum : Z;
  episodeID : Z;
}.

Record epResult := {
  ref : epRef;
  res_imageURL : string;
  res_airDate : string;
  res_displayName : string;
  res_synopsis : string;
  res_runtime : Z;
  ok : bool;
  notFound : bool;
}.

Definition result_of (r : epRef) (d : epData) : epResult :=
  {| ref := r; res_imageURL := d_imageURL d; res_airDate := d_airDate d;
     res_displayName := d_displayName d; res_synopsis := d_synopsis d;
     res_runtime := d_runtime d; ok := d_ok d; notFound := d_notFound d |}.

Record seasonStats := {
  st_notFound : Z;
  st_total : Z;
}.

(** The episodes whose image is nil, empty or the sentinel. *)
Definition needs_episode_fetch (ep : Episode) : bool :=
  match ep_ImageURL ep with
  | None => true
  | Some u => String.eqb u "" || String.eqb u "TMDB_NOT_FOUND_DO_NOT_RETRY"
  end.

Fixpoint collect_episodes (si : nat) (sn : Z) (ei : nat) (eps : list Episode)
  : list epRef :=
  match eps with
  | [] => []
  | ep :: rest =>
      (if needs_episode_fetch ep
       then [{| seasonIdx := si; episodeIdx := ei; seasonNum := sn;
                episodeNum := EpisodeNumber ep; episodeID := EpisodeID ep |}]
       else [])
      ++ collect_episodes si sn (S ei) rest
  end.

(** "Collect episodes needing fetch": [toFetch]. *)
Fixpoint collect_seasons (si : nat) (seasons : list Season) : list epRef :=
  match seasons with
  | [] => []
  | season :: rest =>
      collect_episodes si (SeasonNumber season) 0 (Episodes season)
      ++ collect_seasons (S si) rest
  end.

(** The loop that fills [seasonNotFound]. *)
Definition count_result (m : gmap Z seasonStats) (res : epResult) : gmap Z seasonStats :=
  let sn := seasonNum (ref res) in
  let stats := default {| st_notFound := 0; st_total := 0 |} (m !! sn) in
  <[sn := {| st_notFound := if notFound res then st_notFound stats + 1 else st_notFound stats;
             st_total := st_total stats + 1 |}]> m.

Definition seasonNotFound (results : list epResult) : gmap Z seasonStats :=
  foldl count_result ∅ results.

(** The loop that fills [episodeOffset]: each season number is mapped to the
    number of episodes of the seasons before it in [show.Seasons]. *)
Fixpoint episodeOffset_from (cumulative : Z) (seasons : list Season) (m : gmap Z Z)
  : gmap Z Z :=
  match seasons with
  | [] => m
  | s :: rest =>
      episodeOffset_from (cumulative + Z.of_nat (length (Episodes s))) rest
        (<[SeasonNumber s := cumulative]> m)
  end.

Definition episodeOffset (seasons : list Season) : gmap Z Z :=
  episodeOffset_from 0 seasons ∅.

(** The three tests of the loop that fills [omniRetry]. *)
Definition retry_wanted (stats : gmap Z seasonStats) (res : epResult) : bool :=
  notFound res
  && match stats !! seasonNum (ref res) with
     | None => false
     | Some st => bool_decide (st_notFound st = st_total st)
     end
  && negb (bool_decide (seasonNum (ref res) = 1)).

Fixpoint omniRetry_from (i : nat) (stats : gmap Z seasonStats) (results : list epResult)
  : list nat :=
  match results with
  | [] => []
  | res :: rest =>
      (if retry_wanted stats res then [i] else []) ++ omniRetry_from (S i) stats rest
  end.

(** [omniRetry]: the indices into [results] to retry. *)
Definition omniRetry (results : list epResult) : list nat :=
  omniRetry_from 0 (seasonNotFound results) results.

(** [absEp] for a result. *)
Definition absEp (seasons : list Season) (r : epRef) : Z :=
  default 0 (episodeOffset seasons !! seasonNum r) + episodeNum r.

(** "Update in-memory structs": the fields of an episode set from a result
    that is ok. *)
Definition update_episode (res : epResult) (ep : Episode) : Episode :=
  {| EpisodeID := EpisodeID ep;
     EpisodeNumber := EpisodeNumber ep;
     ep_DisplayName :=
       match ep_DisplayName ep with
       | None => if String.eqb (res_displayName res) "" then None
                 else Some (res_displayName res)
       | Some n => Some n
       end;
     ep_ImageURL := if String.eqb (res_imageURL res) "" then ep_ImageURL ep
                    else Some (res_imageURL res);
     ep_AirDate := if String.eqb (res_airDate res) "" then ep_AirDate ep
                   else Some (res_airDate res);
     ep_RuntimeMinutes := if decide (res_runtime res = 0) then ep_RuntimeMinutes ep
                          else Some (res_runtime res);
     ep_Synopsis := if String.eqb (res_synopsis res) "" then ep_Synopsis ep
                    else Some (res_synopsis res) |}.

Definition with_episodes_of (eps : list Episode) (s : Season) : Season :=
  {| SeasonNumber := SeasonNumber s; Episodes := eps |}.

Definition strip_episode (ep : Episode) : Episode :=
  match ep_ImageURL ep with
  | Some u =>
      if String.eqb u "TMDB_NOT_FOUND_DO_NOT_RETRY" then
        {| EpisodeID := EpisodeID ep; EpisodeNumber := EpisodeNumber ep;
           ep_DisplayName := ep_DisplayName ep; ep_ImageURL := None;
           ep_AirDate := ep_AirDate ep; ep_RuntimeMinutes := ep_RuntimeMinutes ep;
           ep_Synopsis := ep_Synopsis ep |}
      else ep
  | None => ep
  end.

(** [stripEpisodeSentinels]. *)
Definition stripEpisodeSentinels (show : Show) : Show :=
  {| show_Title := show_Title show;
     Seasons := (λ s, with_episodes_of (strip_episode <$> Episodes s) s) <$> Seasons show |}.

(** [time.Since(t)] for a clock reading [now], both in nanoseconds: a
    [Duration] saturates at the ends of the 64-bit range. *)
Definition time_Since (now t : Z) : Z :=
  Z.max (- 2 ^ 63) (Z.min (2 ^ 63 - 1) (now - t)).

(** [24 * time.Hour]. *)
Definition day : Z := 24 * 3600 * 1000000000.

Section Episodes.
Context (sql : Sql) (int_of_float64 : spec_float → Z) (api : Api)
        (tmdbAPIKey : string) (now : Z).

(** The loop [for attempt := 0; attempt < 3; attempt++] of
    [fetchAndStoreEpisodeData]: the response it ends with and the world with
    the requests made. [left] attempts remain. *)
Fixpoint get_episode (left : nat) (attempt : nat) (id sn en : Z) (w : world)
  : http TMDBEpisodeResponse * world :=
  let w1 := called (CallEpisode id sn en) w in
  let resp := episode api id sn en attempt in
  match left with
  | O => (resp, w1)
  | S left' =>
      match resp with
      | Resp status _ _ =>
          if decide (status = 429) then get_episode left' (S attempt) id sn en w1
          else (resp, w1)
      | NetErr => (resp, w1)
      end
  end.

(** [fetchAndStoreEpisodeData]. The named results are set before the UPDATE,
    so a failed UPDATE returns them with [ok] false. *)
Definition fetchAndStoreEpisodeData (id sn en epID : Z) (w : world) : epData * world :=
  if String.eqb tmdbAPIKey "" then (epData_zero, w)
  else
    let '(resp, w1) := get_episode 2 0 id sn en w in
    match resp with
    | NetErr => (epData_zero, w1)
    | Resp status ep decode_ok =>
        if decide (status = 404) then
          ({| d_imageURL := ""; d_airDate := ""; d_displayName := ""; d_synopsis := "";
              d_runtime := 0; d_ok := false; d_notFound := true |}, w1)
        else if negb (bool_decide (status = 200)) then (epData_zero, w1)
        else if negb decode_ok then (epData_zero, w1)
        else
          let imageURL :=
            if String.eqb (StillPath ep) "" then "" else still_base +:+ StillPath ep in
          let dbImageURL :=
            if String.eqb imageURL "" then "TMDB_NOT_FOUND_DO_NOT_RETRY" else imageURL in
          let fetched ok :=
            {| d_imageURL := imageURL; d_airDate := AirDate ep; d_displayName := Name ep;
               d_synopsis := Overview ep; d_runtime := ep_Runtime ep; d_ok := ok;
               d_notFound := false |} in
          match update_by_id
                  (episode_update sql dbImageURL (AirDate ep) (ep_Runtime ep) (Name ep)
                     (Overview ep)) epID (show_episodes w1) with
          | None => (fetched false, w1)
          | Some tbl => (fetched true, with_episodes tbl w1)
          end
    end.

(** The first round: one fetch per entry of [toFetch]. The goroutines write
    rows of different episodes, so the order in which they run does not
    show in the result. *)
Fixpoint fetch_round (id : Z) (refs : list epRef) (w : world) : list epResult * world :=
  match refs with
  | [] => ([], w)
  | r :: rest =>
      let '(d, w1) := fetchAndStoreEpisodeData id (seasonNum r) (episodeNum r) (episodeID r) w in
      let '(results, w2) := fetch_round id rest w1 in
      (result_of r d :: results, w2)
  end.

(** One goroutine of the omniseason round. *)
Definition retry_one (id : Z) (seasons : list Season) (rw : list epResult * world)
    (idx : nat) : list epResult * world :=
  match rw.1 !! idx with
  | None => rw
  | Some res =>
      let r := ref res in
      let '(d, w1) := fetchAndStoreEpisodeData id 1 (absEp seasons r) (episodeID r) rw.2 in
      (if d_ok d
       then <[idx := {| ref := r; res_imageURL := d_imageURL d; res_airDate := d_airDate d;
                        res_displayName := d_displayName d; res_synopsis := d_synopsis d;
                        res_runtime := d_runtime d; ok := true; notFound := false |}]> rw.1
       else rw.1,
       w1)
  end.

Definition retry_round (id : Z) (seasons : list Season) (results : list epResult)
    (w : world) : list epResult * world :=
  foldl (retry_one id seasons) (results, w) (omniRetry results).

(** The body of the last loop over [results]. *)
Definition apply_result (sw : list Season * world) (res : epResult) : list Season * world :=
  if ok res then
    (alter (λ s, with_episodes_of (alter (update_episode res) (episodeIdx (ref res))
                                     (Episodes s)) s)
           (seasonIdx (ref res)) sw.1,
     sw.2)
  else if notFound res then
    (sw.1,
     with_episodes
       (default (show_episodes sw.2)
          (update_by_id (λ row, Some (set_episode_image "TMDB_NOT_FOUND_DO_NOT_RETRY" row))
             (episodeID (ref res)) (show_episodes sw.2)))
       sw.2)
  else sw.

Definition set_checked_at (t : Z) (row : TitleRow) : TitleRow :=
  {| title_type := title_type row; imdb_id := imdb_id row; tmdb_id := tmdb_id row;
     Store.image_url := Store.image_url row; original_language := original_language row;
     release_date := release_date row; tmdb_popularity := tmdb_popularity row;
     origin_country := origin_country row;
     Store.runtime_minutes := Store.runtime_minutes row;
     needs_backfill_tmdb := needs_backfill_tmdb row; num_votes := num_votes row;
     episodes_checked_at := Some t |}.

Definition set_TMDBID (id : Z) (t : Title) : Title :=
  {| TitleID := TitleID t; Type_ := Type_ t; IMDbID := IMDbID t; ImageURL := ImageURL t;
     TMDBID := Some id; TMDBPopularity := TMDBPopularity t; OriginCountry := OriginCountry t;
     NeedsBackfillTMDB := NeedsBackfillTMDB t; EpisodesCheckedAt := EpisodesCheckedAt t |}.

(** "Daily cooldown": the show was checked less than 24 hours ago. *)
Definition in_cooldown (t : Title) : bool :=
  match EpisodesCheckedAt t with
  | Some checked => bool_decide (time_Since now checked < day)
  | None => false
  end.

(** [maybeFetchEpisodes]. *)
Definition maybeFetchEpisodes (show : Show) (w : world) : Show * world :=
  if String.eqb tmdbAPIKey "" then (show, w)
  else
    match IMDbID (show_Title show) with
    | None => (show, w)
    | Some imdbID =>
        if String.eqb imdbID "" then (show, w)
        else
          (* Get TMDB ID: fetch it if we don't have it yet *)
          let stored := default 0 (TMDBID (show_Title show)) in
          let '(id, show1, w1) :=
            if decide (stored = 0) then
              let '((_, id), w') :=
                fetchAndStoreTMDBImage sql api tmdbAPIKey imdbID "show" w in
              (id,
               if decide (id = 0) then show
               else {| show_Title := set_TMDBID id (show_Title show);
                       Seasons := Seasons show |},
               w')
            else (stored, show, w) in
          if decide (id = 0) then (show1, w1)
          else if in_cooldown (show_Title show1) then (stripEpisodeSentinels show1, w1)
          else
            match collect_seasons 0 (Seasons show1) with
            | [] => (stripEpisodeSentinels show1, w1)
            | toFetch =>
                let '(results, w2) := fetch_round id toFetch w1 in
                let '(results, w3) := retry_round id (Seasons show1) results w2 in
                let '(seasons, w4) := foldl apply_result (Seasons show1, w3) results in
                let w5 :=
                  with_titles
                    (default (titles w4)
                       (update_by_id (λ row, Some (set_checked_at now row))
                          (TitleID (show_Title show1)) (titles w4)))
                    w4 in
                (stripEpisodeSentinels
                   {| show_Title := show_Title show1; Seasons := seasons |},
                 w5)
            end
    end.

(** *** The handlers *)

Record TitleListItem := {
  li_TitleID : Z;
  li_Type : string;
  li_IMDbID : option string;
  li_ImageURL : option string;
}.

Definition set_li_ImageURL (image : option string) (item : TitleListItem) : TitleListItem :=
  {| li_TitleID := li_TitleID item; li_Type := li_Type item; li_IMDbID := li_IMDbID item;
     li_ImageURL := image |}.

(** "Fetch missing images from TMDB concurrently", one item after the
    other. *)
Fixpoint fetch_missing (items : list TitleListItem) (w : world)
  : list TitleListItem * world :=
  match items with
  | [] => ([], w)
  | item :: rest =>
      let '(item1, w1) :=
        if needsFetch (li_ImageURL item) (li_IMDbID item) then
          let '((url, _), w') :=
            fetchAndStoreTMDBImage sql api tmdbAPIKey (default "" (li_IMDbID item))
              (li_Type item) w in
          (if String.eqb url "" then item else set_li_ImageURL (Some url) item, w')
        else (item, w) in
      let '(rest1, w2) := fetch_missing rest w1 in
      (item1 :: rest1, w2)
  end.

(** The loop under the comment
    "Strip TMDB_NOT_FOUND_DO_NOT_RETRY sentinel so templates don't render it". *)
Definition strip_list_sentinels (items : list TitleListItem) : list TitleListItem :=
  (λ item,
     match li_ImageURL item with
     | Some u => if String.eqb u "TMDB_NOT_FOUND_DO_NOT_RETRY"
                 then set_li_ImageURL None item else item
     | None => item
     end) <$> items.

(** [handleTitlesList] from the rows of the query to the items handed to the
    template. *)
Definition handleTitlesList (items : list TitleListItem) (w : world)
  : list TitleListItem * world :=
  let '(items1, w1) := fetch_missing items w in
  (strip_list_sentinels items1, w1).

(** [handleMoviePage] from the movie read from the store to the title
    handed to the template. *)
Definition handleMoviePage (title : Title) (w : world) : Title * world :=
  let '(t1, w1) := maybeFetchImage sql api tmdbAPIKey title w in
  maybeTMDBBackfill sql int_of_float64 api tmdbAPIKey t1 w1.

(** [handleShowPage] from the show read from the store to the show handed
    to the template. *)
Definition handleShowPage (show : Show) (w : world) : Show * world :=
  let '(t1, w1) := maybeFetchImage sql api tmdbAPIKey (show_Title show) w in
  let '(t2, w2) := maybeTMDBBackfill sql int_of_float64 api tmdbAPIKey t1 w1 in
  maybeFetchEpisodes {| show_Title := t2; Seasons := Seasons show |} w2.

End Episodes.

(** A request that is not an episode request. *)
Definition not_episode_call (c : call) : Prop :=
  match c with
  | CallEpisode _ _ _ => False
  | _ => True
  end.

(** The episodes of the seasons that come before position [si] of the list
    of seasons. *)
Definition episodes_before (seasons : list Season) (si : nat) : Z :=
  foldr (λ s acc, Z.of_nat (length (Episodes s)) + acc) 0 (take si seasons).

(** An answer of 429. *)
Definition is_429 {A} (resp : http A) : Prop :=
  match resp with
  | Resp status _ _ => status = 429
  | NetErr => False
  end.

(** The loop of [fetchAndStoreEpisodeData] makes [n] requests for an
    episode path: at most three, each but the last answered 429, and the
    last not so answered unless it is the third. *)
Definition made_requests (api : Api) (id sn en : Z) (n : nat) : Prop :=
  (1 ≤ n ≤ 3)%nat
  ∧ (∀ k, (S k < n)%nat → is_429 (episode api id sn en k))
  ∧ ((n < 3)%nat → ¬ is_429 (episode api id sn en (n - 1))).

(** The answer that loop ends with is a 404. *)
Definition answered_404 (api : Api) (id sn en : Z) : Prop :=
  ∃ n e okd, made_requests api id sn en n
    ∧ episode api id sn en (n - 1) = Resp 404 e okd.

(** The absolute index of an entry of [toFetch]: its episode number plus
    the number of episodes of the seasons listed before its own. *)
Definition absolute_index (seasons : list Season) (r : epRef) : Z :=
  episodes_before seasons (seasonIdx r) + episodeNum r.

(** The [n] requests of the omniseason retry of entry [i] of [toFetch]. *)
Definition retry_requests (id : Z) (seasons : list Season) (toFetch : list epRef)
    (i n : nat) : list call :=
  match toFetch !! i with
  | Some r => replicate n (CallEpisode id 1 (absolute_index seasons r))
  | None => []
  end.

(** *** A show for the examples *)

(** [n] episodes numbered from [num], with ids from [id] and the given
    image. *)
Fixpoint numbered_episodes (n : nat) (id num : Z) (image : option string) : list Episode :=
  match n with
  | O => []
  | S n' =>
      {| EpisodeID := id; EpisodeNumber := num; ep_DisplayName := None;
         ep_ImageURL := image; ep_AirDate := None; ep_RuntimeMinutes := None;
         ep_Synopsis := None |}
      :: numbered_episodes n' (id + 1) (num + 1) image
  end.

(** Two seasons of 24 episodes that have their images and a third season
    whose only episode has none. *)
Definition toy_show (checked : option Z) : Show :=
  {| show_Title :=
       {| TitleID := 1; Type_ := "show"; IMDbID := Some "tt0000001";
          ImageURL := Some "https://image.tmdb.org/t/p/w500/poster.jpg";
          TMDBID := Some 1399; TMDBPopularity := None; OriginCountry := None;
          NeedsBackfillTMDB := false; EpisodesCheckedAt := checked |};
     Seasons :=
       [ {| SeasonNumber := 1;
            Episodes := numbered_episodes 24 101 1
                          (Some "https://image.tmdb.org/t/p/w400/a.jpg") |};
         {| SeasonNumber := 2;
            Episodes := numbered_episodes 24 201 1
                          (Some "https://image.tmdb.org/t/p/w400/b.jpg") |};
         {| SeasonNumber := 3; Episodes := numbered_episodes 1 301 1 None |} ] |}.

Definition empty_episode_response : TMDBEpisodeResponse :=
  {| Name := ""; Overview := ""; StillPath := ""; AirDate := ""; ep_Runtime := 0 |}.

(** An API that knows the show only as one long season 1. *)
Definition flat_api : Api :=
  {| find := λ _, NetErr;
     detail := λ _ _, NetErr;
     episode := λ _ sn _ _,
       if decide (sn = 1)
       then Resp 200 {| Name := "Episode"; Overview := ""; StillPath := "/still.jpg";
                        AirDate := ""; ep_Runtime := 0 |} true
       else Resp 404 empty_episode_response false |}.

Definition toy_world : world :=
  {| titles := ∅;
     show_episodes :=
       {[ 301 := {| image_url := None; air_date := None; runtime_minutes := None;
                    display_name := None; synopsis := None |} ]};
     calls := [] |}.

(** A movie the Find API had no poster for: its image field holds the
    title-level sentinel. *)
Definition toy_movie : Title :=
  {| TitleID := 2; Type_ := "movie"; IMDbID := Some "tt0000002";
     ImageURL := Some "none"; TMDBID := Some 603; TMDBPopularity := None;
     OriginCountry := None; NeedsBackfillTMDB := false; EpisodesCheckedAt := None |}.

(** An API whose Find answer for a movie has no poster. *)
Definition posterless_api : Api :=
  {| find := λ _,
       Resp 200
         {| TVResults := [];
            MovieResults :=
              [ {| fe_ID := 603; fe_PosterPath := ""; fe_OriginalLanguage := "en";
                   fe_Date := "1999-03-31"; fe_Popularity := Float.zero;
                   fe_OriginCountry := ["US"] |} ] |} true;
     detail := λ _ _, NetErr;
     episode := λ _ _ _ _, NetErr |}.

(** A store with the movie [tt0000002], never looked up. *)
Definition unfetched_world : world :=
  {| titles :=
       {[ 2 := {| title_type := "movie"; imdb_id := Some "tt0000002"; tmdb_id := None;
                  Store.image_url := None; original_language := None;
                  release_date := None; tmdb_popularity := None; origin_country := None;
                  Store.runtime_minutes := None; needs_backfill_tmdb := Some true;
                  num_votes := Some 10; episodes_checked_at := None |} ]};
     show_episodes := ∅;
     calls := [] |}.

Definition toy_item (image : option string) : TitleListItem :=
  {| li_TitleID := 2; li_Type := "movie"; li_IMDbID := Some "tt0000002";
     li_ImageURL := image |}.

(** A show whose only episode holds the episode-level sentinel. *)
Definition sentinel_show : Show :=
  {| show_Title := show_Title (toy_show None);
     Seasons := [ {| SeasonNumber := 1;
                     Episodes := numbered_episodes 1 101 1
                                   (Some "TMDB_NOT_FOUND_DO_NOT_RETRY") |} ] |}.

(** For the backfill examples: an API whose Details answer is [d], a movie
    that is flagged and has its poster, and a store that holds its row. *)
Definition detail_api (d : Detail) : Api :=
  {| find := λ _, NetErr; detail := λ _ _, Resp 200 d true; episode := λ _ _ _ _, NetErr |}.

Definition flagged_movie : Title :=
  {| TitleID := 1; Type_ := "movie"; IMDbID := Some "tt01";
     ImageURL := Some "https://image.tmdb.org/t/p/w500/old.jpg";
     TMDBID := Some 603; TMDBPopularity := None; OriginCountry := Some "US";
     NeedsBackfillTMDB := true; EpisodesCheckedAt := None |}.

Definition flagged_world : world :=
  {| titles := {[ 1 := Backfill.toy_row ]}; show_episodes := ∅; calls := [] |}.

End Server.

(** ** [backend/cmd/sync/main.go]: the scan of [syncTitles] *)

Module SyncTitles.
Local Open Scope Z_scope.

Record ExistingTitle := {
  ID : Z;
  Type_ : string;
  DisplayName : string;
  StartYear : option Z;
  EndYear : option Z;
  OriginalTitle : string;
  RuntimeMinutes : option Z;
}.

Record TitleRecord := {
  r_ImdbID : string;
  r_Type : string;
  r_DisplayName : string;
  r_StartYear : option Z;
  r_EndYear : option Z;
  r_OriginalTitle : string;
  r_RuntimeMinutes : option Z;
  r_Genres : list string;
}.

(** [intsEqual]. *)
Definition intsEqual (a b : option Z) : bool :=
  match a, b with
  | None, None => true
  | None, Some _ | Some _, None => false
  | Some x, Some y => bool_decide (x = y)
  end.

(** The variables of the scan, with the two maps of the process it fills:
    [episodeTitles] and [titleGenres]. The counters count lines of one file
    and stay far below the 64-bit range. *)
Record scan_state := {
  toInsert : list TitleRecord;
  toUpdate : list TitleRecord;
  newMovieTitleIDs : list Z;
  newShowTitleIDs : list Z;
  scanned : Z;
  unchanged : Z;
  ignored : Z;
  episodeCount : Z;
  episodeTitles : gmap string string;
  titleGenres : gmap string (list string);
}.

Definition scan_init (episodeTitles0 : gmap string string)
    (titleGenres0 : gmap string (list string)) : scan_state :=
  {| toInsert := []; toUpdate := []; newMovieTitleIDs := []; newShowTitleIDs := [];
     scanned := 0; unchanged := 0; ignored := 0; episodeCount := 0;
     episodeTitles := episodeTitles0; titleGenres := titleGenres0 |}.

(** [if s != "\\N" { if y, err := strconv.Atoi(s); err == nil { v = &y } }]. *)
Definition int_field (s : string) : option Z :=
  if String.eqb s "\N" then None else Go.Atoi s.

(** The [switch titleType]. *)
Definition ourType (titleType : string) : option string :=
  if String.eqb titleType "movie" || String.eqb titleType "tvMovie" then Some "movie"
  else if String.eqb titleType "tvSeries" || String.eqb titleType "tvMiniSeries"
  then Some "show"
  else None.

(** [needsUpdate]. *)
Definition needsUpdate (existing : ExistingTitle) (displayName : string)
    (startYear endYear : option Z) (originalTitle : string)
    (runtimeMinutes : option Z) : bool :=
  negb (String.eqb (DisplayName existing) displayName)
  || negb (intsEqual (StartYear existing) startYear)
  || negb (intsEqual (EndYear existing) endYear)
  || negb (String.eqb (OriginalTitle existing) originalTitle)
  || negb (intsEqual (RuntimeMinutes existing) runtimeMinutes).

Section Scan.
(** The three maps loaded from the store before the file is read; a
    [map[int]bool] answers [false] for a key it does not hold. *)
Context (existingTitles : gmap string ExistingTitle)
        (existingMovies existingShows : gmap Z bool).

(** The body of [for scanner.Scan()]. *)
Definition scan_line (st : scan_state) (line : string) : scan_state :=
  match Go.Split line Go.tab with
  | imdbID :: titleType :: displayName :: originalTitle :: _ :: yearStr
      :: endYearStr :: runtimeStr :: genresStr :: _ =>
      if String.eqb titleType "tvEpisode" then
        (* Collect episode titles for later *)
        {| toInsert := toInsert st; toUpdate := toUpdate st;
           newMovieTitleIDs := newMovieTitleIDs st; newShowTitleIDs := newShowTitleIDs st;
           scanned := scanned st; unchanged := unchanged st; ignored := ignored st;
           episodeCount := episodeCount st + 1;
           episodeTitles := <[imdbID := displayName]> (episodeTitles st);
           titleGenres := titleGenres st |}
      else
        match ourType titleType with
        | None =>
            {| toInsert := toInsert st; toUpdate := toUpdate st;
               newMovieTitleIDs := newMovieTitleIDs st;
               newShowTitleIDs := newShowTitleIDs st;
               scanned := scanned st; unchanged := unchanged st;
               ignored := ignored st + 1;
               episodeCount := episodeCount st;
               episodeTitles := episodeTitles st; titleGenres := titleGenres st |}
        | Some ty =>
            let startYear := int_field yearStr in
            let endYear := int_field endYearStr in
            let runtimeMinutes := int_field runtimeStr in
            let genres :=
              if String.eqb genresStr "\N" then [] else Go.Split genresStr ","%char in
            let record :=
              {| r_ImdbID := imdbID; r_Type := ty; r_DisplayName := displayName;
                 r_StartYear := startYear; r_EndYear := endYear;
                 r_OriginalTitle := originalTitle; r_RuntimeMinutes := runtimeMinutes;
                 r_Genres := genres |} in
            let tg :=
              match genres with
              | [] => titleGenres st
              | _ => <[imdbID := genres]> (titleGenres st)
              end in
            match existingTitles !! imdbID with
            | Some existing =>
                let changed :=
                  needsUpdate existing displayName startYear endYear originalTitle
                    runtimeMinutes in
                let movieMissing :=
                  String.eqb ty "movie"
                  && negb (default false (existingMovies !! ID existing)) in
                let showMissing :=
                  String.eqb ty "show"
                  && negb (default false (existingShows !! ID existing)) in
                {| toInsert := toInsert st;
                   toUpdate := if changed then toUpdate st ++ [record] else toUpdate st;
                   newMovieTitleIDs :=
                     if movieMissing then newMovieTitleIDs st ++ [ID existing]
                     else newMovieTitleIDs st;
                   newShowTitleIDs :=
                     if movieMissing then newShowTitleIDs st
                     else if showMissing then newShowTitleIDs st ++ [ID existing]
                     else newShowTitleIDs st;
                   scanned := scanned st + 1;
                   unchanged := if changed then unchanged st else unchanged st + 1;
                   ignored := ignored st;
                   episodeCount := episodeCount st;
                   episodeTitles := episodeTitles st;
                   titleGenres := tg |}
            | None =>
                {| toInsert := toInsert st ++ [record];
                   toUpdate := toUpdate st;
                   newMovieTitleIDs := newMovieTitleIDs st;
                   newShowTitleIDs := newShowTitleIDs st;
                   scanned := scanned st + 1;
                   unchanged := unchanged st;
                   ignored := ignored st;
                   episodeCount := episodeCount st;
                   episodeTitles := episodeTitles st;
                   titleGenres := tg |}
            end
        end
  | _ => st  (* len(fields) < 9 *)
  end.

(** The loop over the lines that follow the header. *)
Definition scan (lines : list string) (st : scan_state) : scan_state :=
  foldl scan_line st lines.

End Scan.

(** Whether a line has the nine fields the scan needs. *)
Definition has_nine_fields (line : string) : bool :=
  bool_decide (9 ≤ length (Go.Split line Go.tab))%nat.

(** The five compared columns of a record are those loaded for a title. *)
Definition same_columns (existing : ExistingTitle) (r : TitleRecord) : Prop :=
  DisplayName existing = r_DisplayName r
  ∧ StartYear existing = r_StartYear r
  ∧ EndYear existing = r_EndYear r
  ∧ OriginalTitle existing = r_OriginalTitle r
  ∧ RuntimeMinutes existing = r_RuntimeMinutes r.

(** The record the scan builds for a line; [None] for a line with fewer
    than nine fields, the title of an episode, or a title of a kind the
    store does not keep. *)
Definition record_of_line (line : string) : option TitleRecord :=
  match Go.Split line Go.tab with
  | imdbID :: titleType :: displayName :: originalTitle :: _ :: yearStr
      :: endYearStr :: runtimeStr :: genresStr :: _ =>
      if String.eqb titleType "tvEpisode" then None
      else
        match ourType titleType with
        | None => None
        | Some ty =>
            Some {| r_ImdbID := imdbID; r_Type := ty; r_DisplayName := displayName;
                    r_StartYear := int_field yearStr; r_EndYear := int_field endYearStr;
                    r_OriginalTitle := originalTitle;
                    r_RuntimeMinutes := int_field runtimeStr;
                    r_Genres := if String.eqb genresStr "\N" then []
                                else Go.Split genresStr ","%char |}
        end
  | _ => None
  end.

(** For the examples: the store knows the movie [tt01] and has its
    [movies] row; the file has that movie unchanged, a new series, a short
    film and an episode. *)
Definition toy_existingTitles : gmap string ExistingTitle :=
  {[ "tt01" := {| ID := 1; Type_ := "movie"; DisplayName := "The Matrix";
                  StartYear := Some 1999; EndYear := None;
                  OriginalTitle := "The Matrix"; RuntimeMinutes := Some 136 |} ]}.

Definition toy_lines : list string :=
  [ Go.join_tab ["tt01"; "movie"; "The Matrix"; "The Matrix"; "0"; "1999"; "\N"; "136";
                 "Action,Sci-Fi"];
    Go.join_tab ["tt02"; "tvSeries"; "Dark"; "Dark"; "0"; "2017"; "2020"; "60"; "\N"];
    Go.join_tab ["tt03"; "short"; "Clip"; "Clip"; "0"; "2001"; "\N"; "5"; "\N"];
    Go.join_tab ["tt04"; "tvEpisode"; "Pilot"; "Pilot"; "0"; "2017"; "\N"; "50"; "\N"];
    "tt05" ].

End SyncTitles.

(** ** [backend/cmd/sync/main.go]: [syncEpisodes], the first pass *)

Module SyncSeasons.
Import SyncEpisodes.
Local Open Scope Z_scope.

Section FirstPass.
(** [showCache] and [existingSeasons] as loaded at the start of
    [syncEpisodes]. *)
Context (showCache : gmap string Z) (existingSeasons : gmap seasonKey Z).

(** The body of [for scanner.Scan()] of the first pass; [seasonsToInsert]
    is a [map[seasonKey]bool] that only ever holds [true]. *)
Definition first_pass_line (seasonsToInsert : gset seasonKey) (line : string)
  : gset seasonKey :=
  match Go.Split line Go.tab with
  | _ :: parentImdbID :: seasonStr :: _ :: _ =>
      if String.eqb seasonStr "\N" then seasonsToInsert
      else
        match Go.Atoi seasonStr with
        | None => seasonsToInsert
        | Some season =>
        match showCache !! parentImdbID with
        | None => seasonsToInsert
        | Some showID =>
            match existingSeasons !! (showID, season) with
            | Some _ => seasonsToInsert
            | None => {[ (showID, season) ]} ∪ seasonsToInsert
            end
        end end
  | _ => seasonsToInsert  (* len(fields) < 4 *)
  end.

(** The first pass over the lines that follow the header. *)
Definition first_pass (lines : list string) : gset seasonKey :=
  foldl first_pass_line ∅ lines.

End FirstPass.

(** The table [show_seasons] by primary key, and the next value of its id
    sequence. *)
Record seasons_db := {
  show_seasons : gmap Z seasonKey;
  seasons_next_id : Z;
}.

(** The loop that fills [existingSeasons]. *)
Definition load_existingSeasons (tbl : gmap Z seasonKey) : gmap seasonKey Z :=
  list_to_map ((λ ik : Z * seasonKey, (ik.2, ik.1)) <$> map_to_list tbl).

Definition season_taken (tbl : gmap Z seasonKey) (k : seasonKey) : bool :=
  bool_decide (map_Exists (λ _ k', k' = k) tbl).

(** The rows of one [INSERT INTO show_seasons (show_id, season) VALUES ...
    RETURNING id, show_id, season], one after the other, with the rows it
    returns; [None] when the statement fails: a value outside INTEGER, a
    taken (show_id, season) pair or a taken id. *)
Fixpoint insert_season_rows (rows : list seasonKey) (d : seasons_db)
  : option (seasons_db * list (Z * seasonKey)) :=
  match rows with
  | [] => Some (d, [])
  | k :: ks =>
      if negb (in_int4 k.1 && in_int4 k.2) then None
      else if season_taken (show_seasons d) k then None
      else
        match show_seasons d !! seasons_next_id d with
        | Some _ => None
        | None =>
            match insert_season_rows ks
                    {| show_seasons := <[seasons_next_id d := k]> (show_seasons d);
                       seasons_next_id := seasons_next_id d + 1 |} with
            | None => None
            | Some (d', returned) => Some (d', (seasons_next_id d, k) :: returned)
            end
        end
  end.

(** One batch: the statement, then the loop over the returned rows that
    records their ids in [existingSeasons]. An empty VALUES list is a
    syntax error. *)
Definition insert_season_batch (batch : list seasonKey)
    (s : seasons_db * gmap seasonKey Z) : option (seasons_db * gmap seasonKey Z) :=
  match batch with
  | [] => None
  | _ =>
      match insert_season_rows batch s.1 with
      | None => None
      | Some (d', returned) =>
          Some (d', foldl (λ m (ik : Z * seasonKey), <[ik.2 := ik.1]> m) s.2 returned)
      end
  end.

(** The loop over the batches of [seasonList]; it returns at the first
    failing statement. *)
Fixpoint insert_season_batches (bs : list (list seasonKey))
    (s : seasons_db * gmap seasonKey Z)
  : seasons_db * gmap seasonKey Z * option string :=
  match bs with
  | [] => (s, None)
  | b :: bs' =>
      match insert_season_batch b s with
      | None => (s, Some "season insert")
      | Some s' => insert_season_batches bs' s'
      end
  end.

(** "Insert new seasons". [seasonList] is filled by ranging over the map
    [seasonsToInsert], in an order Go leaves unspecified: it is any list
    that holds each key of the map once. *)
Definition insert_new_seasons (batchSize : nat) (seasonList : list seasonKey)
    (d : seasons_db) (existingSeasons : gmap seasonKey Z)
  : seasons_db * gmap seasonKey Z * option string :=
  match seasonList with
  | [] => ((d, existingSeasons), None)
  | _ => insert_season_batches (batches batchSize seasonList) (d, existingSeasons)
  end.

(** A line of the episode file that names a cached show and gives a season
    number that parses: the key of that season. *)
Definition names_season (showCache : gmap string Z) (line : string) (k : seasonKey)
  : Prop :=
  ∃ episodeImdbID parentImdbID seasonStr episodeStr rest,
    Go.Split line Go.tab = episodeImdbID :: parentImdbID :: seasonStr :: episodeStr :: rest
    ∧ seasonStr ≠ "\N"
    ∧ Go.Atoi seasonStr = Some k.2
    ∧ showCache !! parentImdbID = Some k.1.

(** A line of the episode file that names a cached show and gives a season
    and an episode number that parse. *)
Definition names_episode (showCache : gmap string Z) (line : string)
    (showID season episode : Z) : Prop :=
  ∃ episodeImdbID parentImdbID seasonStr episodeStr rest,
    Go.Split line Go.tab = episodeImdbID :: parentImdbID :: seasonStr :: episodeStr :: rest
    ∧ seasonStr ≠ "\N" ∧ episodeStr ≠ "\N"
    ∧ Go.Atoi seasonStr = Some season ∧ Go.Atoi episodeStr = Some episode
    ∧ showCache !! parentImdbID = Some showID.

(** For the examples: a store with season 1 of show 10, and a file that
    also has an episode of its season 2. *)
Definition toy_seasons_db : seasons_db :=
  {| show_seasons := {[ 100 := (10, 1) ]}; seasons_next_id := 101 |}.

Definition toy_episode_lines : list string :=
  [ Go.join_tab ["tt2"; "tt1"; "1"; "1"];
    Go.join_tab ["tt3"; "tt1"; "2"; "1"];
    Go.join_tab ["tt4"; "tt1"; "\N"; "\N"];
    Go.join_tab ["tt5"; "tt9"; "1"; "1"] ].

End SyncSeasons.

(** ** [backend/cmd/sync/main.go]: [tmdbBackfill] *)

Module TmdbBackfill.
Import Store TMDB.
Local Open Scope Z_scope.

(** The row after the UPDATE of [tmdbBackfill]:
    [SET tmdb_id = COALESCE(tmdb_id, $1),
         image_url = COALESCE(NULLIF(image_url, ''), NULLIF($2, '')),
         original_language = COALESCE(NULLIF($3, ''), original_language),
         release_date = CASE WHEN $4 = '' THEN release_date
                        ELSE COALESCE(release_date, $4::date) END,
         tmdb_popularity = COALESCE(tmdb_popularity, $5),
         origin_country = COALESCE(NULLIF($6, ''), origin_country)
     WHERE id = $7];
    [None] when a parameter is out of range or a conversion that is
    evaluated fails. COALESCE evaluates its arguments from the left and
    stops at the first that is not NULL. *)
Definition fill_update (sql : Sql) (tmdbID : Z) (imageURL origLang releaseDate : string)
    (popularity : spec_float) (originCountry : string) (row : TitleRow)
  : option TitleRow :=
  if negb (in_int4 tmdbID) then None else
  match Float.cast_real popularity with
  | None => None
  | Some pop =>
  match coalesce_nullif_varchar10 sql origLang (original_language row) with
  | None => None
  | Some language =>
  match coalesce_nullif_varchar10 sql originCountry (origin_country row) with
  | None => None
  | Some country =>
  match (if String.eqb releaseDate "" then Some (release_date row)
         else match release_date row with
              | Some d => Some (Some d)
              | None => Some <$> to_date sql releaseDate
              end) with
  | None => None
  | Some date =>
      Some {| title_type := title_type row;
              imdb_id := imdb_id row;
              tmdb_id := match tmdb_id row with
                         | Some id => Some id
                         | None => Some tmdbID
                         end;
              image_url :=
                match image_url row with
                | Some u => if String.eqb u ""
                            then (if String.eqb imageURL "" then None else Some imageURL)
                            else Some u
                | None => if String.eqb imageURL "" then None else Some imageURL
                end;
              original_language := language;
              release_date := date;
              tmdb_popularity := match tmdb_popularity row with
                                 | Some p => Some p
                                 | None => Some pop
                                 end;
              origin_country := country;
              runtime_minutes := runtime_minutes row;
              needs_backfill_tmdb := needs_backfill_tmdb row;
              num_votes := num_votes row;
              episodes_checked_at := episodes_checked_at row |}
  end end end end.

(** The values [tmdbBackfill] takes from the Find response. *)
Record found := {
  f_tmdbID : Z;
  f_posterPath : string;
  f_origLang : string;
  f_releaseDate : string;
  f_popularity : spec_float;
  f_originCountry : string;
}.

Definition found_zero : found :=
  {| f_tmdbID := 0; f_posterPath := ""; f_origLang := ""; f_releaseDate := "";
     f_popularity := Float.zero; f_originCountry := "" |}.

Definition of_entry (e : FindEntry) : found :=
  {| f_tmdbID := fe_ID e; f_posterPath := fe_PosterPath e;
     f_origLang := fe_OriginalLanguage e; f_releaseDate := fe_Date e;
     f_popularity := fe_Popularity e;
     f_originCountry := match fe_OriginCountry e with c :: _ => c | [] => "" end |}.

(** The result of the title's own kind, and nothing when there is none. *)
Definition select (titleType : string) (result : TMDBFindResponse) : found :=
  match String.eqb titleType "show", TVResults result with
  | true, tv :: _ => of_entry tv
  | _, _ =>
      match String.eqb titleType "movie", MovieResults result with
      | true, mv :: _ => of_entry mv
      | _, _ => found_zero
      end
  end.

Section Fetch.
Context (sql : Sql) (api : Backfill.Api) (tmdbAPIKey : string).

(** [tmdbBackfill]: the origin country it returns, the table and the
    requests made. The error of the UPDATE is not looked at. *)
Definition tmdbBackfill (titleID : Z) (imdbID titleType : string)
    (tbl : gmap Z TitleRow) (cs : list Backfill.call)
  : string * gmap Z TitleRow * list Backfill.call :=
  if String.eqb tmdbAPIKey "" || String.eqb imdbID "" then ("", tbl, cs)
  else
    let cs1 := cs ++ [Backfill.CallFind imdbID] in
    match Backfill.find api (length cs) imdbID with
    | Resp 200 result true =>
        let f := select titleType result in
        if decide (f_tmdbID f = 0) then ("", tbl, cs1)
        else
          let show := String.eqb titleType "show" in
          let '(originCountry, cs2) :=
            if String.eqb (f_originCountry f) "" then
              (match Backfill.detail api (length cs1) show (f_tmdbID f) with
               | Resp 200 d true =>
                   match OriginCountry d, ProductionCountries d with
                   | c :: _, _ => c
                   | [], iso :: _ => iso
                   | [], [] => ""
                   end
               | _ => ""
               end,
               cs1 ++ [Backfill.CallDetail show (f_tmdbID f)])
            else (f_originCountry f, cs1) in
          let imageURL :=
            if String.eqb (f_posterPath f) "" then "" else poster_base +:+ f_posterPath f in
          (originCountry,
           default tbl
             (update_by_id
                (fill_update sql (f_tmdbID f) imageURL (f_origLang f) (f_releaseDate f)
                   (f_popularity f) originCountry)
                titleID tbl),
           cs2)
    | _ => ("", tbl, cs1)
    end.

End Fetch.

(** For the examples: the Find API knows the movie, with another poster
    and another language than the store has. *)
Definition toy_find_api : Backfill.Api :=
  {| Backfill.find := λ _ _,
       Resp 200
         {| TVResults := [];
            MovieResults :=
              [ {| fe_ID := 604; fe_PosterPath := "/new.jpg"; fe_OriginalLanguage := "fr";
                   fe_Date := "2003-05-15"; fe_Popularity := Float.zero;
                   fe_OriginCountry := ["FR"] |} ] |} true;
     Backfill.detail := λ _ _ _, NetErr |}.

End TmdbBackfill.

(** ** Inputs for the examples of Part II *)

Module Samples.
Local Open Scope Z_scope.

(** An instance of [SyncMain.Ops] like [SyncMain.toy_ops], whose digest is
    the text behind twelve zeros and whose downloads fail when [offline]. *)
Definition sample_ops (offline : bool)
  : SyncMain.Ops (gmap string string) (list SyncMain.stage) := {|
  SyncMain.downloadFile := λ _ _ fsys,
    (fsys, if offline then Some "dial tcp: network is unreachable" else None);
  SyncMain.readFile := λ fsys p, fsys !! p;
  SyncMain.sha256_hex := λ s, "000000000000" +:+ s;
  SyncMain.syncTitles := λ _ _ e, (e ++ [SyncMain.StTitles], None);
  SyncMain.syncGenres := λ e, (e ++ [SyncMain.StGenres], None);
  SyncMain.syncEpisodes := λ _ _ e, (e ++ [SyncMain.StEpisodes], None);
  SyncMain.syncRatings := λ _ _ e, (e ++ [SyncMain.StRatings], None);
  SyncMain.tmdbBackfillBatch := λ e, e;
  SyncMain.sync_state_exec_ok := true;
|}.

(** A process that has the three files and the given checkpoint table. *)
Definition sample_proc (state : gmap string string)
  : SyncMain.proc (gmap string string) (list SyncMain.stage) :=
  SyncMain.Proc SyncMain.toy_fs [] state.

(** The process after a first run has imported the three files. *)
Definition imported_proc : SyncMain.proc (gmap string string) (list SyncMain.stage) :=
  SyncMain.Proc SyncMain.toy_fs
    [SyncMain.StTitles; SyncMain.StGenres; SyncMain.StEpisodes; SyncMain.StRatings]
    {[ "imdb_files_hash" := "000000000000aaaaaabbbbbbcccccc" ]}.

(** The three download events of a run in directory [d]. *)
Definition sample_downloads : list SyncMain.event :=
  [ SyncMain.EvDownload SyncMain.basicsURL "d/title.basics.tsv.gz";
    SyncMain.EvDownload SyncMain.episodesURL "d/title.episode.tsv.gz";
    SyncMain.EvDownload SyncMain.ratingsURL "d/title.ratings.tsv.gz" ].

(** The record of the rating line [tt01 8.1 600]. *)
Definition sample_rating : SyncRatings.RatingRecord :=
  {| SyncRatings.ImdbID := "tt01"; SyncRatings.NumVotes := 600;
     SyncRatings.AverageRating := Float.of_decimal 81 1 |}.

(** A ratings file: the header, a title of the store with a new rating and
    a title the store does not hold. *)
Definition sample_ratings_file : list string :=
  [ Go.join_tab ["tconst"; "averageRating"; "numVotes"];
    Go.join_tab ["tt01"; "8.1"; "600"];
    Go.join_tab ["tt99"; "7.3"; "12"] ].

(** A show inside its cooldown whose only episode holds the sentinel. *)
Definition cooling_sentinel_show : Server.Show :=
  {| Server.show_Title := Server.show_Title (Server.toy_show (Some 0));
     Server.Seasons := Server.Seasons Server.sentinel_show |}.

(** A store that refuses the date of year zero, as PostgreSQL does, and
    details that carry it. *)
Definition strict_sql : Store.Sql :=
  {| Store.to_date := λ s, if String.eqb s "0000-00-00" then None else Some s;
     Store.to_varchar10 := Some; Store.to_varchar500 := Some |}.

Definition undated_detail : TMDB.Detail :=
  {| TMDB.PosterPath := "/new.jpg"; TMDB.OriginalLanguage := "fr";
     TMDB.ReleaseDate := "0000-00-00"; TMDB.FirstAirDate := "";
     TMDB.Popularity := Float.zero; TMDB.OriginCountry := [];
     TMDB.ProductionCountries := []; TMDB.Runtime := Float.zero |}.

End Samples.

(** * Part II: theorems *)

Module SyncMainProps.
Import SyncMain.

Section MainProps.
Context {FS Env : Type} (ops : Ops FS Env).

Lemma quiet_no_stage_no_checkpoint (l : list event) :
  Forall quiet l →
  (∀ k v, EvSetSyncState k v ∉ l) ∧ (∀ s e, EvStage s e ∉ l).
Proof.
  intros Hl. rewrite Forall_forall in Hl.
  split; intros ?? Hin; apply Hl in Hin; destruct Hin; done.
Qed.

Lemma aborted_import_events e (t : list event) :
  aborted_import e t →
  (∀ k v, EvSetSyncState k v ∉ t) ∧ (∀ s e', EvStage s (Some e') ∈ t → e' = e).
Proof.
  intros Hab. split.
  - intros k v Hin. destruct Hab as [-> | [-> | [-> | ->]]];
      repeat (apply elem_of_cons in Hin as [Hin|Hin]; [done|]); by inversion Hin.
  - intros s e' Hin. destruct Hab as [-> | [-> | [-> | ->]]];
      repeat (apply elem_of_cons in Hin as [Hin|Hin]; [by simplify_eq|]); by inversion Hin.
Qed.

Lemma full_import_checkpoint h k v :
  EvSetSyncState k v ∈ full_import h → k = "imdb_files_hash" ∧ v = h.
Proof.
  unfold full_import. intros Hin.
  repeat (apply elem_of_cons in Hin as [Hin|Hin]; [by simplify_eq|]).
  by inversion Hin.
Qed.

Lemma full_import_no_error h s e : EvStage s (Some e) ∉ full_import h.
Proof.
  unfold full_import. intros Hin.
  repeat (apply elem_of_cons in Hin as [Hin|Hin]; [by simplify_eq|]).
  by inversion Hin.
Qed.

Lemma download_all_spec dir p p1 t r :
  download_all ops dir p = (p1, t, r) →
  env p1 = env p ∧ sync_state p1 = sync_state p ∧ Forall quiet t ∧ r ≠ Panic.
Proof.
  unfold download_all, bind, download. intros H.
  repeat (case_match; simplify_eq/=); repeat split; try done;
    repeat constructor.
Qed.

Lemma import_stages_spec dir h p p' t r :
  import_stages ops dir h p = (p', t, r) →
  (r = Ok () ∧ t = full_import h ∧
   sync_state p' =
     (if sync_state_exec_ok ops then <["imdb_files_hash" := h]> (sync_state p)
      else sync_state p))
  ∨ (∃ e, r = FatalExit e ∧ aborted_import e t ∧ sync_state p' = sync_state p).
Proof.
  unfold import_stages, bind, run_stage, setSyncState, aborted_import, full_import.
  intros H.
  repeat (case_match; simplify_eq/=); eauto 10.
Qed.

Lemma import_if_changed_spec force dir p p' t r :
  import_if_changed ops force dir p = (p', t, r) →
  env p' = env p ∧ sync_state p' = sync_state p ∧ t = [] ∧ r ≠ Ok () ∨
  (t = [] ∧ r = Ok () ∧ p' = p ∧ force = false ∧
   hashFiles ops (fs p) (dataset_paths dir) = inl (getSyncState "imdb_files_hash" p)) ∨
  (∃ h, hashFiles ops (fs p) (dataset_paths dir) = inl h ∧
        (force = true ∨ h ≠ getSyncState "imdb_files_hash" p) ∧
        import_stages ops dir h p = (p', t, r)).
Proof.
  unfold import_if_changed, bind, log_prefix12, ret. intros H.
  destruct (hashFiles ops (fs p) (dataset_paths dir)) as [h|e] eqn:Hh;
    [|simplify_eq; left; done].
  destruct force; simpl in H.
  - right; right. exists h. split; [done|]. split; [by left|].
    repeat (case_match; simplify_eq/=); done.
  - destruct (String.eqb h (getSyncState "imdb_files_hash" p)) eqn:He; simpl in H.
    + apply String.eqb_eq in He. subst h.
      repeat (case_match; simplify_eq/=); [right; left; done | left; done].
    + apply String.eqb_neq in He.
      destruct (String.eqb (getSyncState "imdb_files_hash" p) "") eqn:He2; simpl in H.
      * right; right. exists h. repeat split; [by right|].
        repeat (case_match; simplify_eq/=); done.
      * destruct (Go.slice_to (getSyncState "imdb_files_hash" p) 12); simpl in H;
          [|simplify_eq; left; done].
        destruct (Go.slice_to h 12); simpl in H; [|simplify_eq; left; done].
        right; right. exists h. repeat split; [by right|].
        repeat (case_match; simplify_eq/=); done.
Qed.

Lemma backfill_section_spec key p p' t r :
  backfill_section ops key p = (p', t, r) →
  sync_state p' = sync_state p ∧ Forall quiet t ∧ r = Ok () ∧
  (env p' = env p ∨ env p' = tmdbBackfillBatch ops (env p)).
Proof.
  unfold backfill_section, ret. intros H.
  case_match; simplify_eq/=; repeat split; auto; repeat constructor.
Qed.

(** C2. A run whose three downloads succeed, whose combined fingerprint
    equals the stored checkpoint and whose force flag is unset runs none of
    the four import stages and writes no checkpoint: every event of the run
    is a download or the backfill call, the checkpoint table is as before,
    and the tables are either untouched or what the backfill alone made of
    them. *)
Theorem main_unchanged_runs_no_stage dir key p p1 t1 h :
  download_all ops dir p = (p1, t1, Ok ()) →
  hashFiles ops (fs p1) (dataset_paths dir) = inl h →
  sync_state p !! "imdb_files_hash" = Some h →
  ∃ p' t r, main ops false dir key p = (p', t, r)
    ∧ Forall quiet t
    ∧ (∀ s err, EvStage s err ∉ t)
    ∧ (∀ k v, EvSetSyncState k v ∉ t)
    ∧ sync_state p' = sync_state p
    ∧ (env p' = env p ∨ env p' = tmdbBackfillBatch ops (env p)).
Proof.
  intros Hdl Hh Hprev.
  destruct (main ops false dir key p) as [[p' t] r] eqn:Hmain.
  exists p', t, r. split; [done|].
  assert (Forall quiet t ∧ sync_state p' = sync_state p
          ∧ (env p' = env p ∨ env p' = tmdbBackfillBatch ops (env p)))
    as (Hq & Hs & He).
  { unfold main, bind in Hmain. rewrite Hdl in Hmain.
    destruct (download_all_spec _ _ _ _ _ Hdl) as (He1 & Hs1 & Hq1 & _).
    destruct (import_if_changed ops false dir p1) as [[p2 t2] r2] eqn:Himp.
    assert (getSyncState "imdb_files_hash" p1 = h) as Hget.
    { unfold getSyncState. by rewrite Hs1, Hprev. }
    destruct (import_if_changed_spec _ _ _ _ _ _ Himp)
      as [(He2 & Hs2 & -> & Hr2) | [(-> & -> & -> & _ & _) | (h' & Hh' & Hne & _)]].
    - destruct r2 as [[]| |]; simplify_eq/=; rewrite ?app_nil_r;
        (split; [done | split; [congruence | left; congruence]]).
    - destruct (backfill_section ops key p1) as [[p3 t3] r3] eqn:Hbf.
      destruct (backfill_section_spec _ _ _ _ _ Hbf) as (Hs3 & Hq3 & -> & He3).
      simplify_eq/=. repeat split.
      + by apply Forall_app.
      + congruence.
      + rewrite <- He1. done.
    - rewrite Hh in Hh'. simplify_eq. destruct Hne; done. }
  destruct (quiet_no_stage_no_checkpoint _ Hq) as [Hc Hst].
  repeat split; auto.
Qed.

(** C6. In every run of [main]: (1) if the checkpoint statement is issued,
    the events of the run are downloads, then the four stage calls in
    order, each returning no error, then that one statement with the
    fingerprint of the files, then at most the backfill call; (2) if a
    stage returns an error the run ends in [log.Fatal] with it, issues no
    checkpoint statement and leaves the checkpoint table as it was;
    (3) the checkpoint table changes only through the statement of (1). *)
Theorem main_checkpoint_only_after_all_stages force dir key p :
  ∃ p' t r, main ops force dir key p = (p', t, r)
    ∧ (∀ k v, EvSetSyncState k v ∈ t →
         ∃ p1 t0 t2, t = t0 ++ full_import v ++ t2
           ∧ k = "imdb_files_hash"
           ∧ Forall quiet t0 ∧ Forall quiet t2
           ∧ download_all ops dir p = (p1, t0, Ok ())
           ∧ hashFiles ops (fs p1) (dataset_paths dir) = inl v)
    ∧ (∀ s e, EvStage s (Some e) ∈ t →
         r = FatalExit e
         ∧ (∀ k v, EvSetSyncState k v ∉ t)
         ∧ sync_state p' = sync_state p)
    ∧ (sync_state p' ≠ sync_state p →
         ∃ v, EvSetSyncState "imdb_files_hash" v ∈ t
           ∧ sync_state p' = <["imdb_files_hash" := v]> (sync_state p)).
Proof.
  destruct (main ops force dir key p) as [[p' t] r] eqn:Hmain.
  exists p', t, r. split; [done|].
  unfold main, bind in Hmain.
  destruct (download_all ops dir p) as [[p1 t1] r1] eqn:Hdl.
  destruct (download_all_spec _ _ _ _ _ Hdl) as (He1 & Hs1 & Hq1 & Hr1).
  destruct (quiet_no_stage_no_checkpoint _ Hq1) as [Hc1 Hst1].
  destruct r1 as [[]|msg|]; [|simplify_eq|done].
  2:{ split; [|split].
      - intros k v Hin. by destruct (Hc1 _ _ Hin).
      - intros s e Hin. by destruct (Hst1 _ _ Hin).
      - intros Hne. by destruct Hne. }
  destruct (import_if_changed ops force dir p1) as [[p2 t2] r2] eqn:Himp.
  destruct (import_if_changed_spec _ _ _ _ _ _ Himp)
    as [(He2 & Hs2 & -> & Hr2) | [(-> & -> & -> & _ & _) | (h & Hh & Hne & Hst)]].
  - assert (t = t1 ∧ sync_state p' = sync_state p) as [-> Hs].
    { destruct r2 as [[]| |]; simplify_eq/=; rewrite ?app_nil_r; split; congruence. }
    split; [|split].
    + intros k v Hin. by destruct (Hc1 _ _ Hin).
    + intros s e Hin. by destruct (Hst1 _ _ Hin).
    + intros Hne. by destruct Hne.
  - destruct (backfill_section ops key p1) as [[p3 t3] r3] eqn:Hbf.
    destruct (backfill_section_spec _ _ _ _ _ Hbf) as (Hs3 & Hq3 & -> & He3).
    simplify_eq/=.
    destruct (quiet_no_stage_no_checkpoint (t1 ++ t3)) as [Hc Hst];
      [by apply Forall_app|].
    split; [|split].
    + intros k v Hin. by destruct (Hc _ _ Hin).
    + intros s e Hin. by destruct (Hst _ _ Hin).
    + intros Hne. exfalso. apply Hne. congruence.
  - destruct (import_stages_spec _ _ _ _ _ _ Hst)
      as [(-> & -> & Hs2) | (e & -> & Hab & Hs2)].
    + destruct (backfill_section ops key p2) as [[p3 t3] r3] eqn:Hbf.
      destruct (backfill_section_spec _ _ _ _ _ Hbf) as (Hs3 & Hq3 & -> & He3).
      simplify_eq/=.
      destruct (quiet_no_stage_no_checkpoint _ Hq3) as [Hc3 Hst3].
      change (EvStage StTitles None :: EvStage StGenres None
              :: EvStage StEpisodes None :: EvStage StRatings None
              :: EvSetSyncState "imdb_files_hash" h :: t3)
        with (full_import h ++ t3).
      split; [|split].
      * intros k v Hin. exists p1, t1, t3.
        rewrite !elem_of_app in Hin.
        destruct Hin as [Hin | [Hin | Hin]];
          [by destruct (Hc1 _ _ Hin) | | by destruct (Hc3 _ _ Hin)].
        apply full_import_checkpoint in Hin as [-> ->].
        repeat split; auto.
      * intros s e Hin. exfalso.
        rewrite !elem_of_app in Hin.
        destruct Hin as [Hin | [Hin | Hin]];
          [by destruct (Hst1 _ _ Hin) | | by destruct (Hst3 _ _ Hin)].
        by apply full_import_no_error in Hin.
      * intros Hch. exists h. split.
        { rewrite !elem_of_app. right; left.
          unfold full_import. rewrite !elem_of_cons. auto 10. }
        rewrite Hs3, Hs2, Hs1 in *. destruct (sync_state_exec_ok ops); [done|].
        by destruct Hch.
    + simplify_eq/=.
      destruct (aborted_import_events _ _ Hab) as [Hc2 Hone].
      split; [|split].
      * intros k v Hin. exfalso. rewrite elem_of_app in Hin.
        destruct Hin as [Hin|Hin]; [by destruct (Hc1 _ _ Hin) | by destruct (Hc2 _ _ Hin)].
      * intros s e' Hin. rewrite elem_of_app in Hin.
        destruct Hin as [Hin|Hin]; [by destruct (Hst1 _ _ Hin)|].
        apply Hone in Hin as ->. repeat split; [|congruence].
        intros k v Hin. rewrite elem_of_app in Hin.
        destruct Hin as [Hin|Hin]; [by destruct (Hc1 _ _ Hin) | by destruct (Hc2 _ _ Hin)].
      * intros Hch. exfalso. apply Hch. congruence.
Qed.

End MainProps.

(** The toy instance, run with the checkpoint already at the fingerprint of
    the files. *)
Lemma main_unchanged_runs_no_stage_witness :
  ∃ p' t r,
    main (toy_ops None) false "d" "key"
      (Proc toy_fs [] {[ "imdb_files_hash" := "aaaaaabbbbbbcccccc" ]}) = (p', t, r)
    ∧ Forall quiet t
    ∧ (∀ s err, EvStage s err ∉ t)
    ∧ (∀ k v, EvSetSyncState k v ∉ t)
    ∧ sync_state p' = {[ "imdb_files_hash" := "aaaaaabbbbbbcccccc" ]}
    ∧ (env p' = [] ∨ env p' = tmdbBackfillBatch (toy_ops None) []).
Proof.
  refine (main_unchanged_runs_no_stage (toy_ops None) "d" "key"
            (Proc toy_fs [] {[ "imdb_files_hash" := "aaaaaabbbbbbcccccc" ]})
            (Proc toy_fs [] {[ "imdb_files_hash" := "aaaaaabbbbbbcccccc" ]})
            [EvDownload basicsURL "d/title.basics.tsv.gz";
             EvDownload episodesURL "d/title.episode.tsv.gz";
             EvDownload ratingsURL "d/title.ratings.tsv.gz"]
            "aaaaaabbbbbbcccccc" _ _ _);
    vm_compute; reflexivity.
Defined.

(** The same files against an empty checkpoint table: the four stages run
    and the checkpoint is written last. *)
Example main_first_run :
  (main (toy_ops None) false "d" "" (Proc toy_fs [] ∅)).1.2
  = [EvDownload basicsURL "d/title.basics.tsv.gz";
     EvDownload episodesURL "d/title.episode.tsv.gz";
     EvDownload ratingsURL "d/title.ratings.tsv.gz"]
    ++ full_import "aaaaaabbbbbbcccccc"
  ∧ (main (toy_ops None) false "d" "" (Proc toy_fs [] ∅)).2 = Ok ()
  ∧ env (main (toy_ops None) false "d" "" (Proc toy_fs [] ∅)).1.1
    = [StTitles; StGenres; StEpisodes; StRatings]
  ∧ sync_state (main (toy_ops None) false "d" "" (Proc toy_fs [] ∅)).1.1
      !! "imdb_files_hash" = Some "aaaaaabbbbbbcccccc".
Proof. vm_compute. done. Qed.

(** A store error in the episode stage: the run ends in [log.Fatal], the
    ratings stage does not run and the checkpoint keeps its old value. *)
Example main_episode_stage_fails :
  (main (toy_ops (Some StEpisodes)) false "d" ""
     (Proc toy_fs [] {[ "imdb_files_hash" := "000000000000000000" ]})).1.2
  = [EvDownload basicsURL "d/title.basics.tsv.gz";
     EvDownload episodesURL "d/title.episode.tsv.gz";
     EvDownload ratingsURL "d/title.ratings.tsv.gz";
     EvStage StTitles None; EvStage StGenres None;
     EvStage StEpisodes (Some "episodes")]
  ∧ (main (toy_ops (Some StEpisodes)) false "d" ""
       (Proc toy_fs [] {[ "imdb_files_hash" := "000000000000000000" ]})).2
    = FatalExit "episodes"
  ∧ sync_state (main (toy_ops (Some StEpisodes)) false "d" ""
                  (Proc toy_fs [] {[ "imdb_files_hash" := "000000000000000000" ]})).1.1
      !! "imdb_files_hash" = Some "000000000000000000".
Proof. vm_compute. done. Qed.

(** *** Further properties of [main] and [hashFiles] *)

Lemma string_leb_trans (a b c : string) :
  String.leb a b = true → String.leb b c = true → String.leb a c = true.
Proof.
  unfold String.leb.
  revert b c. induction a as [|x a IH]; intros [|y b] [|z c]; simpl; try done.
  unfold Ascii.compare.
  destruct (N.compare_spec (N_of_ascii x) (N_of_ascii y)) as [Hxy|Hxy|Hxy];
    destruct (N.compare_spec (N_of_ascii y) (N_of_ascii z)) as [Hyz|Hyz|Hyz];
    try done.
  - rewrite Hxy, Hyz, N.compare_refl. apply IH.
  - rewrite Hxy. by rewrite (proj2 (N.compare_lt_iff _ _) Hyz).
  - rewrite <- Hyz. by rewrite (proj2 (N.compare_lt_iff _ _) Hxy).
  - by rewrite (proj2 (N.compare_lt_iff _ _) (N.lt_trans _ _ _ Hxy Hyz)).
Qed.

Lemma insert_sorted_comm (a b : string) (l : list string) :
  Go.insert_sorted a (Go.insert_sorted b l) = Go.insert_sorted b (Go.insert_sorted a l).
Proof.
  induction l as [|y l IH]; simpl.
  - destruct (String.leb a b) eqn:Hab, (String.leb b a) eqn:Hba; try done.
    + by rewrite (String.leb_antisym _ _ Hab Hba).
    + destruct (String.leb_total a b); congruence.
  - destruct (String.leb a y) eqn:Hay, (String.leb b y) eqn:Hby; simpl;
      rewrite ?Hay, ?Hby.
    + destruct (String.leb a b) eqn:Hab, (String.leb b a) eqn:Hba; try done.
      * by rewrite (String.leb_antisym _ _ Hab Hba).
      * destruct (String.leb_total a b); congruence.
    + destruct (String.leb b a) eqn:Hba; [|done].
      by rewrite (string_leb_trans _ _ _ Hba Hay) in Hby.
    + destruct (String.leb a b) eqn:Hab; [|done].
      by rewrite (string_leb_trans _ _ _ Hab Hby) in Hay.
    + by rewrite IH.
Qed.

Lemma sort_Strings_permutation (l1 l2 : list string) :
  l1 ≡ₚ l2 → Go.sort_Strings l1 = Go.sort_Strings l2.
Proof.
  unfold Go.sort_Strings. intros Hp.
  assert (∀ x, Proper ((=) ==> (=)) (Go.insert_sorted x)) as Hpr by (by intros x ?? ->).
  exact (foldr_permutation_proper (=) Go.insert_sorted []
           (λ a1 a2 b, insert_sorted_comm a1 a2 b) l1 l2 Hp).
Qed.

Section MainMore.
Context {FS Env : Type} (ops : Ops FS Env).

(** The fingerprint does not depend on the order in which the paths are
    given: [hashFiles] sorts them before it reads the files. *)
Theorem hashFiles_order_independent (fsys : FS) (paths paths' : list string) :
  paths ≡ₚ paths' → hashFiles ops fsys paths = hashFiles ops fsys paths'.
Proof. intros Hp. unfold hashFiles. by rewrite (sort_Strings_permutation _ _ Hp). Qed.

(** A failed download ends the run in [log.Fatal] with its error: nothing
    is hashed, no stage and no backfill runs, no checkpoint is written, and
    the tables and the checkpoint table are as they were. *)
Theorem main_download_failure_is_fatal force dir key p p1 t1 e :
  download_all ops dir p = (p1, t1, FatalExit e) →
  main ops force dir key p = (p1, t1, FatalExit e)
  ∧ env p1 = env p ∧ sync_state p1 = sync_state p
  ∧ Forall (λ ev, ∃ url dest, ev = EvDownload url dest) t1
  ∧ (1 ≤ length t1 ≤ 3)%nat.
Proof.
  intros Hdl. split; [unfold main, bind; by rewrite Hdl|].
  unfold download_all, bind, download in Hdl.
  repeat (case_match; simplify_eq/=); repeat split; try lia;
    repeat (constructor; [by eexists _, _|]); constructor.
Qed.

(** The backfill scheduler is called in exactly the runs that reach the
    end of the import section with an API key set, and then it is the last
    thing the run does; a run that ended in [log.Fatal] or in a panic never
    called it. *)
Theorem main_backfill_iff force dir key p :
  ∃ p' t r, main ops force dir key p = (p', t, r)
    ∧ (EvBackfill ∈ t ↔ r = Ok () ∧ key ≠ "")
    ∧ (EvBackfill ∈ t → ∃ t0, t = t0 ++ [EvBackfill] ∧ EvBackfill ∉ t0).
Proof.
  destruct (main ops force dir key p) as [[p' t] r] eqn:Hmain.
  exists p', t, r. split; [done|].
  assert (∀ dirp q q' u s, download_all ops dirp q = (q', u, s) → EvBackfill ∉ u) as Hnd.
  { intros dirp q q' u s Hd Hin. unfold download_all, bind, download in Hd.
    repeat (case_match; simplify_eq/=);
      repeat (apply elem_of_cons in Hin as [Hin|Hin]; [done|]); by inversion Hin. }
  assert (∀ q q' u s, import_if_changed ops force dir q = (q', u, s) → EvBackfill ∉ u) as Hni.
  { intros q q' u s Hi.
    destruct (import_if_changed_spec _ _ _ _ _ _ _ Hi)
      as [(_ & _ & -> & _) | [(-> & _) | (h & _ & _ & Hst)]];
      [by intros ?%elem_of_nil | by intros ?%elem_of_nil |].
    destruct (import_stages_spec _ _ _ _ _ _ _ Hst) as [(_ & -> & _) | (e & _ & Hab & _)].
    - unfold full_import. intros Hin.
      repeat (apply elem_of_cons in Hin as [Hin|Hin]; [done|]). by inversion Hin.
    - intros Hin. destruct Hab as [-> | [-> | [-> | ->]]];
        repeat (apply elem_of_cons in Hin as [Hin|Hin]; [done|]); by inversion Hin. }
  unfold main, bind in Hmain.
  destruct (download_all ops dir p) as [[p1 t1] r1] eqn:Hdl.
  specialize (Hnd _ _ _ _ _ Hdl).
  destruct r1 as [[]| |]; simplify_eq/=;
    [|split; [split; [done|by intros [? _]]|done]
     |split; [split; [done|by intros [? _]]|done]].
  destruct (import_if_changed ops force dir p1) as [[p2 t2] r2] eqn:Himp.
  specialize (Hni _ _ _ _ Himp).
  assert (EvBackfill ∉ t1 ++ t2) as Hn12.
  { rewrite elem_of_app. tauto. }
  destruct r2 as [[]| |]; simplify_eq/=;
    [|split; [split; [done|by intros [? _]]|done]
     |split; [split; [done|by intros [? _]]|done]].
  unfold backfill_section, ret in Hmain.
  destruct (String.eqb key "") eqn:Hk; simplify_eq/=.
  - apply String.eqb_eq in Hk. rewrite app_nil_r.
    split; [split; [intros Hin; by destruct Hn12 | by intros [_ ?]]
           | intros Hin; by destruct Hn12].
  - apply String.eqb_neq in Hk. split.
    + split; [done|]. intros _. rewrite !elem_of_app. right; right. apply elem_of_cons. by left.
    + intros _. exists (t1 ++ t2). by rewrite <- app_assoc.
Qed.

End MainMore.

Section MainMore2.
Context {FS Env : Type} (ops : Ops FS Env).

Lemma hashFiles_loop_is_digest fsys sorted written h :
  hashFiles_loop ops fsys sorted written = inl h → ∃ bytes, h = sha256_hex ops bytes.
Proof.
  revert written. induction sorted as [|q qs IH]; simpl; intros written H.
  - simplify_eq. by eexists.
  - destruct (readFile ops fsys q); [by eapply IH|done].
Qed.

Lemma slice_to_None s n : Go.slice_to s n = None ↔ (String.length s < n)%nat.
Proof. unfold Go.slice_to. case_decide; split; intros; try done; lia. Qed.

(** What [main] is after its downloads, read off [import_if_changed]: when
    [-force] is unset and the fingerprint is the stored one, the run goes
    straight to the backfill section. *)
Lemma main_unchanged_spec dir key p p1 t1 h :
  download_all ops dir p = (p1, t1, Ok ()) →
  hashFiles ops (fs p1) (dataset_paths dir) = inl h →
  getSyncState "imdb_files_hash" p1 = h →
  ∃ p' t r, main ops false dir key p = (p', t, r)
    ∧ (∀ s err, EvStage s err ∉ t) ∧ (∀ k v, EvSetSyncState k v ∉ t)
    ∧ sync_state p' = sync_state p1.
Proof.
  intros Hdl Hh Hget.
  destruct (main ops false dir key p) as [[p' t] r] eqn:Hmain.
  exists p', t, r. split; [done|].
  destruct (download_all_spec _ _ _ _ _ _ Hdl) as (_ & _ & Hq1 & _).
  cut (Forall quiet t ∧ sync_state p' = sync_state p1).
  { intros [Hq ?]. destruct (quiet_no_stage_no_checkpoint _ Hq). done. }
  unfold main, bind in Hmain. rewrite Hdl in Hmain.
  destruct (import_if_changed ops false dir p1) as [[p2 t2] r2] eqn:Himp.
  destruct (import_if_changed_spec _ _ _ _ _ _ _ Himp)
    as [(_ & Hs2 & -> & Hr2) | [(-> & -> & -> & _ & _) | (h' & Hh' & Hne & _)]].
  - destruct r2 as [[]| |]; simplify_eq/=; by rewrite ?app_nil_r.
  - destruct (backfill_section ops key p1) as [[p3 t3] r3] eqn:Hbf.
    destruct (backfill_section_spec _ _ _ _ _ _ Hbf) as (Hs3 & Hq3 & -> & _).
    simplify_eq/=. split; [by apply Forall_app|done].
  - rewrite Hh in Hh'. simplify_eq. by destruct Hne.
Qed.

(** The checkpoint a run wrote is the one the next run reads. *)
Lemma main_checkpoint_stored force dir key p p' t r v :
  sync_state_exec_ok ops = true →
  main ops force dir key p = (p', t, r) →
  EvSetSyncState "imdb_files_hash" v ∈ t →
  getSyncState "imdb_files_hash" p' = v.
Proof.
  intros Hok Hmain Hin.
  assert (∀ q q' u s k w, download_all ops dir q = (q', u, s) → EvSetSyncState k w ∉ u)
    as Hnd.
  { intros q q' u s k w Hd Hu. unfold download_all, bind, download in Hd.
    repeat (case_match; simplify_eq/=);
      repeat (apply elem_of_cons in Hu as [Hu|Hu]; [done|]); by inversion Hu. }
  unfold main, bind in Hmain.
  destruct (download_all ops dir p) as [[p1 t1] r1] eqn:Hdl.
  specialize (Hnd _ _ _ _ "imdb_files_hash" v Hdl).
  destruct r1 as [[]| |]; simplify_eq/=; try done.
  destruct (import_if_changed ops force dir p1) as [[p2 t2] r2] eqn:Himp.
  assert (EvSetSyncState "imdb_files_hash" v ∈ t2
          → getSyncState "imdb_files_hash" p2 = v ∧ r2 = Ok ()) as Hchk.
  { intros Hin2.
    destruct (import_if_changed_spec _ _ _ _ _ _ _ Himp)
      as [(_ & _ & -> & _) | [(-> & _) | (h & _ & _ & Hst)]];
      [by apply elem_of_nil in Hin2 | by apply elem_of_nil in Hin2 |].
    destruct (import_stages_spec _ _ _ _ _ _ _ Hst)
      as [(-> & -> & Hs) | (e & _ & Hab & _)].
    - apply full_import_checkpoint in Hin2 as [_ ->].
      unfold getSyncState. rewrite Hs, Hok, lookup_insert_eq. done.
    - destruct (aborted_import_events _ _ Hab) as [Hno _]. by destruct (Hno _ _ Hin2). }
  destruct r2 as [[]| |]; simplify_eq/=.
  - destruct (backfill_section ops key p2) as [[p3 t3] r3] eqn:Hbf.
    destruct (backfill_section_spec _ _ _ _ _ _ Hbf) as (Hs3 & Hq3 & -> & _).
    simplify_eq/=.
    rewrite !elem_of_app in Hin. destruct Hin as [?|[Hin|Hin]]; [done| |].
    + destruct (Hchk Hin) as [<- _]. unfold getSyncState. by rewrite Hs3.
    + rewrite Forall_forall in Hq3. by destruct (Hq3 _ Hin).
  - rewrite elem_of_app in Hin. destruct Hin as [?|Hin]; [done|].
    by destruct (Hchk Hin).
  - rewrite elem_of_app in Hin. destruct Hin as [?|Hin]; [done|].
    by destruct (Hchk Hin).
Qed.

(** A run that imported, followed by a run that finds the same files: the
    second run calls no import stage and writes no checkpoint. The
    checkpoint written by the first run is what makes the second one skip. *)
Theorem main_second_run_imports_nothing force dir key p p' t r v p1 t1 :
  sync_state_exec_ok ops = true →
  main ops force dir key p = (p', t, r) →
  EvSetSyncState "imdb_files_hash" v ∈ t →
  download_all ops dir p' = (p1, t1, Ok ()) →
  hashFiles ops (fs p1) (dataset_paths dir) = inl v →
  ∃ p'' t' r', main ops false dir key p' = (p'', t', r')
    ∧ (∀ s err, EvStage s err ∉ t')
    ∧ (∀ k w, EvSetSyncState k w ∉ t')
    ∧ getSyncState "imdb_files_hash" p'' = v.
Proof.
  intros Hok Hmain Hin Hdl Hh.
  pose proof (main_checkpoint_stored _ _ _ _ _ _ _ _ Hok Hmain Hin) as Hget.
  destruct (download_all_spec _ _ _ _ _ _ Hdl) as (_ & Hs1 & _ & _).
  assert (getSyncState "imdb_files_hash" p1 = v) as Hget1.
  { unfold getSyncState in *. by rewrite Hs1. }
  destruct (main_unchanged_spec dir key p' p1 t1 v Hdl Hh Hget1)
    as (p'' & t' & r' & Hm & Hst & Hck & Hs).
  exists p'', t', r'. repeat split; try done.
  unfold getSyncState in *. by rewrite Hs.
Qed.

Lemma string_length_pos (s : string) : s ≠ "" → (0 < String.length s)%nat.
Proof. destruct s; simpl; [done|lia]. Qed.

(** When [import_if_changed] panics, given a digest of at least 12 bytes. *)
Lemma import_if_changed_panic force dir p p' t r h :
  hashFiles ops (fs p) (dataset_paths dir) = inl h →
  Go.slice_to h 12 ≠ None →
  import_if_changed ops force dir p = (p', t, r) →
  (r = Panic ↔ force = false
               ∧ (0 < String.length (getSyncState "imdb_files_hash" p) < 12)%nat)
  ∧ (r = Panic → t = []).
Proof.
  intros Hh Hh12 H.
  unfold import_if_changed, bind, log_prefix12, ret in H. rewrite Hh in H.
  set (stored := getSyncState "imdb_files_hash" p) in *.
  assert (∀ q q' u s, import_stages ops dir h q = (q', u, s) → s ≠ Panic) as Hst.
  { intros q q' u s Hi.
    destruct (import_stages_spec _ _ _ _ _ _ _ Hi) as [(-> & _) | (e & -> & _)]; done. }
  destruct (import_stages ops dir h p) as [[q u] s] eqn:Hi.
  specialize (Hst _ _ _ _ Hi).
  destruct (Go.slice_to h 12) eqn:Hsh; [|done].
  destruct (String.eqb stored "") eqn:He2;
    [apply String.eqb_eq in He2 | apply String.eqb_neq, string_length_pos in He2];
    (destruct (Go.slice_to stored 12) eqn:Hs;
     [assert (¬ (String.length stored < 12)%nat) as Hlen
        by (rewrite <- slice_to_None; by rewrite Hs)
     |apply slice_to_None in Hs]);
    destruct force, (String.eqb h stored) eqn:He, s as [[]| |];
    simpl in H; rewrite ?Hi in H; simplify_eq/=;
    try done;
    try (by split; [split; [done|intros [? ?]; (done || lia)]|done]);
    try (by split; [split; [done|intros [? ?]; rewrite ?He2 in *; simpl in *; lia]|done]).
  all: apply String.eqb_eq in He; rewrite He in Hsh;
    apply slice_to_None in Hs; congruence.
Qed.


End MainMore2.

Lemma hashFiles_order_independent_witness :
  hashFiles (toy_ops None) toy_fs (reverse (dataset_paths "d"))
  = hashFiles (toy_ops None) toy_fs (dataset_paths "d").
Proof.
  apply (hashFiles_order_independent (toy_ops None) toy_fs).
  apply reverse_Permutation.
Defined.

Lemma main_download_failure_is_fatal_witness :
  main (Samples.sample_ops true) false "d" "key" (Samples.sample_proc ∅)
  = (Samples.sample_proc ∅, [EvDownload basicsURL "d/title.basics.tsv.gz"],
     FatalExit "dial tcp: network is unreachable").
Proof.
  refine (proj1 (main_download_failure_is_fatal (Samples.sample_ops true) false "d" "key"
                   (Samples.sample_proc ∅) _ _ _ _)).
  reflexivity.
Defined.

(** Two runs in a row over the same files: the first imports and writes
    the checkpoint, the second only looks. *)
Lemma main_second_run_imports_nothing_witness :
  ∃ p2 t2 r2, main (Samples.sample_ops false) false "d" "" Samples.imported_proc
              = (p2, t2, r2)
    ∧ (∀ s err, EvStage s err ∉ t2)
    ∧ (∀ k w, EvSetSyncState k w ∉ t2)
    ∧ getSyncState "imdb_files_hash" p2 = "000000000000aaaaaabbbbbbcccccc".
Proof.
  refine (main_second_run_imports_nothing (Samples.sample_ops false) false "d" ""
            (Samples.sample_proc ∅) Samples.imported_proc
            (Samples.sample_downloads
             ++ full_import "000000000000aaaaaabbbbbbcccccc")
            (Ok ()) "000000000000aaaaaabbbbbbcccccc" Samples.imported_proc
            Samples.sample_downloads _ _ _ _ _).
  - reflexivity.
  - vm_compute. reflexivity.
  - apply (bool_decide_unpack _). vm_compute. exact I.
  - vm_compute. reflexivity.
  - vm_compute. reflexivity.
Defined.


End SyncMainProps.

Module SyncEpisodesProps.
Import SyncEpisodes.
Local Open Scope Z_scope.

Section ScanProps.
Context (showCache : gmap string Z)
        (existingSeasons : gmap seasonKey Z)
        (existingEpisodes : gmap episodeKey ExistingEpisode)
        (episodeTitles : gmap string string).

Local Abbreviation scan_line :=
  (scan_line showCache existingSeasons existingEpisodes episodeTitles).
Local Abbreviation scan :=
  (scan showCache existingSeasons existingEpisodes episodeTitles).
Local Abbreviation update_justified :=
  (update_justified existingEpisodes episodeTitles).

(** The branch a line takes does not depend on the counters. *)
Lemma scan_line_count_skipped st line :
  scan_line (count_skipped st) line = count_skipped (scan_line st line).
Proof.
  unfold SyncEpisodes.scan_line, count_skipped.
  repeat case_match; reflexivity.
Qed.

Lemma foldl_count_skipped lines st :
  foldl scan_line (count_skipped st) lines = count_skipped (foldl scan_line st lines).
Proof.
  revert st. induction lines as [|l lines IH]; intros st; simpl; [done|].
  by rewrite scan_line_count_skipped, IH.
Qed.

Lemma scan_line_null st line seasonStr episodeStr :
  season_episode_fields line = Some (seasonStr, episodeStr) →
  seasonStr = "\N" ∨ episodeStr = "\N" →
  scan_line st line = count_skipped st.
Proof.
  unfold season_episode_fields, SyncEpisodes.scan_line. intros Hf Hnull.
  repeat case_match; simplify_eq; try done.
  all: destruct Hnull as [-> | ->]; simpl in *;
    rewrite ?orb_true_r in *; done.
Qed.

Lemma scan_line_unparseable st line seasonStr episodeStr :
  season_episode_fields line = Some (seasonStr, episodeStr) →
  seasonStr ≠ "\N" → episodeStr ≠ "\N" →
  Go.Atoi seasonStr = None ∨ Go.Atoi episodeStr = None →
  scan_line st line = st.
Proof.
  unfold season_episode_fields, SyncEpisodes.scan_line. intros Hf Hs He Hbad.
  repeat case_match; simplify_eq; try done.
  all: try (destruct Hbad; congruence).
  all: match goal with
       | H : _ || _ = true |- _ =>
           apply orb_true_iff in H as [H|H]; apply String.eqb_eq in H; done
       end.
Qed.

Lemma scan_line_updates st line :
  Forall update_justified (toUpdate st) →
  Forall update_justified (toUpdate (scan_line st line)).
Proof.
  intros Hst. unfold SyncEpisodes.scan_line.
  repeat case_match; simplify_eq/=; try done.
  apply Forall_app. split; [done|]. constructor; [|constructor].
  match goal with H : _ && _ = true |- _ => apply andb_true_iff in H as [Hne Hdiff] end.
  apply negb_true_iff in Hne, Hdiff.
  apply String.eqb_neq in Hne, Hdiff.
  split; simpl; [done|].
  match goal with
  | H : existingEpisodes !! ?k = Some ?ex, Ht : context [episodeTitles !! ?i] |- _ =>
      exists k, ex, i
  end.
  repeat split; try done.
  destruct (episodeTitles !! _) eqn:Ht; simpl in *; [done|].
  by destruct Hne.
Qed.

Lemma scan_updates_justified lines : Forall update_justified (toUpdate (scan lines)).
Proof.
  unfold SyncEpisodes.scan.
  assert (∀ st, Forall update_justified (toUpdate st) →
                Forall update_justified (toUpdate (foldl scan_line st lines))) as H.
  { induction lines as [|l lines IH]; intros st Hst; simpl; [done|].
    apply IH. by apply scan_line_updates. }
  apply H. constructor.
Qed.

Lemma scan_app l1 l2 : scan (l1 ++ l2) = foldl scan_line (scan l1) l2.
Proof. unfold SyncEpisodes.scan. by rewrite foldl_app. Qed.

Lemma scan_drops_null_line l1 l2 line seasonStr episodeStr :
  season_episode_fields line = Some (seasonStr, episodeStr) →
  seasonStr = "\N" ∨ episodeStr = "\N" →
  scan (l1 ++ line :: l2) = count_skipped (scan (l1 ++ l2)).
Proof.
  intros Hf Hnull. rewrite !scan_app. simpl.
  rewrite (scan_line_null _ _ _ _ Hf Hnull). apply foldl_count_skipped.
Qed.

Lemma scan_drops_unparseable_line l1 l2 line seasonStr episodeStr :
  season_episode_fields line = Some (seasonStr, episodeStr) →
  seasonStr ≠ "\N" → episodeStr ≠ "\N" →
  Go.Atoi seasonStr = None ∨ Go.Atoi episodeStr = None →
  scan (l1 ++ line :: l2) = scan (l1 ++ l2).
Proof.
  intros Hf Hs He Hbad. rewrite !scan_app. simpl.
  by rewrite (scan_line_unparseable _ _ _ _ Hf Hs He Hbad).
Qed.

End ScanProps.

(** *** The statements of the tail of [syncEpisodes] *)

Lemma load_existingEpisodes_lookup (tbl : gmap Z EpisodeRow) key existing :
  load_existingEpisodes tbl !! key = Some existing →
  ∃ row, tbl !! ID existing = Some row
    ∧ key_of row = key
    ∧ DisplayName existing = default "" (display_name row).
Proof.
  unfold load_existingEpisodes. intros H.
  apply elem_of_list_to_map_2 in H.
  apply list_elem_of_fmap in H as ([id row] & Heq & Hin).
  apply elem_of_map_to_list in Hin. simplify_eq/=. eauto.
Qed.

Lemma batches_fuel_elem {A} fuel n (l : list A) b x :
  b ∈ batches_fuel fuel n l → x ∈ b → x ∈ l.
Proof.
  revert l. induction fuel as [|fuel IH]; intros l Hb Hx.
  - destruct l; simpl in Hb; by inversion Hb.
  - destruct l as [|a l]; simpl in Hb; [by inversion Hb|].
    rewrite <- (take_drop n (a :: l)). apply elem_of_app.
    apply elem_of_cons in Hb as [-> | Hb]; [by left | right].
    by eapply IH.
Qed.

Lemma batches_elem {A} n (l : list A) b x : b ∈ batches n l → x ∈ b → x ∈ l.
Proof. apply batches_fuel_elem. Qed.

Lemma rows_kept_refl updates d : rows_kept_or_renamed updates d d.
Proof. intros id row H. exists row. unfold row_kept_or_renamed. auto. Qed.

Lemma rows_kept_trans updates d1 d2 d3 :
  rows_kept_or_renamed updates d1 d2 →
  rows_kept_or_renamed updates d2 d3 →
  rows_kept_or_renamed updates d1 d3.
Proof.
  intros H12 H23 id row H.
  destruct (H12 _ _ H) as (row2 & H2 & Hs2 & He2 & Hn2).
  destruct (H23 _ _ H2) as (row3 & H3 & Hs3 & He3 & Hn3).
  exists row3. split; [done|]. unfold row_kept_or_renamed.
  repeat split; [congruence | congruence |].
  destruct Hn3 as [Hn3 | Hn3]; [|by right].
  destruct Hn2 as [Hn2 | Hn2]; [left; congruence|].
  right. destruct Hn2 as (u & ? & ? & ?). exists u. repeat split; congruence.
Qed.

Lemma insert_rows_keeps updates rows d d' :
  insert_rows rows d = Some d' → rows_kept_or_renamed updates d d'.
Proof.
  revert d. induction rows as [|r rows IH]; intros d H; simpl in H.
  - simplify_eq. apply rows_kept_refl.
  - repeat case_match; simplify_eq.
    eapply rows_kept_trans; [|by apply IH].
    intros id row Hrow. exists row. simpl.
    split; [|unfold row_kept_or_renamed; auto].
    rewrite lookup_insert_ne; [done|]. intros <-. congruence.
Qed.

Lemma case_when_elem batch id n :
  case_when batch id = Some n → ∃ u, u ∈ batch ∧ upd_ID u = id ∧ upd_DisplayName u = n.
Proof.
  induction batch as [|u batch IH]; simpl; [done|].
  case_decide; intros Hc.
  - simplify_eq. exists u. split; [left|done].
  - destruct (IH Hc) as (u' & ? & ? & ?). exists u'. split; [by right|done].
Qed.

Lemma exec_update_keeps updates batch d d' :
  (∀ u, u ∈ batch → u ∈ updates) →
  exec_update batch d = Some d' → rows_kept_or_renamed updates d d'.
Proof.
  intros Hsub H. unfold exec_update in H.
  destruct batch as [|u0 batch0]; [done|]. simplify_eq.
  intros id row Hrow. cbn -[case_when]. rewrite map_lookup_imap, Hrow.
  cbn -[case_when].
  destruct (case_when (u0 :: batch0) id) as [n|] eqn:Hcase.
  - eexists. split; [done|]. unfold row_kept_or_renamed. cbn -[case_when].
    split; [done|]. split; [done|]. right.
    apply case_when_elem in Hcase as (u & Hin & Hid & Hn).
    exists u. repeat split; [by apply Hsub | done | congruence].
  - exists row. split; [done|]. unfold row_kept_or_renamed. auto.
Qed.

Lemma exec_batches_keeps {A} updates (exec : list A → db → option db) err bs d d' e :
  (∀ b d1 d2, b ∈ bs → exec b d1 = Some d2 → rows_kept_or_renamed updates d1 d2) →
  exec_batches exec err bs d = (d', e) → rows_kept_or_renamed updates d d'.
Proof.
  revert d. induction bs as [|b bs IH]; intros d Hexec H; simpl in H.
  - simplify_eq. apply rows_kept_refl.
  - destruct (exec b d) as [d1|] eqn:Hb.
    + eapply rows_kept_trans.
      * eapply Hexec; [left|done].
      * apply IH; [|done]. intros. eapply Hexec; [by right|done].
    + simplify_eq. apply rows_kept_refl.
Qed.


(** C7, as the code has it. Take a line with at least four fields, anywhere
    after the header. If its season or its episode field is the null
    placeholder, the second pass ends as it does without the line, except
    that [skipped] is one higher. If neither is the placeholder and one of
    them is rejected by [strconv.Atoi], the pass ends exactly as it does
    without the line: nothing is queued for it and no counter moves. In both
    cases the lines after it are processed as usual, and the store and the
    error [syncEpisodes] returns are those of the file without the line. *)
Theorem syncEpisodes_skips_null_and_unparseable
    showCache existingSeasons existingEpisodes episodeTitles
    l1 l2 line seasonStr episodeStr :
  season_episode_fields line = Some (seasonStr, episodeStr) →
  (seasonStr = "\N" ∨ episodeStr = "\N" →
     scan showCache existingSeasons existingEpisodes episodeTitles (l1 ++ line :: l2)
     = count_skipped
         (scan showCache existingSeasons existingEpisodes episodeTitles (l1 ++ l2)))
  ∧ (seasonStr ≠ "\N" → episodeStr ≠ "\N" →
     Go.Atoi seasonStr = None ∨ Go.Atoi episodeStr = None →
     scan showCache existingSeasons existingEpisodes episodeTitles (l1 ++ line :: l2)
     = scan showCache existingSeasons existingEpisodes episodeTitles (l1 ++ l2))
  ∧ (seasonStr = "\N" ∨ episodeStr = "\N"
     ∨ Go.Atoi seasonStr = None ∨ Go.Atoi episodeStr = None →
     ∀ batchSize header d,
       syncEpisodes_pass2 batchSize showCache existingSeasons episodeTitles
         (header :: l1 ++ line :: l2) d
       = syncEpisodes_pass2 batchSize showCache existingSeasons episodeTitles
           (header :: l1 ++ l2) d).
Proof.
  intros Hf. split; [|split].
  - by apply scan_drops_null_line.
  - by apply scan_drops_unparseable_line.
  - intros Hbad batchSize header d. unfold syncEpisodes_pass2. simpl.
    destruct (decide (seasonStr = "\N" ∨ episodeStr = "\N")) as [Hnull | Hnn].
    + by rewrite (scan_drops_null_line _ _ _ _ _ _ _ _ _ Hf Hnull).
    + rewrite (scan_drops_unparseable_line _ _ _ _ _ _ _ _ _ Hf); [done | | |].
      * intros ->. apply Hnn. by left.
      * intros ->. apply Hnn. by right.
      * destruct Hbad as [? | [? | Hbad]]; [destruct Hnn; auto .. | done].
Qed.

(** A file of two lines after the header: an episode of a known show, then a
    line without a season. *)
Lemma syncEpisodes_skips_null_and_unparseable_witness :
  scan {[ "tt1" := 10 ]} {[ (10, 1) := 100 ]} ∅ {[ "tt2" := "Pilot" ]}
    ([Go.join_tab ["tt2"; "tt1"; "1"; "1"]]
       ++ Go.join_tab ["tt3"; "tt1"; "\N"; "2"] :: [])
  = count_skipped
      (scan {[ "tt1" := 10 ]} {[ (10, 1) := 100 ]} ∅ {[ "tt2" := "Pilot" ]}
         ([Go.join_tab ["tt2"; "tt1"; "1"; "1"]] ++ [])).
Proof.
  refine (proj1 (syncEpisodes_skips_null_and_unparseable _ _ _ _ _ _
                   (Go.join_tab ["tt3"; "tt1"; "\N"; "2"]) "\N" "2" _) _).
  - reflexivity.
  - left; reflexivity.
Defined.

(** C7 as stated fails: a line whose season is not the placeholder and is no
    number is not counted in [skipped]. *)
Lemma unparseable_line_is_not_counted :
  ¬ (∀ (st : scan_state) (line seasonStr episodeStr : string),
       season_episode_fields line = Some (seasonStr, episodeStr) →
       seasonStr = "\N" ∨ episodeStr = "\N"
       ∨ Go.Atoi seasonStr = None ∨ Go.Atoi episodeStr = None →
       skipped (scan_line ∅ ∅ ∅ ∅ st line) = skipped st + 1).
Proof.
  intros H.
  specialize (H scan_init (Go.join_tab ["tt3"; "tt1"; "one"; "2"]) "one" "2").
  discriminate H; [reflexivity | right; right; left; reflexivity].
Qed.

(** The same line, run: the pass ends with every counter at zero. *)
Example unparseable_line_scan :
  Go.Atoi "one" = None
  ∧ scan ∅ ∅ ∅ ∅ [Go.join_tab ["tt3"; "tt1"; "one"; "2"]] = scan_init.
Proof. split; reflexivity. Qed.


(** What the three kinds of dataset title do to the stored name "Pilot": a
    different title replaces it, the same title and a missing title leave
    it. *)
Example run_one_line_renames :
  display_name <$> (show_episodes (run_one_line "The Pilot").1 !! 7) = Some (Some "The Pilot")
  ∧ display_name <$> (show_episodes (run_one_line "Pilot").1 !! 7) = Some (Some "Pilot")
  ∧ display_name <$> (show_episodes (run_one_line "").1 !! 7) = Some (Some "Pilot").
Proof. repeat split; vm_compute; reflexivity. Qed.

(** *** More on the second pass *)

Section ScanMore.
Context (showCache : gmap string Z)
        (existingSeasons : gmap seasonKey Z)
        (existingEpisodes : gmap episodeKey ExistingEpisode)
        (episodeTitles : gmap string string).

Local Abbreviation scan_line :=
  (scan_line showCache existingSeasons existingEpisodes episodeTitles).
Local Abbreviation scan := (scan showCache existingSeasons existingEpisodes episodeTitles).

(** The second pass accounts for every scanned line once, and what it
    queues for INSERT is new: each scanned line is counted unchanged or
    queued in exactly one of the two lists; every queued insert is for a
    (season, episode) pair that was not among the loaded episodes, in a
    season whose id was looked up, and carries NULL rather than an empty
    name. *)
Theorem syncEpisodes_scan_inserts_are_new lines :
  let st := scan lines in
  scanned st
  = unchanged st + Z.of_nat (length (toInsert st)) + Z.of_nat (length (toUpdate st))
  ∧ ∀ ins, ins ∈ toInsert st →
      existingEpisodes !! (ins_SeasonID ins, ins_Episode ins) = None
      ∧ (∃ k, existingSeasons !! k = Some (ins_SeasonID ins))
      ∧ ins_DisplayName ins ≠ Some "".
Proof.
  induction lines as [|line lines IH] using rev_ind.
  { split; [done|]. intros ins Hin. by apply elem_of_nil in Hin. }
  cbv zeta in *. rewrite scan_app. cbn [foldl].
  set (st := scan lines) in *. destruct IH as [IHc IHi].
  unfold SyncEpisodes.scan_line.
  destruct (Go.Split line Go.tab) as [|f0 [|f1 [|f2 [|f3 fs]]]]; try done.
  destruct (String.eqb f2 "\N" || String.eqb f3 "\N"); [done|].
  destruct (Go.Atoi f2) as [season|]; [|done].
  destruct (Go.Atoi f3) as [episode|]; [|done].
  destruct (showCache !! f1) as [showID|]; [|done].
  destruct (existingSeasons !! (showID, season)) as [seasonID|] eqn:Hseason; [|done].
  destruct (existingEpisodes !! (seasonID, episode)) as [existing|] eqn:Hex.
  { destruct (negb _ && negb _); simpl; rewrite ?length_app; simpl; (split; [lia|done]). }
  simpl. rewrite length_app. simpl. split; [lia|].
  intros ins Hin. apply elem_of_app in Hin as [Hin|Hin]; [by apply IHi|].
  apply elem_of_cons in Hin as [->|Hin]; [|by apply elem_of_nil in Hin]. simpl.
  split; [done|]. split; [by eexists|].
  destruct (String.eqb (default "" (episodeTitles !! f0)) "") eqn:He; [done|].
  apply String.eqb_neq in He. congruence.
Qed.

End ScanMore.

End SyncEpisodesProps.

Module SyncRatingsProps.
Import SyncRatings.
Local Open Scope Z_scope.

Section ScanProps.
Context (ParseFloat : string → option spec_float)
        (batchSize : Z)
        (existingRatings : gmap string ExistingRating).

Local Abbreviation scan_line := (scan_line ParseFloat batchSize existingRatings).
Local Abbreviation scan_lines := (scan_lines ParseFloat batchSize existingRatings).
Local Abbreviation scan_and_flush := (scan_and_flush ParseFloat batchSize existingRatings).

Lemma flush_count_unchanged st :
  flush (count_unchanged st) = (count_unchanged (flush st).1, (flush st).2).
Proof.
  unfold flush, count_unchanged. simpl.
  destruct (updateRatingsBatch (batch st) (titles st)) as [[tbl n] [e|]]; reflexivity.
Qed.

Lemma scan_line_count_unchanged st line :
  scan_line (count_unchanged st) line
  = (count_unchanged (scan_line st line).1, (scan_line st line).2).
Proof.
  unfold SyncRatings.scan_line.
  destruct (rating_fields line) as [[[imdbID ratingStr] votesStr]|]; [|done].
  destruct (ParseFloat ratingStr) as [avg|]; [|done].
  destruct (Go.Atoi votesStr) as [votes|]; [|done].
  destruct (is_unchanged existingRatings imdbID votes avg); [done|].
  cbn [batch count_unchanged]. case_decide; [|done].
  match goal with |- flush ?a = (count_unchanged (flush ?b).1, _) =>
    change a with (count_unchanged b) end.
  apply flush_count_unchanged.
Qed.

Lemma scan_lines_count_unchanged lines st :
  scan_lines lines (count_unchanged st)
  = (count_unchanged (scan_lines lines st).1, (scan_lines lines st).2).
Proof.
  revert st. induction lines as [|l lines IH]; intros st; simpl; [done|].
  rewrite scan_line_count_unchanged.
  destruct (scan_line st l) as [st1 [e|]]; simpl; [done|]. apply IH.
Qed.

Lemma scan_lines_app l1 l2 st :
  scan_lines (l1 ++ l2) st
  = match scan_lines l1 st with
    | (st1, Some e) => (st1, Some e)
    | (st1, None) => scan_lines l2 st1
    end.
Proof.
  revert st. induction l1 as [|l l1 IH]; intros st; simpl; [done|].
  destruct (scan_line st l) as [st1 [e|]]; [done|]. apply IH.
Qed.

Lemma scan_line_unchanged st line imdbID ratingStr votesStr averageRating numVotes existing :
  rating_fields line = Some (imdbID, ratingStr, votesStr) →
  ParseFloat ratingStr = Some averageRating →
  Go.Atoi votesStr = Some numVotes →
  existingRatings !! imdbID = Some existing →
  ex_NumVotes existing = numVotes →
  Float.eqb (ex_AverageRating existing)
            (Float.to_float64 (Float.to_float32 averageRating)) = true →
  scan_line st line = (count_unchanged st, None).
Proof.
  intros Hf Hr Hv Hex Hvotes Hrating.
  unfold SyncRatings.scan_line, is_unchanged.
  rewrite Hf, Hr, Hv, Hex, Hrating, bool_decide_eq_true_2; done.
Qed.

(** C8. Take a line of the ratings file whose title is in the map loaded
    from the store, whose vote count equals the stored one and whose rating,
    converted to [float32] and back, equals the stored rating under Go's
    [==]. Then the line is classified unchanged: it moves the counters
    [scanned] and [unchanged] and nothing else; no record is queued for it.
    And wherever the line stands in the file, the run issues the same UPDATE
    statements with the same records, leaves the same table, the same
    [updated] count and the same error as the run on the file without the
    line. *)
Theorem syncRatings_unchanged_row_issues_no_update
    st l1 l2 line imdbID ratingStr votesStr averageRating numVotes existing :
  rating_fields line = Some (imdbID, ratingStr, votesStr) →
  ParseFloat ratingStr = Some averageRating →
  Go.Atoi votesStr = Some numVotes →
  existingRatings !! imdbID = Some existing →
  ex_NumVotes existing = numVotes →
  Float.eqb (ex_AverageRating existing)
            (Float.to_float64 (Float.to_float32 averageRating)) = true →
  scan_line st line = (count_unchanged st, None)
  ∧ effects (scan_and_flush (l1 ++ line :: l2) st)
    = effects (scan_and_flush (l1 ++ l2) st).
Proof.
  intros Hf Hr Hv Hex Hvotes Hrating.
  pose proof (λ st, scan_line_unchanged st _ _ _ _ _ _ _ Hf Hr Hv Hex Hvotes Hrating)
    as Hline.
  split; [apply Hline|].
  unfold SyncRatings.scan_and_flush. rewrite !scan_lines_app.
  destruct (scan_lines l1 st) as [st1 [e|]]; [done|].
  simpl. rewrite Hline, scan_lines_count_unchanged.
  destruct (scan_lines l2 st1) as [st2 [e|]]; simpl; [done|].
  destruct (batch st2) eqn:Hb; [done|].
  rewrite flush_count_unchanged. unfold effects. simpl. done.
Qed.

End ScanProps.

(** The stored rating 7.3 of 500 votes and a file that says 7.3 and 500:
    the decimal 7.3 as a [float64] is not the stored [real], the comparison
    at single precision finds them equal, and no statement is issued. *)
Lemma syncRatings_unchanged_row_issues_no_update_witness :
  scan_line toy_ParseFloat 5000 (load_existingRatings one_title) (start one_title)
    (Go.join_tab ["tt01"; "7.3"; "500"])
  = (count_unchanged (start one_title), None)
  ∧ effects (scan_and_flush toy_ParseFloat 5000 (load_existingRatings one_title)
               ([] ++ Go.join_tab ["tt01"; "7.3"; "500"] :: []) (start one_title))
    = effects (scan_and_flush toy_ParseFloat 5000 (load_existingRatings one_title)
                 ([] ++ []) (start one_title)).
Proof.
  refine (syncRatings_unchanged_row_issues_no_update toy_ParseFloat 5000
            (load_existingRatings one_title) (start one_title) [] []
            (Go.join_tab ["tt01"; "7.3"; "500"]) "tt01" "7.3" "500"
            (Float.of_decimal 73 1) 500
            {| ex_NumVotes := 500;
               ex_AverageRating := Float.to_float64 (Float.to_float32 (Float.of_decimal 73 1)) |}
            _ _ _ _ _ _); vm_compute; reflexivity.
Defined.

(** The same file, run: nothing issued, one line scanned, one unchanged. *)
Example syncRatings_same_rating :
  Float.eqb (Float.of_decimal 73 1)
            (Float.to_float64 (Float.to_float32 (Float.of_decimal 73 1))) = false
  ∧ ∃ st, syncRatings toy_ParseFloat 5000
            [Go.join_tab ["tconst"; "averageRating"; "numVotes"];
             Go.join_tab ["tt01"; "7.3"; "500"]] one_title = (st, None)
      ∧ issued st = [] ∧ batch st = [] ∧ scanned st = 1 ∧ unchanged st = 1
      ∧ updated st = 0.
Proof. split; [reflexivity|]. eexists. split; [vm_compute; reflexivity|]. done. Qed.

(** A changed rating: one statement with one record, one row affected, and
    a second run on the new table issues nothing. *)
Example syncRatings_changed_rating :
  ∃ st st2,
    syncRatings toy_ParseFloat 5000
      [Go.join_tab ["tconst"; "averageRating"; "numVotes"];
       Go.join_tab ["tt01"; "8.1"; "500"]] one_title = (st, None)
    ∧ issued st = [[{| ImdbID := "tt01"; NumVotes := 500;
                       AverageRating := Float.of_decimal 81 1 |}]]
    ∧ updated st = 1
    ∧ syncRatings toy_ParseFloat 5000
        [Go.join_tab ["tconst"; "averageRating"; "numVotes"];
         Go.join_tab ["tt01"; "8.1"; "500"]] (titles st) = (st2, None)
    ∧ issued st2 = [].
Proof.
  eexists _, _. split; [vm_compute; reflexivity|].
  split; [reflexivity|]. split; [reflexivity|].
  split; [vm_compute; reflexivity|]. reflexivity.
Qed.

(** *** [updateRatingsBatch] and the flushes of [syncRatings] *)

Lemma rating_case_when_elem records id r :
  case_when records id = Some r → r ∈ records ∧ ImdbID r = id.
Proof.
  induction records as [|r0 rs IH]; simpl; [done|].
  case_decide as Hd.
  - intros ?; simplify_eq. split; [apply elem_of_cons; by left|done].
  - intros H. destruct (IH H). split; [apply elem_of_cons; by right|done].
Qed.

Lemma rating_case_when_None records id :
  (∀ r, r ∈ records → ImdbID r ≠ id) → case_when records id = None.
Proof.
  induction records as [|r0 rs IH]; simpl; [done|]. intros H.
  rewrite decide_False by (apply H, elem_of_cons; by left).
  apply IH. intros r Hr. apply H, elem_of_cons. by right.
Qed.

(** The UPDATE of [updateRatingsBatch] only rewrites rows it names. It adds
    and removes no row; a row whose [imdb_id] is in none of the records is
    left as it is (so the ratings of titles the store does not hold change
    nothing); the count it returns is at most the number of rows; and when
    the statement fails the table is untouched and the count is 0. *)
Theorem updateRatingsBatch_frame records tbl :
  let '(tbl', n, err) := updateRatingsBatch records tbl in
  (∀ id, is_Some (tbl' !! id) ↔ is_Some (tbl !! id))
  ∧ (∀ id, (∀ r, r ∈ records → ImdbID r ≠ id) → tbl' !! id = tbl !! id)
  ∧ 0 ≤ n ≤ Z.of_nat (size tbl)
  ∧ (err ≠ None → tbl' = tbl ∧ n = 0).
Proof.
  unfold updateRatingsBatch.
  destruct records as [|r0 rs]; [repeat split; (done || lia)|].
  destruct (casts_ok (r0 :: rs)); [|repeat split; (done || lia)].
  set (records := r0 :: rs). split; [|split; [|split]].
  - intros id. rewrite map_lookup_imap. destruct (tbl !! id); simpl; [|done].
    split; intros _; by eexists.
  - intros id Hno. rewrite map_lookup_imap, (rating_case_when_None _ _ Hno).
    by destruct (tbl !! id).
  - split; [lia|]. apply inj_le.
    apply map_subseteq_size, map_filter_subseteq.
  - done.
Qed.

Lemma SFeqb_refl (z : spec_float) : z ≠ S754_nan → SFeqb z z = true.
Proof.
  unfold SFeqb, SFcompare. destruct z as [s|s| |s m e]; intros Hz.
  - done.
  - by destruct s.
  - done.
  - destruct s; by rewrite Z.compare_refl, Pos.compare_cont_refl.
Qed.

Lemma cast_real_to_float32 x y : Float.cast_real x = Some y → y = Float.to_float32 x.
Proof.
  unfold Float.cast_real. destruct x as [s|s| |s m e]; try (by intros ?; simplify_eq).
  destruct (Float.to_float32 (S754_finite s m e)); by intros ?; simplify_eq.
Qed.


Section FlushProps.
Context (ParseFloat : string → option spec_float)
        (batchSize : Z)
        (existingRatings : gmap string ExistingRating).

Lemma flush_accounted st st' :
  accounted st → batch st ≠ [] → flush st = (st', None) →
  accounted st' ∧ batch st' = [].
Proof.
  unfold flush, accounted. intros [Hc Hi] Hne H.
  destruct (updateRatingsBatch (batch st) (titles st)) as [[tbl n] [e|]]; [done|].
  simplify_eq. simpl. split; [|done]. split.
  - rewrite concat_app, length_app. simpl. rewrite app_nil_r. lia.
  - apply Forall_app. split; [done|]. by constructor.
Qed.

Lemma scan_line_accounted st st' line :
  accounted st →
  SyncRatings.scan_line ParseFloat batchSize existingRatings st line = (st', None) →
  accounted st'.
Proof.
  unfold SyncRatings.scan_line. intros Hacc H.
  destruct (rating_fields line) as [[[imdbID ratingStr] votesStr]|]; [|by simplify_eq].
  destruct (ParseFloat ratingStr) as [avg|]; [|by simplify_eq].
  destruct (Go.Atoi votesStr) as [votes|]; [|by simplify_eq].
  destruct (is_unchanged existingRatings imdbID votes avg).
  { simplify_eq. destruct Hacc as [Hc Hi]. split; [simpl; lia|done]. }
  match type of H with
  | (if _ then flush ?s else _) = _ => set (st1 := s) in *
  end.
  assert (accounted st1) as Hacc1.
  { destruct Hacc as [Hc Hi]. split; [|done]. simpl. rewrite length_app. simpl. lia. }
  case_decide; [|by simplify_eq].
  eapply flush_accounted; [done| |done].
  simpl. by destruct (batch st).
Qed.

Lemma scan_lines_accounted lines st st' :
  accounted st →
  SyncRatings.scan_lines ParseFloat batchSize existingRatings lines st = (st', None) →
  accounted st'.
Proof.
  revert st. induction lines as [|l lines IH]; intros st Hacc H; simpl in H.
  - by simplify_eq.
  - destruct (SyncRatings.scan_line ParseFloat batchSize existingRatings st l)
      as [st1 [e|]] eqn:Hl; [done|].
    eapply IH; [|done]. by eapply scan_line_accounted.
Qed.

End FlushProps.

(** A run of [syncRatings] that returns no error leaves nothing behind in
    its batch: every line it scanned was counted unchanged or its record
    was handed to exactly one UPDATE statement, and no statement was issued
    for an empty batch. *)
Theorem syncRatings_flushes_every_record ParseFloat batchSize file tbl st :
  SyncRatings.syncRatings ParseFloat batchSize file tbl = (st, None) →
  batch st = []
  ∧ scanned st = unchanged st + Z.of_nat (length (concat (issued st)))
  ∧ Forall (λ b, b ≠ []) (issued st).
Proof.
  unfold SyncRatings.syncRatings, scan_and_flush. intros H.
  destruct (SyncRatings.scan_lines ParseFloat batchSize (load_existingRatings tbl)
              (tail file) (start tbl)) as [st1 [e|]] eqn:Hscan; [done|].
  assert (accounted st1) as Hacc.
  { apply (scan_lines_accounted ParseFloat batchSize (load_existingRatings tbl)
             (tail file) (start tbl) st1); [|exact Hscan].
    split; [done|constructor]. }
  destruct (batch st1) as [|r0 rs] eqn:Hb.
  - simplify_eq. destruct Hacc as [Hc Hi]. rewrite Hb in Hc. simpl in Hc.
    split; [done|]. split; [lia|done].
  - destruct (flush_accounted st1 st Hacc) as [[Hc Hi] Hnil]; [by rewrite Hb|exact H|].
    rewrite Hnil in Hc. simpl in Hc. split; [done|]. split; [lia|done].
Qed.


Lemma syncRatings_flushes_every_record_witness :
  let st := (syncRatings toy_ParseFloat 5000 Samples.sample_ratings_file one_title).1 in
  batch st = []
  ∧ scanned st = unchanged st + Z.of_nat (length (concat (issued st)))
  ∧ Forall (λ b, b ≠ []) (issued st).
Proof.
  apply (syncRatings_flushes_every_record toy_ParseFloat 5000 Samples.sample_ratings_file one_title).
  vm_compute. reflexivity.
Defined.

(** The same run: both records go into one statement, which changes the
    one row the store has; the second run finds that row unchanged and
    sends only the record of the title the store does not hold. *)
Example syncRatings_two_runs :
  let run1 := (syncRatings toy_ParseFloat 5000 Samples.sample_ratings_file one_title).1 in
  let run2 := (syncRatings toy_ParseFloat 5000 Samples.sample_ratings_file (titles run1)).1 in
  (ImdbID <$> concat (issued run1), updated run1, unchanged run1)
  = (["tt01"; "tt99"], 1, 0)
  ∧ (ImdbID <$> concat (issued run2), updated run2, unchanged run2)
    = (["tt99"], 0, 1).
Proof. vm_compute. done. Qed.

End SyncRatingsProps.

Module BackfillProps.
Import Store TMDB Backfill.
Local Open Scope Z_scope.

Lemma page_elem (tbl : gmap Z TitleRow) x :
  x ∈ page tbl → still_flagged (ID x) tbl.
Proof.
  unfold page. intros Hx.
  apply list_elem_of_fmap in Hx as ([id row] & -> & Hin).
  apply subseteq_take in Hin.
  rewrite merge_sort_Permutation in Hin.
  apply list_elem_of_filter in Hin as [Hfl Hin].
  apply elem_of_map_to_list in Hin.
  exists row. done.
Qed.

Lemma exec_clear_flag_lookup id (tbl : gmap Z TitleRow) row :
  tbl !! id = Some row → exec_clear_flag id tbl = <[id := clear_flag row]> tbl.
Proof. intros H. unfold exec_clear_flag, update_by_id. by rewrite H. Qed.

Lemma cleared_not_flagged id (tbl : gmap Z TitleRow) row :
  ¬ still_flagged id (<[id := clear_flag row]> tbl).
Proof.
  intros (row' & Hl & Hf). rewrite lookup_insert_eq in Hl. simplify_eq.
  unfold flagged, clear_flag in Hf. simpl in Hf. done.
Qed.

Section RowProps.
Context (sql : Sql) (int_of_float64 : spec_float → Z) (api : Api).

(** What [process_row] does to the table, by outcome. *)
Lemma process_row_titles st r row :
  titles st !! ID r = Some row →
  match outcome api r (calls st) with
  | DetailThrottled =>
      titles (process_row sql int_of_float64 api st r) = titles st
      ∧ sleeps (process_row sql int_of_float64 api st r) = S (sleeps st)
  | DetailSuccess _ => True
  | _ =>
      titles (process_row sql int_of_float64 api st r)
      = <[ID r := clear_flag row]> (titles st)
  end.
Proof.
  intros Hrow. unfold outcome, process_row.
  destruct (ImdbID r) as [imdbID|]; [|by apply exec_clear_flag_lookup].
  destruct (String.eqb imdbID ""); [by apply exec_clear_flag_lookup|].
  destruct (resolve_tmdbID api r imdbID (calls st)) as [tmdbID cs1].
  case_decide; [by apply exec_clear_flag_lookup|].
  destruct (detail api (length cs1) (String.eqb (Type_ r) "show") tmdbID)
    as [|status decoded ok]; [by apply exec_clear_flag_lookup|].
  repeat case_decide; try done. by apply exec_clear_flag_lookup.
Qed.

End RowProps.

Section FlagProps.
Context (sql : Sql) (int_of_float64 : spec_float → Z) (api : Api).

Local Abbreviation process_row := (process_row sql int_of_float64 api).
Local Abbreviation update_failed := (update_failed sql int_of_float64 api).

(** What [process_row] does after a Details answer of 200. *)
Lemma process_row_success_cases st r d row :
  outcome api r (calls st) = DetailSuccess d →
  titles st !! ID r = Some row →
  (update_failed st r
   ∧ titles (process_row st r) = titles st
   ∧ updated (process_row st r) = updated st
   ∧ sleeps (process_row st r) = sleeps st)
  ∨ (¬ update_failed st r
     ∧ ∃ row', titles (process_row st r) = <[ID r := row']> (titles st)
         ∧ needs_backfill_tmdb row' = Some false
         ∧ updated (process_row st r) = updated st + 1).
Proof.
  intros Ho Hrow. unfold Backfill.update_failed.
  pose proof Ho as Ho2. revert Ho2. unfold outcome at 1. unfold Backfill.process_row.
  destruct (ImdbID r) as [imdbID|] eqn:Himdb; [|done].
  destruct (String.eqb imdbID ""); [done|].
  destruct (resolve_tmdbID api r imdbID (calls st)) as [tmdbID cs1] eqn:Hres.
  case_decide; [done|].
  destruct (detail api (length cs1) (String.eqb (Type_ r) "show") tmdbID)
    as [|status decoded ok]; [done|].
  case_decide; [|by case_decide].
  intros ?. simplify_eq.
  destruct (update_by_id _ (ID r) (titles st)) as [tbl|] eqn:Hup.
  - right. split.
    + intros (imdbID' & d' & Hi & Ho' & Hnone). rewrite Ho in Ho'. simplify_eq.
      rewrite Hres in Hnone. simpl in Hnone. congruence.
    + unfold update_by_id in Hup. rewrite Hrow in Hup.
      destruct (backfill_update sql _ row) as [row'|] eqn:Hrow'; [|done]. simplify_eq.
      exists row'. split; [done|]. split; [|done].
      unfold backfill_update in Hrow'. repeat (case_match; simplify_eq/=); done.
  - left. split; [|done]. exists imdbID, d. by rewrite Hres.
Qed.

Lemma is_success_or_not (o : row_outcome) :
  (∃ d, o = DetailSuccess d) ∨ ¬ is_success o.
Proof. destruct o; simpl; eauto. Qed.

Lemma update_failed_success st r :
  update_failed st r → is_success (outcome api r (calls st)).
Proof. intros (imdbID & d & _ & -> & _). done. Qed.

(** C5, as the code has it. Take a row the page query returned: it is in
    the table and its flag is set. (1) If the Details request for it is
    answered 429, the table is left as it is, the row stays flagged and the
    scheduler sleeps once. (2) If the request is answered 200 and the UPDATE
    fails, the table is left as it is too: the row stays flagged, it is not
    counted as updated, and there is no sleep. (3) In every other case the
    row is no longer flagged and no later page lists it. (4) For the
    outcomes that are no success and no throttling (no IMDb id, no TMDB id
    resolved, a failed request, another status) the row is as it was but
    for its flag. (5) So the row stays flagged exactly when the request was
    throttled or the UPDATE after a 200 failed. *)
Theorem backfill_retries_throttled_and_unstored st r row :
  titles st !! ID r = Some row →
  flagged row →
  (outcome api r (calls st) = DetailThrottled →
     titles (process_row st r) = titles st
     ∧ still_flagged (ID r) (titles (process_row st r))
     ∧ sleeps (process_row st r) = S (sleeps st))
  ∧ (update_failed st r →
     titles (process_row st r) = titles st
     ∧ still_flagged (ID r) (titles (process_row st r))
     ∧ updated (process_row st r) = updated st
     ∧ sleeps (process_row st r) = sleeps st)
  ∧ (outcome api r (calls st) ≠ DetailThrottled → ¬ update_failed st r →
     ¬ still_flagged (ID r) (titles (process_row st r))
     ∧ ∀ x, x ∈ page (titles (process_row st r)) → ID x ≠ ID r)
  ∧ (¬ is_success (outcome api r (calls st)) →
     outcome api r (calls st) ≠ DetailThrottled →
     titles (process_row st r) = <[ID r := clear_flag row]> (titles st))
  ∧ (still_flagged (ID r) (titles (process_row st r))
     ↔ outcome api r (calls st) = DetailThrottled ∨ update_failed st r).
Proof.
  intros Hrow Hflag.
  pose proof (process_row_titles sql int_of_float64 api st r row Hrow) as Hcase.
  assert (outcome api r (calls st) = DetailThrottled →
          titles (process_row st r) = titles st
          ∧ still_flagged (ID r) (titles (process_row st r))
          ∧ sleeps (process_row st r) = S (sleeps st)) as Hthr.
  { intros Ho. rewrite Ho in Hcase. destruct Hcase as [Ht Hs].
    split; [done|]. split; [|done]. rewrite Ht. by exists row. }
  assert (update_failed st r →
          titles (process_row st r) = titles st
          ∧ still_flagged (ID r) (titles (process_row st r))
          ∧ updated (process_row st r) = updated st
          ∧ sleeps (process_row st r) = sleeps st) as Hfail.
  { intros Hf. pose proof Hf as (imdbID & d & _ & Ho & _).
    destruct (process_row_success_cases st r d row Ho Hrow)
      as [(_ & Ht & Hu & Hs) | [Hnf _]]; [|done].
    split; [done|]. split; [|done]. rewrite Ht. by exists row. }
  assert (¬ is_success (outcome api r (calls st)) →
          outcome api r (calls st) ≠ DetailThrottled →
          titles (process_row st r) = <[ID r := clear_flag row]> (titles st)) as Hclr.
  { intros Hns Hnt. destruct (outcome api r (calls st)); simpl in *; done. }
  assert (outcome api r (calls st) ≠ DetailThrottled → ¬ update_failed st r →
          ¬ still_flagged (ID r) (titles (process_row st r))) as Hgone.
  { intros Hnt Hnf.
    destruct (is_success_or_not (outcome api r (calls st))) as [(d & Ho) | Hns].
    - destruct (process_row_success_cases st r d row Ho Hrow)
        as [[Hf _] | (_ & row' & Ht & Hfl & _)]; [done|].
      rewrite Ht. intros (row1 & Hl & Hf1). rewrite lookup_insert_eq in Hl. simplify_eq.
      unfold flagged in Hf1. congruence.
    - rewrite Hclr by done. apply cleared_not_flagged. }
  split; [exact Hthr|]. split; [exact Hfail|]. split; [|split; [exact Hclr|]].
  - intros Hnt Hnf. split; [by apply Hgone|].
    intros x Hx Heq. apply page_elem in Hx. rewrite Heq in Hx. by apply Hgone in Hx.
  - split.
    + intros Hfl.
      destruct (is_success_or_not (outcome api r (calls st))) as [(d & Ho) | Hns].
      * right.
        destruct (process_row_success_cases st r d row Ho Hrow) as [[Hf _] | [Hnf _]];
          [done|].
        destruct (Hgone ltac:(by rewrite Ho) Hnf Hfl).
      * assert (outcome api r (calls st) = DetailThrottled
                ∨ outcome api r (calls st) ≠ DetailThrottled) as [|Hnt]
          by (destruct (outcome api r (calls st)); auto).
        { by left. }
        destruct (Hgone Hnt) ; [|done].
        intros Hf. by apply update_failed_success in Hf.
    + intros [Ho | Hf]; [by apply Hthr|by apply Hfail].
Qed.

End FlagProps.

(** A flagged row whose Details request is answered 429 stays flagged, and
    so does one whose answer of 200 carries a date the store refuses; the
    same row answered 404 loses its flag. *)
Lemma backfill_retries_throttled_and_unstored_witness :
  still_flagged 1
    (titles (process_row toy_sql Float.trunc (toy_api 429 empty_detail) toy_state
               toy_backfillRow))
  ∧ still_flagged 1
      (titles (process_row Samples.strict_sql Float.trunc
                 (toy_api 200 Samples.undated_detail) toy_state toy_backfillRow))
  ∧ titles (process_row toy_sql Float.trunc (toy_api 404 empty_detail) toy_state
              toy_backfillRow)
    = <[1 := clear_flag toy_row]> (titles toy_state).
Proof.
  split; [|split].
  - refine (proj1 (proj2 (proj1 (backfill_retries_throttled_and_unstored toy_sql
              Float.trunc (toy_api 429 empty_detail) toy_state toy_backfillRow
              toy_row _ _) _))); reflexivity.
  - refine (proj1 (proj2 (proj1 (proj2 (backfill_retries_throttled_and_unstored
              Samples.strict_sql Float.trunc (toy_api 200 Samples.undated_detail)
              toy_state toy_backfillRow toy_row _ _)) _))); try reflexivity.
    exists "tt01", Samples.undated_detail. repeat split; reflexivity.
  - refine (proj1 (proj2 (proj2 (proj2 (backfill_retries_throttled_and_unstored toy_sql
              Float.trunc (toy_api 404 empty_detail) toy_state toy_backfillRow
              toy_row _ _)))) _ _);
      try reflexivity; vm_compute; [tauto | discriminate].
Defined.

(** C5 as stated fails: a row can stay flagged, without having been
    updated, though its request was not throttled. The Details API answers
    200 with a date the store refuses; the UPDATE fails, and the flag is
    still set. *)
Lemma backfill_unstored_row_is_retried :
  ¬ (∀ sql int_of_float64 api st r row,
       titles st !! ID r = Some row →
       flagged row →
       updated (process_row sql int_of_float64 api st r) = updated st →
       still_flagged (ID r) (titles (process_row sql int_of_float64 api st r)) →
       outcome api r (calls st) = DetailThrottled).
Proof.
  intros H.
  specialize (H Samples.strict_sql Float.trunc (toy_api 200 Samples.undated_detail)
                toy_state toy_backfillRow toy_row eq_refl eq_refl eq_refl).
  discriminate H. exists toy_row. split; reflexivity.
Qed.

(** The two answers, run: after a 429 the row is as it was and the run has
    slept once; after a 404 its flag is cleared. *)
Example process_row_throttled :
  let st := process_row toy_sql Float.trunc (toy_api 429 empty_detail) toy_state
              toy_backfillRow in
  titles st !! 1 = Some toy_row ∧ sleeps st = 1%nat ∧ processed st = 1 ∧ updated st = 0.
Proof. vm_compute. done. Qed.

Example process_row_not_found :
  let st := process_row toy_sql Float.trunc (toy_api 404 empty_detail) toy_state
              toy_backfillRow in
  needs_backfill_tmdb <$> titles st !! 1 = Some (Some false) ∧ sleeps st = 0%nat.
Proof. vm_compute. done. Qed.

(** A throttled row comes back on the next page: while the API keeps
    answering 429, five pages do not end the loop. *)
Example tmdbBackfillBatch_throttled_five_pages :
  tmdbBackfillBatch toy_sql Float.trunc (toy_api 429 empty_detail) 5 (titles toy_state) = None.
Proof. vm_compute. done. Qed.

Example tmdbBackfillBatch_not_found :
  sleeps <$> tmdbBackfillBatch toy_sql Float.trunc (toy_api 404 empty_detail) 5 (titles toy_state)
  = Some 0%nat.
Proof. vm_compute. done. Qed.

(** *** More on [tmdbBackfillBatch] *)

Lemma update_by_id_frame {Row} (f : Row → option Row) id (tbl tbl' : gmap Z Row) :
  update_by_id f id tbl = Some tbl' →
  (∀ id', id' ≠ id → tbl' !! id' = tbl !! id')
  ∧ (∀ id', is_Some (tbl' !! id') ↔ is_Some (tbl !! id')).
Proof.
  unfold update_by_id. intros H.
  destruct (tbl !! id) as [row|] eqn:Hrow; [|by simplify_eq].
  destruct (f row) as [row'|]; [|done]. simplify_eq. split.
  - intros id' Hne. by rewrite lookup_insert_ne.
  - intros id'. destruct (decide (id' = id)) as [->|Hne].
    + rewrite lookup_insert_eq, Hrow. split; intros _; by eexists.
    + by rewrite lookup_insert_ne.
Qed.

Lemma exec_clear_flag_frame id (tbl : gmap Z TitleRow) :
  (∀ id', id' ≠ id → exec_clear_flag id tbl !! id' = tbl !! id')
  ∧ (∀ id', is_Some (exec_clear_flag id tbl !! id') ↔ is_Some (tbl !! id')).
Proof.
  unfold exec_clear_flag.
  destruct (update_by_id (λ row, Some (clear_flag row)) id tbl) as [tbl'|] eqn:H; [|done].
  by apply update_by_id_frame in H.
Qed.

Section RowMore.
Context (sql : Sql) (int_of_float64 : spec_float → Z) (api : Api).

Local Abbreviation process_row := (process_row sql int_of_float64 api).

Lemma process_row_frame st r :
  (∀ id, id ≠ ID r → titles (process_row st r) !! id = titles st !! id)
  ∧ (∀ id, is_Some (titles (process_row st r) !! id) ↔ is_Some (titles st !! id)).
Proof.
  pose proof (exec_clear_flag_frame (ID r) (titles st)) as Hclr.
  unfold Backfill.process_row.
  destruct (ImdbID r) as [imdbID|]; [|done].
  destruct (String.eqb imdbID ""); [done|].
  destruct (resolve_tmdbID api r imdbID (calls st)) as [tmdbID cs1].
  case_decide; [done|].
  destruct (detail api (length cs1) (String.eqb (Type_ r) "show") tmdbID)
    as [|status decoded ok]; [done|].
  case_decide.
  - destruct (update_by_id _ (ID r) (titles st)) as [tbl|] eqn:Hup; [|done].
    by apply update_by_id_frame in Hup.
  - by case_decide.
Qed.

(** The scheduler works on one row at a time. Processing a row adds and
    removes no row of [titles] and leaves every row other than its own as
    it was, whatever the API answers; and its own row changes in no column
    but those of the backfill UPDATE. *)
Theorem process_row_touches_one_row st r id :
  (id ≠ ID r → titles (process_row st r) !! id = titles st !! id)
  ∧ (is_Some (titles (process_row st r) !! id) ↔ is_Some (titles st !! id))
  ∧ ∀ row row', titles st !! id = Some row → titles (process_row st r) !! id = Some row' →
      title_type row' = title_type row ∧ imdb_id row' = imdb_id row
      ∧ num_votes row' = num_votes row
      ∧ episodes_checked_at row' = episodes_checked_at row.
Proof.
  destruct (process_row_frame st r) as [Hfr Hdom].
  split; [apply Hfr|]. split; [apply Hdom|].
  intros row row' Hrow Hrow'.
  destruct (decide (id = ID r)) as [->|Hne].
  2: { rewrite Hfr, Hrow in Hrow' by done. by simplify_eq. }
  revert Hrow'. unfold Backfill.process_row.
  assert (∀ cs, titles (count_processed (exec_clear_flag (ID r) (titles st)) cs st)
                !! ID r = Some row' →
          title_type row' = title_type row ∧ imdb_id row' = imdb_id row
          ∧ num_votes row' = num_votes row
          ∧ episodes_checked_at row' = episodes_checked_at row) as Hclr.
  { intros cs. simpl. rewrite (exec_clear_flag_lookup _ _ _ Hrow), lookup_insert_eq.
    intros ?. by simplify_eq. }
  assert (∀ cs, titles (count_processed (titles st) cs st) !! ID r = Some row' →
          title_type row' = title_type row ∧ imdb_id row' = imdb_id row
          ∧ num_votes row' = num_votes row
          ∧ episodes_checked_at row' = episodes_checked_at row) as Hsame.
  { intros cs. simpl. rewrite Hrow. intros ?. by simplify_eq. }
  destruct (ImdbID r) as [imdbID|]; [|apply Hclr].
  destruct (String.eqb imdbID ""); [apply Hclr|].
  destruct (resolve_tmdbID api r imdbID (calls st)) as [tmdbID cs1].
  case_decide; [apply Hclr|].
  destruct (detail api (length cs1) (String.eqb (Type_ r) "show") tmdbID)
    as [|status decoded ok]; [apply Hclr|].
  case_decide.
  - unfold update_by_id. rewrite Hrow.
    destruct (backfill_update sql _ row) as [row1|] eqn:Hup; [|apply Hsame].
    simpl. rewrite lookup_insert_eq. intros ?. simplify_eq.
    unfold backfill_update in Hup. repeat (case_match; simplify_eq/=); done.
  - case_decide; [|apply Hclr]. simpl. rewrite Hrow. intros ?. by simplify_eq.
Qed.

(** What a row costs. Processing a row counts it once, makes at most two
    requests (none for a row without an IMDb id), asks the Find API only
    when the row has no TMDB id stored, counts an update only after a
    Details answer of 200, and sleeps only when the Details answer was
    429. *)
Theorem process_row_requests st r :
  processed (process_row st r) = processed st + 1
  ∧ (∃ extra, calls (process_row st r) = calls st ++ extra
       ∧ (length extra ≤ 2)%nat
       ∧ (outcome api r (calls st) = NoExternalID → extra = [])
       ∧ (default 0 (TmdbID r) ≠ 0 → Forall (λ c, ¬ is_find c) extra))
  ∧ (updated (process_row st r) = updated st
     ∨ updated (process_row st r) = updated st + 1
       ∧ is_success (outcome api r (calls st)))
  ∧ (sleeps (process_row st r) = sleeps st
     ∨ sleeps (process_row st r) = S (sleeps st)
       ∧ outcome api r (calls st) = DetailThrottled).
Proof.
  unfold Backfill.process_row, outcome.
  destruct (ImdbID r) as [imdbID|].
  2: { simpl. split; [done|]. split; [|by (split; left)].
       exists []. rewrite app_nil_r.
       split; [done|]. split; [simpl; lia|]. split; [done|]. intros _. constructor. }
  destruct (String.eqb imdbID "").
  { simpl. split; [done|]. split; [|by (split; left)].
    exists []. rewrite app_nil_r.
       split; [done|]. split; [simpl; lia|]. split; [done|]. intros _. constructor. }
  unfold resolve_tmdbID.
  destruct (decide (default 0 (TmdbID r) = 0)) as [Hz|Hnz].
  - set (id := match find api (length (calls st)) imdbID with
               | Resp 200 result true => pick_id (Type_ r) result
               | _ => 0
               end).
    destruct (decide (id = 0)).
    { simpl. split; [done|]. split; [|by (split; left)].
      eexists. split; [done|]. split; [simpl; lia|]. split; [done|]. by intros []. }
    destruct (detail api _ _ id) as [|status decoded ok].
    { simpl. split; [done|]. split; [|by (split; left)].
      eexists. split; [by rewrite <- app_assoc|]. split; [simpl; lia|]. split; [done|].
      by intros []. }
    destruct (decide (status = 200)).
    { destruct (update_by_id _ (ID r) (titles st)); simpl;
        (split; [done|]; split; [|split; [auto|by left]]);
        (eexists; split; [by rewrite <- app_assoc|]; split; [simpl; lia|];
         split; [done|by intros []]). }
    destruct (decide (status = 429)); simpl;
      (split; [done|]; split; [|split; [by left|auto]]);
      (eexists; split; [by rewrite <- app_assoc|]; split; [simpl; lia|];
       split; [done|by intros []]).
  - rewrite !(decide_False (P:=default 0 (TmdbID r) = 0)) by done.
    destruct (detail api _ _ _) as [|status decoded ok].
    { simpl. split; [done|]. split; [|by (split; left)].
      eexists. split; [done|]. split; [simpl; lia|]. split; [done|].
      intros _. repeat constructor. by intros []. }
    destruct (decide (status = 200)).
    { destruct (update_by_id _ (ID r) (titles st)); simpl;
        (split; [done|]; split; [|split; [auto|by left]]);
        (eexists; split; [done|]; split; [simpl; lia|];
         split; [done|intros _; repeat constructor; by intros []]). }
    destruct (decide (status = 429)); simpl;
      (split; [done|]; split; [|split; [by left|auto]]);
      (eexists; split; [done|]; split; [simpl; lia|];
       split; [done|intros _; repeat constructor; by intros []]).
Qed.

End RowMore.

(** The fields of a row of the page are those of its row in the table. *)
Lemma page_elem_row (tbl : gmap Z TitleRow) x :
  x ∈ page tbl →
  ∃ row, tbl !! ID x = Some row ∧ flagged row
    ∧ Type_ x = title_type row ∧ ImdbID x = imdb_id row ∧ TmdbID x = tmdb_id row.
Proof.
  unfold page. intros Hx.
  apply list_elem_of_fmap in Hx as ([id row] & -> & Hin).
  apply subseteq_take in Hin.
  rewrite merge_sort_Permutation in Hin.
  apply list_elem_of_filter in Hin as [Hfl Hin].
  apply elem_of_map_to_list in Hin.
  by exists row.
Qed.

Lemma page_nonempty (tbl : gmap Z TitleRow) id :
  still_flagged id tbl → page tbl ≠ [].
Proof.
  intros (row & Hrow & Hfl). unfold page.
  set (l := filter (λ ir : Z * TitleRow, flagged ir.2) (map_to_list tbl)).
  assert ((id, row) ∈ l) as Hin.
  { apply list_elem_of_filter. split; [done|]. by apply elem_of_map_to_list. }
  rewrite <- (merge_sort_Permutation votes_before) in Hin.
  destruct (merge_sort votes_before l); [by apply elem_of_nil in Hin|done].
Qed.

Section Throttled.
Context (sql : Sql) (int_of_float64 : spec_float → Z) (api : Api).
Context (id0 : Z) (row0 : TitleRow) (imdbID : string) (tmdbID : Z).

Local Abbreviation throttled := (throttled api row0 imdbID tmdbID).

Lemma process_row_keeps_throttled st r :
  throttled →
  titles st !! id0 = Some row0 →
  (ID r = id0 → Type_ r = title_type row0 ∧ ImdbID r = imdb_id row0
                ∧ TmdbID r = tmdb_id row0) →
  titles (process_row sql int_of_float64 api st r) !! id0 = Some row0.
Proof.
  intros (detail_throttled & [Hi0 Hne0] & [Ht0 Hnz0] & _) Hrow Hr.
  destruct (decide (ID r = id0)) as [Heq|Hne].
  - destruct (Hr Heq) as (_ & Hi & Ht).
    unfold process_row, resolve_tmdbID. rewrite Hi, Hi0, Ht, Ht0. simpl.
    rewrite (proj2 (String.eqb_neq _ _) Hne0).
    rewrite !(decide_False (P:=tmdbID = 0)) by done.
    destruct (detail_throttled (length (calls st)) (String.eqb (Type_ r) "show") tmdbID)
      as (d & ok & ->).
    simpl. done.
  - destruct (process_row_frame sql int_of_float64 api st r) as [Hfr _].
    rewrite Hfr; done.
Qed.

Lemma foldl_process_row_keeps_throttled batch st :
  throttled →
  titles st !! id0 = Some row0 →
  (∀ r, r ∈ batch → ID r = id0 →
     Type_ r = title_type row0 ∧ ImdbID r = imdb_id row0 ∧ TmdbID r = tmdb_id row0) →
  titles (foldl (process_row sql int_of_float64 api) st batch) !! id0 = Some row0.
Proof.
  intros Hthr. revert st. induction batch as [|r batch IH]; intros st Hrow Hb; simpl; [done|].
  apply IH.
  - apply process_row_keeps_throttled; [done|done|]. apply Hb, elem_of_cons. by left.
  - intros r' Hr'. apply Hb, elem_of_cons. by right.
Qed.

Lemma pages_throttled fuel st :
  throttled →
  titles st !! id0 = Some row0 → pages sql int_of_float64 api fuel st = None.
Proof.
  intros Hthr. revert st. induction fuel as [|fuel IH]; intros st Hrow; cbn [pages]; [done|].
  pose proof (page_nonempty (titles st) id0) as Hne.
  destruct (page (titles st)) as [|r batch] eqn:Hpage.
  { destruct Hne; [|done]. exists row0. split; [done|]. apply Hthr. }
  apply IH. apply foldl_process_row_keeps_throttled; [done|done|].
  intros r' Hr' Hid. rewrite <- Hpage in Hr'.
  apply page_elem_row in Hr' as (row & Hl & _ & ? & ? & ?).
  rewrite Hid, Hrow in Hl. by simplify_eq.
Qed.

End Throttled.

(** The scheduler has no bound on its retries. If the Details API answers
    429 to every request and some flagged row has an IMDb id and a stored
    TMDB id, that row stays flagged, every page query returns it again, and
    the loop of [tmdbBackfillBatch] does not end: no number of pages is
    enough. *)
Theorem tmdbBackfillBatch_throttled_never_ends
    sql int_of_float64 api (tbl : gmap Z TitleRow) id0 row0 imdbID tmdbID fuel :
  (∀ n show id, ∃ d ok, detail api n show id = Resp 429 d ok) →
  tbl !! id0 = Some row0 →
  flagged row0 →
  imdb_id row0 = Some imdbID → imdbID ≠ "" →
  tmdb_id row0 = Some tmdbID → tmdbID ≠ 0 →
  tmdbBackfillBatch sql int_of_float64 api fuel tbl = None.
Proof.
  intros Hthr Hrow Hfl Hi Hne Ht Hnz. unfold tmdbBackfillBatch.
  rewrite decide_False.
  - apply (pages_throttled sql int_of_float64 api id0 row0 imdbID tmdbID); [|done].
    by repeat split.
  - intros Hsize. apply map_size_empty_iff in Hsize.
    assert (filter (λ ir : Z * TitleRow, flagged ir.2) tbl !! id0 = Some row0) as Hin.
    { by apply map_lookup_filter_Some. }
    rewrite Hsize in Hin. by rewrite lookup_empty in Hin.
Qed.

Lemma tmdbBackfillBatch_throttled_never_ends_witness :
  tmdbBackfillBatch toy_sql Float.trunc (toy_api 429 empty_detail) 1000 (titles toy_state)
  = None.
Proof.
  refine (tmdbBackfillBatch_throttled_never_ends toy_sql Float.trunc
            (toy_api 429 empty_detail) (titles toy_state) 1 toy_row "tt01" 603 1000
            _ _ _ _ _ _ _); try reflexivity; try done.
  intros n show id. by eexists _, _.
Defined.

(** *** When the Details API is of no use *)

Lemma exec_clear_flag_alter id (tbl : gmap Z TitleRow) :
  exec_clear_flag id tbl = alter clear_flag id tbl.
Proof.
  unfold exec_clear_flag, update_by_id. apply map_eq. intros j.
  destruct (tbl !! id) as [row|] eqn:Hrow; simpl.
  - destruct (decide (j = id)) as [->|Hne].
    + by rewrite lookup_insert_eq, lookup_alter_eq, Hrow.
    + by rewrite lookup_insert_ne, lookup_alter_ne.
  - destruct (decide (j = id)) as [->|Hne].
    + by rewrite lookup_alter_eq, Hrow.
    + by rewrite lookup_alter_ne.
Qed.

Lemma clear_flag_not_flagged row : ¬ flagged (clear_flag row).
Proof. unfold flagged, clear_flag. simpl. done. Qed.

Lemma flagged_size_clear id (tbl : gmap Z TitleRow) :
  still_flagged id tbl →
  S (size (filter (λ ir : Z * TitleRow, flagged ir.2) (exec_clear_flag id tbl)))
  = size (filter (λ ir : Z * TitleRow, flagged ir.2) tbl).
Proof.
  intros (row & Hrow & Hfl).
  rewrite (exec_clear_flag_lookup _ _ _ Hrow).
  rewrite map_filter_insert_False by apply clear_flag_not_flagged.
  rewrite map_filter_delete, map_size_delete_Some.
  - assert (size (filter (λ ir : Z * TitleRow, flagged ir.2) tbl) ≠ 0%nat) as Hne; [|lia].
    intros Hz. apply map_size_empty_iff in Hz.
    assert (filter (λ ir : Z * TitleRow, flagged ir.2) tbl !! id = Some row) as Hin
      by by apply map_lookup_filter_Some.
    rewrite Hz in Hin. by rewrite lookup_empty in Hin.
  - exists row. by apply map_lookup_filter_Some.
Qed.

(** The rows of a page have different ids. *)
Lemma page_NoDup (tbl : gmap Z TitleRow) : NoDup (ID <$> page tbl).
Proof.
  unfold page. rewrite <- list_fmap_compose.
  change (ID ∘ _) with (fst : Z * TitleRow → Z).
  eapply sublist_NoDup; [|apply fmap_sublist, sublist_take].
  rewrite merge_sort_Permutation.
  eapply sublist_NoDup; [|apply fmap_sublist, sublist_filter].
  apply NoDup_fst_map_to_list.
Qed.

(** A page without rows: no row of the table is flagged. *)
Lemma page_empty (tbl : gmap Z TitleRow) :
  page tbl = [] → filter (λ ir : Z * TitleRow, flagged ir.2) tbl = ∅.
Proof.
  intros Hp. apply map_empty. intros id.
  apply map_lookup_filter_None. right. intros row Hrow Hfl.
  by apply (page_nonempty tbl id); [exists row|].
Qed.

(** The flag is cleared, once, for every row of a batch. *)
Lemma clear_batch (batch : list backfillRow) (tbl : gmap Z TitleRow) :
  NoDup (ID <$> batch) →
  (∀ r, r ∈ batch → still_flagged (ID r) tbl) →
  (size (filter (λ ir : Z * TitleRow, flagged ir.2)
           (foldl (λ t r, exec_clear_flag (ID r) t) tbl batch)) + length batch)%nat
  = size (filter (λ ir : Z * TitleRow, flagged ir.2) tbl)
  ∧ ∀ id, foldl (λ t r, exec_clear_flag (ID r) t) tbl batch !! id
          = if decide (id ∈ ID <$> batch) then clear_flag <$> tbl !! id else tbl !! id.
Proof.
  revert tbl. induction batch as [|r batch IH]; intros tbl Hnd Hfl.
  { split; [simpl; lia|]. intros id. cbn [foldl]. rewrite fmap_nil.
    case_decide as Hin; [|done]. by apply elem_of_nil in Hin. }
  rewrite fmap_cons in Hnd. apply NoDup_cons in Hnd as [Hr Hnd].
  assert (still_flagged (ID r) tbl) as Hfr by (apply Hfl, elem_of_cons; by left).
  destruct (IH (exec_clear_flag (ID r) tbl) Hnd) as [Hsize Hlook].
  { intros r' Hr'. destruct (Hfl r') as (row & Hrow & Hf); [apply elem_of_cons; by right|].
    exists row. split; [|done].
    rewrite (proj1 (exec_clear_flag_frame (ID r) tbl)); [done|].
    intros Heq. apply Hr. rewrite <- Heq. by apply list_elem_of_fmap_2. }
  cbn [foldl]. split.
  - rewrite length_cons. pose proof (flagged_size_clear _ _ Hfr). lia.
  - intros id. rewrite Hlook, fmap_cons. rewrite exec_clear_flag_alter.
    destruct (decide (id = ID r)) as [->|Hne].
    + rewrite decide_False by done. rewrite (decide_True (P:=ID r ∈ ID r :: _)).
      * by rewrite lookup_alter_eq.
      * apply elem_of_cons. by left.
    + rewrite lookup_alter_ne by done.
      destruct (decide (id ∈ ID <$> batch)) as [Hin|Hnin].
      * rewrite decide_True; [done|]. apply elem_of_cons. by right.
      * rewrite decide_False; [done|]. intros [?|?]%elem_of_cons; done.
Qed.

Section GivesUp.
Context (sql : Sql) (int_of_float64 : spec_float → Z) (api : Api).

Local Abbreviation process_row := (process_row sql int_of_float64 api).

Local Abbreviation no_details := (no_details api).

Lemma process_row_gives_up st r :
  no_details →
  titles (process_row st r) = exec_clear_flag (ID r) (titles st)
  ∧ processed (process_row st r) = processed st + 1
  ∧ updated (process_row st r) = updated st
  ∧ sleeps (process_row st r) = sleeps st.
Proof.
  intros Hno. unfold Backfill.process_row.
  destruct (ImdbID r) as [imdbID|]; [|done].
  destruct (String.eqb imdbID ""); [done|].
  destruct (resolve_tmdbID api r imdbID (calls st)) as [tmdbID cs1].
  case_decide; [done|].
  destruct (detail api (length cs1) (String.eqb (Type_ r) "show") tmdbID)
    as [|status decoded ok] eqn:Hd; [done|].
  destruct (Hno _ _ _ _ _ _ Hd) as [H200 H429].
  rewrite decide_False by done. by rewrite decide_False by done.
Qed.

Lemma foldl_process_row_gives_up batch st :
  no_details →
  titles (foldl process_row st batch)
  = foldl (λ t r, exec_clear_flag (ID r) t) (titles st) batch
  ∧ processed (foldl process_row st batch) = processed st + Z.of_nat (length batch)
  ∧ updated (foldl process_row st batch) = updated st
  ∧ sleeps (foldl process_row st batch) = sleeps st.
Proof.
  intros Hno. revert st. induction batch as [|r batch IH]; intros st.
  { simpl. repeat split; lia. }
  cbn [foldl]. destruct (IH (process_row st r)) as (Ht & Hp & Hu & Hs).
  destruct (process_row_gives_up st r Hno) as (Ht1 & Hp1 & Hu1 & Hs1).
  rewrite Ht, Hp, Hu, Hs, Ht1, Hp1, Hu1, Hs1, length_cons.
  repeat split; lia.
Qed.

Lemma pages_drain fuel st :
  no_details →
  (size (filter (λ ir : Z * TitleRow, flagged ir.2) (titles st)) < fuel)%nat →
  ∃ st', pages sql int_of_float64 api fuel st = Some st'
    ∧ (∀ id, titles st' !! id
             = (λ row, if decide (flagged row) then clear_flag row else row)
                 <$> titles st !! id)
    ∧ processed st'
      = processed st
        + Z.of_nat (size (filter (λ ir : Z * TitleRow, flagged ir.2) (titles st)))
    ∧ updated st' = updated st ∧ sleeps st' = sleeps st.
Proof.
  intros Hno. revert st. induction fuel as [|fuel IH]; intros st Hfuel; [lia|].
  cbn [pages].
  destruct (page (titles st)) as [|r batch] eqn:Hpage.
  { apply page_empty in Hpage. exists st. split; [done|]. split.
    - intros id. destruct (titles st !! id) as [row|] eqn:Hrow; [|done]. simpl.
      rewrite decide_False; [done|]. intros Hfl.
      assert (filter (λ ir : Z * TitleRow, flagged ir.2) (titles st) !! id = Some row) as Hin
        by by apply map_lookup_filter_Some.
      rewrite Hpage in Hin. by rewrite lookup_empty in Hin.
    - rewrite Hpage, map_size_empty. repeat split; lia. }
  rewrite <- Hpage.
  destruct (foldl_process_row_gives_up (page (titles st)) st Hno) as (Ht & Hp & Hu & Hs).
  destruct (clear_batch (page (titles st)) (titles st) (page_NoDup _)) as [Hsize Hlook].
  { intros r' Hr'. by apply page_elem. }
  rewrite <- Ht in Hsize, Hlook.
  assert (length (page (titles st)) ≠ 0%nat) as Hlen by by rewrite Hpage.
  destruct (IH (foldl process_row st (page (titles st)))) as (st' & Hrun & Hl' & Hp' & Hu' & Hs');
    [lia|].
  exists st'. split; [done|]. split; [|repeat split; lia].
  intros id. rewrite Hl', Hlook.
  destruct (decide (id ∈ ID <$> page (titles st))) as [Hin|Hnin]; [|done].
  apply list_elem_of_fmap in Hin as (r' & -> & Hr').
  apply page_elem in Hr' as (row & Hrow & Hfl). rewrite Hrow.
  cbn [fmap option_fmap option_map].
  rewrite (decide_False (P:=flagged (clear_flag row))) by apply clear_flag_not_flagged.
  by rewrite decide_True.
Qed.

End GivesUp.

(** A run of the scheduler against a Details API that answers no request
    with 200 or 429 (the network is down, the key is refused) ends, and it
    ends the backfill for good: the flag of every flagged title is cleared
    and nothing else in the table changes, every flagged title was
    processed once, none was updated, and the run never slept. A later run
    finds nothing to do. *)
Theorem tmdbBackfillBatch_gives_up_on_every_title
    sql int_of_float64 api (tbl : gmap Z TitleRow) (fuel : nat) :
  (∀ n show id status d ok, detail api n show id = Resp status d ok →
     status ≠ 200 ∧ status ≠ 429) →
  (size (filter (λ ir : Z * TitleRow, flagged ir.2) tbl) < fuel)%nat →
  ∃ st, tmdbBackfillBatch sql int_of_float64 api fuel tbl = Some st
    ∧ (∀ id, titles st !! id
             = (λ row, if decide (flagged row) then clear_flag row else row) <$> tbl !! id)
    ∧ processed st = Z.of_nat (size (filter (λ ir : Z * TitleRow, flagged ir.2) tbl))
    ∧ updated st = 0 ∧ sleeps st = 0%nat
    ∧ page (titles st) = [].
Proof.
  intros Hno Hfuel. unfold tmdbBackfillBatch.
  assert (∀ st : state,
            (∀ id, titles st !! id
               = (λ row, if decide (flagged row) then clear_flag row else row) <$> tbl !! id) →
            page (titles st) = []) as Hdone.
  { intros st Hl. destruct (page (titles st)) as [|r batch] eqn:Hpage; [done|].
    assert (r ∈ page (titles st)) as Hr by (rewrite Hpage; apply elem_of_cons; by left).
    apply page_elem in Hr as (row & Hrow & Hfl). rewrite Hl in Hrow.
    destruct (tbl !! ID r) as [row0|]; [|done]. simpl in Hrow. simplify_eq.
    case_decide; [by apply clear_flag_not_flagged in Hfl|done]. }
  case_decide as Hz.
  - eexists. split; [done|]. simpl.
    assert (∀ id, tbl !! id
              = (λ row, if decide (flagged row) then clear_flag row else row) <$> tbl !! id)
      as Hl.
    { intros id. destruct (tbl !! id) as [row|] eqn:Hrow; [|done]. simpl.
      rewrite decide_False; [done|]. intros Hfl.
      apply map_size_empty_iff in Hz.
      assert (filter (λ ir : Z * TitleRow, flagged ir.2) tbl !! id = Some row) as Hin
        by by apply map_lookup_filter_Some.
      rewrite Hz in Hin. by rewrite lookup_empty in Hin. }
    split; [done|]. rewrite Hz. repeat split; try done.
    by apply (Hdone {| titles := tbl; calls := []; processed := 0; updated := 0;
                       sleeps := 0 |}).
  - edestruct (pages_drain sql int_of_float64 api fuel) as (st' & Hrun & Hl & Hp & Hu & Hs);
      [exact Hno|..].
    2: { exists st'. split; [exact Hrun|]. simpl in *. split; [done|].
         repeat split; try done; try lia. by apply Hdone. }
    done.
Qed.

Lemma tmdbBackfillBatch_gives_up_on_every_title_witness :
  ∃ st, tmdbBackfillBatch toy_sql Float.trunc (toy_api 404 empty_detail) 2 (titles toy_state)
        = Some st
    ∧ titles st !! 1 = Some (clear_flag toy_row)
    ∧ processed st = 1 ∧ updated st = 0.
Proof.
  destruct (tmdbBackfillBatch_gives_up_on_every_title toy_sql Float.trunc
              (toy_api 404 empty_detail) (titles toy_state) 2)
    as (st & Hrun & Hl & Hp & Hu & _).
  - intros n show id status d ok H. simpl in H. by simplify_eq.
  - vm_compute. lia.
  - exists st. split; [exact Hrun|]. split; [by rewrite Hl|]. split; [exact Hp|exact Hu].
Defined.

(** *** An answer the store refuses *)

Section FailedUpdate.
Context (sql : Sql) (int_of_float64 : spec_float → Z) (api : Api).
Context (id0 : Z) (row0 : TitleRow) (imdbID : string) (tmdbID : Z) (d : Detail).

Local Abbreviation unstorable := (unstorable sql int_of_float64 api row0 imdbID tmdbID d).

Lemma process_row_keeps_unstorable st r :
  unstorable →
  titles st !! id0 = Some row0 →
  (ID r = id0 → Type_ r = title_type row0 ∧ ImdbID r = imdb_id row0
                ∧ TmdbID r = tmdb_id row0) →
  titles (process_row sql int_of_float64 api st r) !! id0 = Some row0.
Proof.
  intros (Hdetail & Hup & [Hi0 Hne0] & [Ht0 Hnz0] & _) Hrow Hr.
  destruct (decide (ID r = id0)) as [Heq|Hne].
  - destruct (Hr Heq) as (Hty & Hi & Ht).
    unfold process_row, resolve_tmdbID. rewrite Hi, Hi0, Ht, Ht0, Hty. simpl.
    rewrite (proj2 (String.eqb_neq _ _) Hne0).
    rewrite !(decide_False (P:=tmdbID = 0)) by done.
    destruct (Hdetail (length (calls st))) as (ok & ->).
    rewrite decide_True by done.
    unfold update_by_id. rewrite Heq, Hrow, Hup. simpl. done.
  - destruct (process_row_frame sql int_of_float64 api st r) as [Hfr _].
    rewrite Hfr; done.
Qed.

Lemma foldl_process_row_keeps_unstorable batch st :
  unstorable →
  titles st !! id0 = Some row0 →
  (∀ r, r ∈ batch → ID r = id0 →
     Type_ r = title_type row0 ∧ ImdbID r = imdb_id row0 ∧ TmdbID r = tmdb_id row0) →
  titles (foldl (process_row sql int_of_float64 api) st batch) !! id0 = Some row0.
Proof.
  intros Hun. revert st. induction batch as [|r batch IH]; intros st Hrow Hb; simpl; [done|].
  apply IH.
  - apply process_row_keeps_unstorable; [done|done|]. apply Hb, elem_of_cons. by left.
  - intros r' Hr'. apply Hb, elem_of_cons. by right.
Qed.

Lemma pages_unstorable fuel st :
  unstorable →
  titles st !! id0 = Some row0 → pages sql int_of_float64 api fuel st = None.
Proof.
  intros Hun. revert st. induction fuel as [|fuel IH]; intros st Hrow; cbn [pages]; [done|].
  pose proof (page_nonempty (titles st) id0) as Hne.
  destruct (page (titles st)) as [|r batch] eqn:Hpage.
  { destruct Hne; [|done]. exists row0. split; [done|]. apply Hun. }
  apply IH. apply foldl_process_row_keeps_unstorable; [done|done|].
  intros r' Hr' Hid. rewrite <- Hpage in Hr'.
  apply page_elem_row in Hr' as (row & Hl & _ & ? & ? & ?).
  rewrite Hid, Hrow in Hl. by simplify_eq.
Qed.

End FailedUpdate.

(** A failed UPDATE is logged and nothing more: the flag of the row stays
    set. So if the Details API keeps giving, for a flagged row with an IMDb
    id and a stored TMDB id, an answer of 200 that the UPDATE cannot store
    in that row, the row is in every page and the loop of
    [tmdbBackfillBatch] does not end: no number of pages is enough. *)
Theorem tmdbBackfillBatch_failed_update_never_ends
    sql int_of_float64 api (tbl : gmap Z TitleRow) id0 row0 imdbID tmdbID d fuel :
  (∀ n, ∃ ok, detail api n (String.eqb (title_type row0) "show") tmdbID = Resp 200 d ok) →
  backfill_update sql (backfill_args int_of_float64 tmdbID d) row0 = None →
  tbl !! id0 = Some row0 →
  flagged row0 →
  imdb_id row0 = Some imdbID → imdbID ≠ "" →
  tmdb_id row0 = Some tmdbID → tmdbID ≠ 0 →
  tmdbBackfillBatch sql int_of_float64 api fuel tbl = None.
Proof.
  intros Hdetail Hup Hrow Hfl Hi Hne Ht Hnz. unfold tmdbBackfillBatch.
  rewrite decide_False.
  - apply (pages_unstorable sql int_of_float64 api id0 row0 imdbID tmdbID d); [|done].
    by repeat split.
  - intros Hsize. apply map_size_empty_iff in Hsize.
    assert (filter (λ ir : Z * TitleRow, flagged ir.2) tbl !! id0 = Some row0) as Hin.
    { by apply map_lookup_filter_Some. }
    rewrite Hsize in Hin. by rewrite lookup_empty in Hin.
Qed.

Lemma tmdbBackfillBatch_failed_update_never_ends_witness :
  tmdbBackfillBatch Samples.strict_sql Float.trunc (toy_api 200 Samples.undated_detail) 1000
    (titles toy_state)
  = None.
Proof.
  refine (tmdbBackfillBatch_failed_update_never_ends Samples.strict_sql Float.trunc
            (toy_api 200 Samples.undated_detail) (titles toy_state) 1 toy_row "tt01" 603
            Samples.undated_detail 1000 _ _ _ _ _ _ _ _); try reflexivity; try done.
  intros n. by eexists.
Defined.

End BackfillProps.

Module ServerProps.
Import Store TMDB Server.
Local Open Scope Z_scope.

Section GateProps.
Context (sql : Sql) (int_of_float64 : spec_float → Z) (api : Api)
        (tmdbAPIKey : string) (now : Z).

Lemma exec_titles_calls r w : calls (exec_titles r w) = calls w.
Proof. by destruct r. Qed.

Lemma exec_titles_episodes r w : show_episodes (exec_titles r w) = show_episodes w.
Proof. by destruct r. Qed.

(** [fetchAndStoreTMDBImage] makes a Find request, at most one Details
    request, and leaves [show_episodes] alone. *)
Lemma fetchAndStoreTMDBImage_calls imdbID titleType w :
  ∃ extra,
    calls (fetchAndStoreTMDBImage sql api tmdbAPIKey imdbID titleType w).2
    = calls w ++ extra
    ∧ Forall not_episode_call extra
    ∧ show_episodes (fetchAndStoreTMDBImage sql api tmdbAPIKey imdbID titleType w).2
      = show_episodes w.
Proof.
  unfold fetchAndStoreTMDBImage.
  destruct (String.eqb tmdbAPIKey "" || String.eqb imdbID "").
  { exists []. by rewrite app_nil_r. }
  destruct (find api imdbID) as [|status result okd].
  { exists [CallFind imdbID]. repeat split; repeat constructor. }
  assert (∃ extra, calls (called (CallFind imdbID) w) = calls w ++ extra
                   ∧ Forall not_episode_call extra
                   ∧ show_episodes (called (CallFind imdbID) w) = show_episodes w) as Hmiss.
  { exists [CallFind imdbID]. repeat split; repeat constructor. }
  repeat (case_match; try exact Hmiss); simplify_eq/=;
    rewrite ?exec_titles_calls, ?exec_titles_episodes; simpl;
    rewrite <- ?app_assoc; simpl;
    eexists; (split; [reflexivity|]); split; try done; repeat constructor.
Qed.

End GateProps.

Section CooldownProps.
Context (sql : Sql) (api : Api) (tmdbAPIKey : string) (now : Z).

Lemma time_Since_lt_day checked : now - checked < day → time_Since now checked < day.
Proof. unfold time_Since, day. lia. Qed.

Lemma needsFetch_true_iff imageURL imdbID :
  needsFetch imageURL imdbID = true
  ↔ (∃ i, imdbID = Some i ∧ i ≠ "") ∧ (imageURL = None ∨ imageURL = Some "").
Proof.
  unfold needsFetch. destruct imdbID as [i|].
  - destruct (String.eqb i "") eqn:Hi.
    + apply String.eqb_eq in Hi. split; [done|]. intros [(i' & ? & ?) _]. by simplify_eq.
    + apply String.eqb_neq in Hi. destruct imageURL as [u|].
      * rewrite String.eqb_eq. split.
        -- intros ->. split; [by exists i | by right].
        -- intros [_ [?|?]]; by simplify_eq.
      * split; [|done]. intros _. split; [by exists i | by left].
  - split; [done|]. by intros [(i' & ? & ?) _].
Qed.


End CooldownProps.

(** *** The omniseason fallback *)

Lemma filter_length_eq_Forall {A} (P : A → Prop) `{!∀ x, Decision (P x)} (l : list A) :
  length (filter P l) = length l ↔ Forall P l.
Proof.
  induction l as [|x l IH]; simpl; [by split|].
  rewrite filter_cons. destruct (decide (P x)) as [Hx|Hx]; simpl.
  - rewrite Forall_cons. split.
    + intros Hl. split; [done|]. apply IH. lia.
    + intros [_ Hl]. f_equal. by apply IH.
  - split.
    + intros Hl. pose proof (length_filter P l). lia.
    + intros Hl. apply Forall_cons in Hl as [? _]. done.
Qed.

Lemma foldl_count_result_lookup results m sn :
  foldl count_result m results !! sn
  = if decide (filter (λ r, seasonNum (ref r) = sn) results = []) then m !! sn
    else
      Some {| st_notFound :=
                st_notFound (default {| st_notFound := 0; st_total := 0 |} (m !! sn))
                + Z.of_nat (length (filter (λ r, notFound r = true)
                                      (filter (λ r, seasonNum (ref r) = sn) results)));
              st_total :=
                st_total (default {| st_notFound := 0; st_total := 0 |} (m !! sn))
                + Z.of_nat (length (filter (λ r, seasonNum (ref r) = sn) results)) |}.
Proof.
  revert m. induction results as [|r results IH]; intros m; simpl; [done|].
  rewrite IH, filter_cons. unfold count_result at 1 2 3.
  destruct (decide (seasonNum (ref r) = sn)) as [Hsn|Hsn].
  - rewrite Hsn, lookup_insert_eq.
    match goal with
    | |- context [decide (?x :: ?l = [])] =>
        destruct (decide (x :: l = [])) as [?|_]; [done|]
    end.
    rewrite filter_cons. simpl.
    destruct (decide (filter (λ r0, seasonNum (ref r0) = sn) results = [])) as [Hf|Hf].
    + rewrite Hf. destruct (notFound r) eqn:Hnf; simpl;
        rewrite ?decide_True, ?decide_False by done; simpl; f_equal; f_equal; lia.
    + destruct (notFound r) eqn:Hnf; simpl;
        rewrite ?decide_True, ?decide_False by done; simpl; f_equal; f_equal; lia.
  - rewrite lookup_insert_ne by done. done.
Qed.

Lemma retry_wanted_iff results res :
  res ∈ results →
  retry_wanted (seasonNotFound results) res = true
  ↔ (∀ res', res' ∈ results → seasonNum (ref res') = seasonNum (ref res) →
       notFound res' = true)
    ∧ seasonNum (ref res) ≠ 1.
Proof.
  intros Hin. unfold retry_wanted, seasonNotFound.
  rewrite foldl_count_result_lookup, lookup_empty. simpl.
  assert (res ∈ filter (λ r, seasonNum (ref r) = seasonNum (ref res)) results) as HinS
    by (by apply list_elem_of_filter).
  rewrite decide_False by (intros Hnil; rewrite Hnil in HinS; by inversion HinS).
  rewrite !andb_true_iff, negb_true_iff, bool_decide_eq_true, bool_decide_eq_false.
  simpl. rewrite !Z.add_0_l, Nat2Z.inj_iff, filter_length_eq_Forall, Forall_forall.
  split.
  - intros [[Hnf Hall] Hne]. split; [|done].
    intros res' Hin' Hsn. apply Hall. by apply list_elem_of_filter.
  - intros [Hall Hne]. split; [split|done].
    + by apply Hall.
    + intros x Hx. apply list_elem_of_filter in Hx as [Hsn Hx]. by apply Hall.
Qed.

Lemma omniRetry_from_elem k stats results i :
  i ∈ omniRetry_from k stats results
  ↔ (k ≤ i)%nat ∧ ∃ res, results !! (i - k)%nat = Some res ∧ retry_wanted stats res = true.
Proof.
  revert k. induction results as [|r results IH]; intros k; simpl.
  - split; [by inversion 1|]. by intros [_ (res & ? & _)].
  - rewrite elem_of_app, IH. split.
    + intros [Hi | [Hk (res & Hres & Hw)]].
      * destruct (retry_wanted stats r) eqn:Hw; [|by inversion Hi].
        apply list_elem_of_singleton in Hi as ->.
        split; [lia|]. exists r. by rewrite Nat.sub_diag.
      * split; [lia|]. exists res. split; [|done].
        replace (i - k)%nat with (S (i - S k)) by lia. done.
    + intros [Hk (res & Hres & Hw)].
      destruct (decide (i = k)) as [->|Hne].
      * left. rewrite Nat.sub_diag in Hres. simplify_eq/=. rewrite Hw. by left.
      * right. split; [lia|]. exists res. split; [|done].
        replace (i - k)%nat with (S (i - S k)) in Hres by lia. done.
Qed.

Lemma omniRetry_from_NoDup k stats results : NoDup (omniRetry_from k stats results).
Proof.
  revert k. induction results as [|r results IH]; intros k; simpl; [constructor|].
  destruct (retry_wanted stats r); simpl; [|apply IH].
  constructor; [|apply IH].
  rewrite omniRetry_from_elem. lia.
Qed.

Lemma omniRetry_elem results i :
  i ∈ omniRetry results
  ↔ ∃ res, results !! i = Some res
      ∧ (∀ res', res' ∈ results → seasonNum (ref res') = seasonNum (ref res) →
           notFound res' = true)
      ∧ seasonNum (ref res) ≠ 1.
Proof.
  unfold omniRetry. rewrite omniRetry_from_elem, Nat.sub_0_r. split.
  - intros [_ (res & Hres & Hw)]. exists res. split; [done|].
    apply retry_wanted_iff; [|done]. by eapply list_elem_of_lookup_2.
  - intros (res & Hres & Hall). split; [lia|]. exists res. split; [done|].
    apply retry_wanted_iff; [|done]. by eapply list_elem_of_lookup_2.
Qed.

Lemma episodeOffset_from_notin c seasons m sn :
  sn ∉ (SeasonNumber <$> seasons) →
  episodeOffset_from c seasons m !! sn = m !! sn.
Proof.
  revert c m. induction seasons as [|s seasons IH]; intros c m Hnotin; simpl; [done|].
  rewrite fmap_cons, not_elem_of_cons in Hnotin. destruct Hnotin as [Hne Hnotin].
  rewrite IH by done. by rewrite lookup_insert_ne.
Qed.

Lemma episodeOffset_from_lookup c seasons m si s :
  NoDup (SeasonNumber <$> seasons) →
  seasons !! si = Some s →
  episodeOffset_from c seasons m !! SeasonNumber s = Some (c + episodes_before seasons si).
Proof.
  revert c m si. induction seasons as [|s0 seasons IH]; intros c m si Hnd Hs; [done|].
  rewrite fmap_cons, NoDup_cons in Hnd. destruct Hnd as [Hnotin Hnd].
  destruct si as [|si]; simpl in *.
  - simplify_eq. rewrite episodeOffset_from_notin by done.
    rewrite lookup_insert_eq. unfold episodes_before. simpl. f_equal. lia.
  - rewrite (IH _ _ si) by done. unfold episodes_before. simpl. f_equal. lia.
Qed.

Lemma collect_episodes_elem si sn k eps r :
  r ∈ collect_episodes si sn k eps →
  seasonIdx r = si ∧ seasonNum r = sn.
Proof.
  revert k. induction eps as [|ep eps IH]; intros k; simpl; [by inversion 1|].
  rewrite elem_of_app. intros [Hr | Hr]; [|by eapply IH].
  destruct (needs_episode_fetch ep); [|by inversion Hr].
  apply list_elem_of_singleton in Hr as ->. done.
Qed.

Lemma collect_seasons_elem k seasons r :
  r ∈ collect_seasons k seasons →
  (k ≤ seasonIdx r)%nat
  ∧ ∃ s, seasons !! (seasonIdx r - k)%nat = Some s ∧ seasonNum r = SeasonNumber s.
Proof.
  revert k. induction seasons as [|s seasons IH]; intros k; simpl; [by inversion 1|].
  rewrite elem_of_app. intros [Hr | Hr].
  - apply collect_episodes_elem in Hr as [-> ->].
    split; [lia|]. exists s. by rewrite Nat.sub_diag.
  - apply IH in Hr as [Hk (s' & Hs' & Hsn)]. split; [lia|]. exists s'.
    split; [|done]. replace (seasonIdx r - k)%nat with (S (seasonIdx r - S k)) by lia.
    done.
Qed.

(** The offset of a requested episode is the number of episodes of the
    seasons listed before its own. *)
Lemma absEp_episodes_before seasons r :
  NoDup (SeasonNumber <$> seasons) →
  r ∈ collect_seasons 0 seasons →
  absEp seasons r = episodes_before seasons (seasonIdx r) + episodeNum r.
Proof.
  intros Hnd Hr. apply collect_seasons_elem in Hr as [_ (s & Hs & Hsn)].
  rewrite Nat.sub_0_r in Hs. unfold absEp, episodeOffset.
  rewrite Hsn, (episodeOffset_from_lookup 0 seasons ∅ (seasonIdx r) s) by done.
  simpl. lia.
Qed.

Section RetryProps.
Context (sql : Sql) (api : Api) (tmdbAPIKey : string).

Lemma get_episode_calls left attempt id sn en w :
  ∃ n, (1 ≤ n ≤ S left)%nat
    ∧ calls (get_episode api left attempt id sn en w).2
      = calls w ++ replicate n (CallEpisode id sn en)
    ∧ titles (get_episode api left attempt id sn en w).2 = titles w
    ∧ show_episodes (get_episode api left attempt id sn en w).2 = show_episodes w.
Proof.
  revert attempt w. induction left as [|left IH]; intros attempt w; simpl.
  - exists 1%nat. split; [lia|]. done.
  - destruct (episode api id sn en attempt) as [|status ep okd].
    + exists 1%nat. split; [lia|]. done.
    + case_decide.
      * destruct (IH (S attempt) (called (CallEpisode id sn en) w))
          as (n & Hn & Hcalls & Ht & He).
        exists (S n). split; [lia|]. rewrite Hcalls, Ht, He. simpl.
        rewrite <- app_assoc. done.
      * exists 1%nat. split; [lia|]. done.
Qed.

Lemma fetch_round_refs id refs w :
  ref <$> (fetch_round sql api tmdbAPIKey id refs w).1 = refs.
Proof.
  revert w. induction refs as [|r refs IH]; intros w; simpl; [done|].
  destruct (fetchAndStoreEpisodeData sql api tmdbAPIKey id (seasonNum r) (episodeNum r)
              (episodeID r) w) as [d w1].
  specialize (IH w1).
  destruct (fetch_round sql api tmdbAPIKey id refs w1) as [results w2].
  cbn [fst] in *. rewrite fmap_cons. by f_equal.
Qed.

End RetryProps.

Lemma made_requests_unique api id sn en n n' :
  made_requests api id sn en n → made_requests api id sn en n' → n = n'.
Proof.
  intros (Hn & Hthr & Hlast) (Hn' & Hthr' & Hlast').
  destruct (decide (n = n')) as [|Hne]; [done|]. exfalso.
  destruct (decide (n < n')%nat).
  - apply Hlast; [lia|]. apply Hthr'. lia.
  - apply Hlast'; [lia|]. apply Hthr. lia.
Qed.

Lemma collect_episodes_idx si sn k eps r :
  r ∈ collect_episodes si sn k eps → (k ≤ episodeIdx r)%nat.
Proof.
  revert k. induction eps as [|ep eps IH]; intros k; simpl; [by inversion 1|].
  rewrite elem_of_app. intros [Hr | Hr].
  - destruct (needs_episode_fetch ep); [|by inversion Hr].
    apply list_elem_of_singleton in Hr as ->. simpl. lia.
  - apply IH in Hr. lia.
Qed.

Lemma collect_episodes_NoDup si sn k eps :
  NoDup ((λ r, (seasonIdx r, episodeIdx r)) <$> collect_episodes si sn k eps).
Proof.
  revert k. induction eps as [|ep eps IH]; intros k; simpl; [constructor|].
  rewrite fmap_app. apply NoDup_app. split; [|split; [|apply IH]].
  - destruct (needs_episode_fetch ep); simpl; [|constructor].
    apply NoDup_singleton.
  - intros x Hx Hx'. destruct (needs_episode_fetch ep); simpl in Hx; [|by inversion Hx].
    apply list_elem_of_singleton in Hx as ->.
    apply list_elem_of_fmap in Hx' as (r & Heq & Hr).
    apply collect_episodes_idx in Hr. simpl in Heq. simplify_eq. lia.
Qed.

(** The entries of [toFetch] are different episodes: no position of the
    show is listed twice. *)
Lemma collect_seasons_NoDup k seasons :
  NoDup ((λ r, (seasonIdx r, episodeIdx r)) <$> collect_seasons k seasons).
Proof.
  revert k. induction seasons as [|s seasons IH]; intros k; simpl; [constructor|].
  rewrite fmap_app. apply NoDup_app. split; [apply collect_episodes_NoDup|].
  split; [|apply IH].
  intros x Hx Hx'.
  apply list_elem_of_fmap in Hx as (r & -> & Hr).
  apply list_elem_of_fmap in Hx' as (r' & Heq & Hr').
  apply collect_episodes_elem in Hr as [Hsi _].
  apply collect_seasons_elem in Hr' as [Hk _]. simplify_eq. lia.
Qed.

Lemma zip_with_ext_l {A B C} (f g : A → B → C) (l : list A) (k : list B) :
  (∀ x y, x ∈ l → f x y = g x y) → zip_with f l k = zip_with g l k.
Proof.
  revert k. induction l as [|x l IH]; intros k Hfg; [done|].
  destruct k as [|y k]; [done|]. simpl. f_equal.
  - apply Hfg. by left.
  - apply IH. intros x' y' Hx'. apply Hfg. by right.
Qed.

Section RetryMore.
Context (sql : Sql) (api : Api) (tmdbAPIKey : string).

Lemma get_episode_steps left attempt id sn en w :
  ∃ n, (1 ≤ n ≤ S left)%nat
    ∧ calls (get_episode api left attempt id sn en w).2
      = calls w ++ replicate n (CallEpisode id sn en)
    ∧ (get_episode api left attempt id sn en w).1
      = episode api id sn en (attempt + n - 1)%nat
    ∧ (∀ k, (S k < n)%nat → is_429 (episode api id sn en (attempt + k)%nat))
    ∧ ((n < S left)%nat → ¬ is_429 (episode api id sn en (attempt + n - 1)%nat)).
Proof.
  revert attempt w. induction left as [|left IH]; intros attempt w; simpl.
  - exists 1%nat. split; [lia|]. split; [done|].
    split; [by replace (attempt + 1 - 1)%nat with attempt by lia|].
    split; intros; lia.
  - destruct (episode api id sn en attempt) as [|status ep okd] eqn:Hresp.
    + exists 1%nat. split; [lia|]. split; [done|].
      replace (attempt + 1 - 1)%nat with attempt by lia. rewrite Hresp.
      split; [done|]. split; [intros; lia|]. intros _. simpl. tauto.
    + case_decide as Hs.
      * destruct (IH (S attempt) (called (CallEpisode id sn en) w))
          as (n & Hn & Hcalls & Hlast & Hthr & Hend).
        exists (S n). split; [lia|]. rewrite Hcalls, Hlast. simpl.
        split; [by rewrite <- app_assoc|].
        replace (attempt + S n - 1)%nat with (S attempt + n - 1)%nat by lia.
        split; [done|]. split.
        -- intros [|k] Hk.
           ++ rewrite Nat.add_0_r, Hresp. done.
           ++ replace (attempt + S k)%nat with (S attempt + k)%nat by lia.
              apply Hthr. lia.
        -- intros Hlt. apply Hend. lia.
      * exists 1%nat. split; [lia|]. split; [done|].
        replace (attempt + 1 - 1)%nat with attempt by lia. rewrite Hresp.
        split; [done|]. split; [intros; lia|]. intros _. simpl. done.
Qed.

(** A fetch makes the requests of its loop and nothing else, and it
    reports not-found exactly when the loop ended with a 404. *)
Lemma fetchAndStoreEpisodeData_requests id sn en epID w :
  tmdbAPIKey ≠ "" →
  ∃ n, made_requests api id sn en n
    ∧ calls (fetchAndStoreEpisodeData sql api tmdbAPIKey id sn en epID w).2
      = calls w ++ replicate n (CallEpisode id sn en)
    ∧ (d_notFound (fetchAndStoreEpisodeData sql api tmdbAPIKey id sn en epID w).1 = true
       ↔ answered_404 api id sn en).
Proof.
  intros Hkey. unfold fetchAndStoreEpisodeData.
  apply String.eqb_neq in Hkey. rewrite Hkey.
  destruct (get_episode_steps 2 0 id sn en w) as (n & Hn & Hcalls & Hlast & Hthr & Hend).
  cbn [Nat.add] in Hlast, Hthr, Hend.
  assert (made_requests api id sn en n) as Hmade by (by split).
  destruct (get_episode api 2 0 id sn en w) as [resp w1]. cbn [fst snd] in *.
  exists n. split; [done|].
  assert (∀ d w2, calls w2 = calls w1 →
            (d_notFound d = true ↔ ∃ e okd, resp = Resp 404 e okd) →
            calls (d, w2).2 = calls w ++ replicate n (CallEpisode id sn en)
            ∧ (d_notFound (d, w2).1 = true ↔ answered_404 api id sn en)) as Hfin.
  { intros d w2 Hw2 Hnf. cbn [fst snd]. rewrite Hw2. split; [done|].
    rewrite Hnf. split.
    - intros (e & okd & ->). by exists n, e, okd.
    - intros (n' & e & okd & Hmade' & H404).
      rewrite Hlast, (made_requests_unique _ _ _ _ _ _ Hmade Hmade'). eauto. }
  destruct resp as [|status ep okd].
  { apply Hfin; [done|]. split; [done|]. by intros (? & ? & ?). }
  case_decide as H404.
  { subst status. apply Hfin; [done|]. simpl. split; [eauto|done]. }
  assert (∀ d : epData, d_notFound d = false →
            (d_notFound d = true ↔ ∃ e okd', Resp status ep okd = Resp 404 e okd'))
    as Hno.
  { intros d ->. split; [done|]. intros (? & ? & ?). by simplify_eq. }
  destruct (negb (bool_decide (status = 200))); [by apply Hfin, Hno|].
  destruct (negb okd); [by apply Hfin, Hno|].
  destruct (update_by_id _ epID (show_episodes w1)); by apply Hfin, Hno.
Qed.

(** Every result of the first round is not-found exactly when the request
    for its episode ended with a 404. *)
Lemma fetch_round_notFound id refs w res :
  tmdbAPIKey ≠ "" →
  res ∈ (fetch_round sql api tmdbAPIKey id refs w).1 →
  notFound res = true
  ↔ answered_404 api id (seasonNum (ref res)) (episodeNum (ref res)).
Proof.
  intros Hkey. revert w. induction refs as [|r refs IH]; intros w; simpl.
  { by inversion 1. }
  destruct (fetchAndStoreEpisodeData_requests id (seasonNum r) (episodeNum r)
              (episodeID r) w Hkey) as (n & _ & _ & Hnf).
  destruct (fetchAndStoreEpisodeData sql api tmdbAPIKey id (seasonNum r) (episodeNum r)
              (episodeID r) w) as [d w1].
  specialize (IH w1).
  destruct (fetch_round sql api tmdbAPIKey id refs w1) as [results w2].
  cbn [fst snd] in *.
  intros [->|Hin]%elem_of_cons; [exact Hnf|by apply IH].
Qed.

(** The requests of the omniseason round over any list of indices: for
    each index, in order, the requests of one fetch of season 1 at the
    index [absEp] gives. *)
Lemma foldl_retry_one_requests id seasons toFetch idxs rw :
  tmdbAPIKey ≠ "" →
  ref <$> rw.1 = toFetch →
  ∃ ns,
    length ns = length idxs
    ∧ calls (foldl (retry_one sql api tmdbAPIKey id seasons) rw idxs).2
      = calls rw.2
        ++ concat (zip_with
                     (λ i n, match toFetch !! i with
                             | Some r => replicate n (CallEpisode id 1 (absEp seasons r))
                             | None => []
                             end) idxs ns)
    ∧ ∀ p i r n, idxs !! p = Some i → toFetch !! i = Some r → ns !! p = Some n →
        made_requests api id 1 (absEp seasons r) n.
Proof.
  intros Hkey. revert rw. induction idxs as [|idx idxs IH]; intros rw Hrefs.
  { exists []. simpl. rewrite app_nil_r. split; [done|]. split; [done|]. by intros []. }
  cbn [foldl].
  assert (∃ n,
            calls (retry_one sql api tmdbAPIKey id seasons rw idx).2
            = calls rw.2
              ++ match toFetch !! idx with
                 | Some r => replicate n (CallEpisode id 1 (absEp seasons r))
                 | None => []
                 end
            ∧ ref <$> (retry_one sql api tmdbAPIKey id seasons rw idx).1 = toFetch
            ∧ ∀ r, toFetch !! idx = Some r → made_requests api id 1 (absEp seasons r) n)
    as (n & Hcalls1 & Hrefs1 & Hmade1).
  { unfold retry_one.
    assert (toFetch !! idx = ref <$> rw.1 !! idx) as Hl
      by (by rewrite <- Hrefs, list_lookup_fmap).
    rewrite Hl.
    destruct (rw.1 !! idx) as [res0|] eqn:Hres0; simpl.
    - destruct (fetchAndStoreEpisodeData_requests id 1 (absEp seasons (ref res0))
                  (episodeID (ref res0)) rw.2 Hkey) as (n & Hmade & Hcalls & _).
      destruct (fetchAndStoreEpisodeData sql api tmdbAPIKey id 1
                  (absEp seasons (ref res0)) (episodeID (ref res0)) rw.2) as [d w1].
      cbn [fst snd] in *. exists n. split; [exact Hcalls|]. split.
      + destruct (d_ok d); [|done]. rewrite <- Hrefs.
        apply list_eq. intros i. rewrite !list_lookup_fmap.
        destruct (decide (i = idx)) as [->|Hne].
        * rewrite list_lookup_insert_eq by (by eapply lookup_lt_Some).
          by rewrite Hres0.
        * by rewrite list_lookup_insert_ne.
      + intros r ?. by simplify_eq.
    - exists 0%nat. rewrite app_nil_r. split; [done|]. split; [done|]. by intros r ?. }
  destruct (IH _ Hrefs1) as (ns & Hlen & Hcalls & Hmade).
  exists (n :: ns). split; [simpl; by rewrite Hlen|]. split.
  - rewrite Hcalls, Hcalls1. simpl. by rewrite <- app_assoc.
  - intros [|p] i r n' Hi Hr Hn; simpl in *; simplify_eq.
    + by apply Hmade1.
    + by eapply Hmade.
Qed.

End RetryMore.

Lemma foldl_apply_result_calls results sw :
  calls (foldl apply_result sw results).2 = calls sw.2.
Proof.
  revert sw. induction results as [|res results IH]; intros sw; simpl; [done|].
  rewrite IH. unfold apply_result.
  destruct (ok res); [done|]. by destruct (notFound res).
Qed.

Section RoundProps.
Context (sql : Sql) (api : Api) (tmdbAPIKey : string).

(** The requests of the first round: for each entry of [toFetch], in
    order, the requests of one fetch of its episode. *)
Lemma fetch_round_requests id refs w :
  tmdbAPIKey ≠ "" →
  ∃ ms,
    length ms = length refs
    ∧ calls (fetch_round sql api tmdbAPIKey id refs w).2
      = calls w
        ++ concat (zip_with
                     (λ r m, replicate m (CallEpisode id (seasonNum r) (episodeNum r)))
                     refs ms)
    ∧ ∀ p r m, refs !! p = Some r → ms !! p = Some m →
        made_requests api id (seasonNum r) (episodeNum r) m.
Proof.
  intros Hkey. revert w. induction refs as [|r refs IH]; intros w; simpl.
  { exists []. simpl. rewrite app_nil_r. split; [done|]. split; [done|]. by intros []. }
  destruct (fetchAndStoreEpisodeData_requests sql api tmdbAPIKey id (seasonNum r)
              (episodeNum r) (episodeID r) w Hkey) as (m & Hmade & Hcalls & _).
  destruct (fetchAndStoreEpisodeData sql api tmdbAPIKey id (seasonNum r) (episodeNum r)
              (episodeID r) w) as [d w1].
  destruct (IH w1) as (ms & Hlen & Hcalls' & Hmade').
  destruct (fetch_round sql api tmdbAPIKey id refs w1) as [results w2].
  cbn [fst snd] in *.
  exists (m :: ms). split; [simpl; by rewrite Hlen|]. split.
  - rewrite Hcalls', Hcalls. simpl. by rewrite <- app_assoc.
  - intros [|p] r' m' Hr Hm; simpl in *; simplify_eq; [done|by eapply Hmade'].
Qed.

(** Past its gates, [maybeFetchEpisodes] makes the requests of the first
    round and of the retry round, and no other. *)
Lemma maybeFetchEpisodes_calls now show w imdbID id :
  tmdbAPIKey ≠ "" →
  IMDbID (show_Title show) = Some imdbID → imdbID ≠ "" →
  TMDBID (show_Title show) = Some id → id ≠ 0 →
  in_cooldown now (show_Title show) = false →
  collect_seasons 0 (Seasons show) ≠ [] →
  calls (maybeFetchEpisodes sql api tmdbAPIKey now show w).2
  = calls (retry_round sql api tmdbAPIKey id (Seasons show)
             (fetch_round sql api tmdbAPIKey id (collect_seasons 0 (Seasons show)) w).1
             (fetch_round sql api tmdbAPIKey id (collect_seasons 0 (Seasons show)) w).2).2.
Proof.
  intros Hkey Hi Hne Hid Hnz Hcool Hfetch. unfold maybeFetchEpisodes.
  rewrite (proj2 (String.eqb_neq _ _) Hkey), Hi, (proj2 (String.eqb_neq _ _) Hne), Hid.
  change (default 0 (Some id)) with id. rewrite decide_False by done. rewrite decide_False by done.
  rewrite Hcool.
  destruct (collect_seasons 0 (Seasons show)) as [|r0 refs] eqn:Hc; [done|].
  rewrite <- Hc. clear Hc.
  destruct (fetch_round sql api tmdbAPIKey id (collect_seasons 0 (Seasons show)) w)
    as [results w2].
  cbn [fst snd].
  destruct (retry_round sql api tmdbAPIKey id (Seasons show) results w2)
    as [results' w3].
  pose proof (foldl_apply_result_calls results' (Seasons show, w3)) as Hcalls.
  destruct (foldl apply_result (Seasons show, w3) results') as [seasons' w4].
  cbn [fst snd] in *. simpl. exact Hcalls.
Qed.

End RoundProps.

Section OmniseasonProps.
Context (sql : Sql) (api : Api) (tmdbAPIKey : string).

(** C4. Take the seasons of a show (their numbers distinct, as the store
    guarantees), let [toFetch] be the episodes collected from them and
    [results] the outcome of the first round. (1) There is one result per
    entry of [toFetch], in order; the entries are different episodes; and a
    result is not-found exactly when the request for its episode ended
    with a 404. (2) The entry at index [i] is retried if and only if every
    result whose season number is that of the entry is not-found and that
    season number is not 1. (3) No index is retried twice, and every
    retried index is one of [toFetch]. (4) The requests of the retry round
    are, for each retried entry in turn and for nothing else, those of one
    fetch of season 1 at the entry's absolute index, which is its own
    episode number plus the number of episodes of the seasons listed before
    its own: one request, repeated only after an answer of 429 and at most
    twice. (5) The requests of the first round are, for each entry in
    turn, those of one fetch of its episode. (6) A call of
    [maybeFetchEpisodes] for a show with a stored TMDB id that gets past
    its gates (out of the cooldown, with something to fetch) makes the
    requests of these two rounds and no other, so no episode is retried a
    second time in the same call. *)
Theorem omniseason_retry id seasons w :
  tmdbAPIKey ≠ "" →
  NoDup (SeasonNumber <$> seasons) →
  let toFetch := collect_seasons 0 seasons in
  let first := fetch_round sql api tmdbAPIKey id toFetch w in
  let retried := omniRetry first.1 in
  (ref <$> first.1 = toFetch
   ∧ NoDup ((λ r, (seasonIdx r, episodeIdx r)) <$> toFetch)
   ∧ ∀ j res, first.1 !! j = Some res →
       notFound res = true
       ↔ answered_404 api id (seasonNum (ref res)) (episodeNum (ref res)))
  ∧ (∀ i r, toFetch !! i = Some r →
       i ∈ retried
       ↔ (∀ j res, first.1 !! j = Some res → seasonNum (ref res) = seasonNum r →
            notFound res = true)
         ∧ seasonNum r ≠ 1)
  ∧ (NoDup retried ∧ ∀ i, i ∈ retried → is_Some (toFetch !! i))
  ∧ (∃ ns,
       length ns = length retried
       ∧ calls (retry_round sql api tmdbAPIKey id seasons first.1 first.2).2
         = calls first.2 ++ concat (zip_with (retry_requests id seasons toFetch) retried ns)
       ∧ ∀ p i r n, retried !! p = Some i → toFetch !! i = Some r → ns !! p = Some n →
           made_requests api id 1 (absolute_index seasons r) n)
  ∧ (∃ ms,
       length ms = length toFetch
       ∧ calls first.2
         = calls w
           ++ concat (zip_with
                        (λ r m, replicate m (CallEpisode id (seasonNum r) (episodeNum r)))
                        toFetch ms)
       ∧ ∀ p r m, toFetch !! p = Some r → ms !! p = Some m →
           made_requests api id (seasonNum r) (episodeNum r) m)
  ∧ (∀ now show imdbID,
       Seasons show = seasons →
       IMDbID (show_Title show) = Some imdbID → imdbID ≠ "" →
       TMDBID (show_Title show) = Some id → id ≠ 0 →
       in_cooldown now (show_Title show) = false →
       toFetch ≠ [] →
       calls (maybeFetchEpisodes sql api tmdbAPIKey now show w).2
       = calls (retry_round sql api tmdbAPIKey id seasons first.1 first.2).2).
Proof.
  intros Hkey Hnd. cbv zeta.
  assert (∀ now show imdbID,
            Seasons show = seasons →
            IMDbID (show_Title show) = Some imdbID → imdbID ≠ "" →
            TMDBID (show_Title show) = Some id → id ≠ 0 →
            in_cooldown now (show_Title show) = false →
            collect_seasons 0 seasons ≠ [] →
            calls (maybeFetchEpisodes sql api tmdbAPIKey now show w).2
            = calls (retry_round sql api tmdbAPIKey id seasons
                       (fetch_round sql api tmdbAPIKey id (collect_seasons 0 seasons) w).1
                       (fetch_round sql api tmdbAPIKey id (collect_seasons 0 seasons) w).2).2)
    as Hall.
  { intros now show imdbID <- Hi Hne Hid Hnz Hcool Hfetch.
    by eapply maybeFetchEpisodes_calls. }
  pose proof (fetch_round_requests sql api tmdbAPIKey id (collect_seasons 0 seasons) w Hkey)
    as Hfirst.
  pose proof (fetch_round_refs sql api tmdbAPIKey id (collect_seasons 0 seasons) w) as Hrefs.
  pose proof (λ res, fetch_round_notFound sql api tmdbAPIKey id
                       (collect_seasons 0 seasons) w res Hkey) as Hnf.
  destruct (fetch_round sql api tmdbAPIKey id (collect_seasons 0 seasons) w)
    as [results w2]. cbn [fst snd] in *.
  assert (∀ i r, collect_seasons 0 seasons !! i = Some r ↔
                 ∃ res, results !! i = Some res ∧ ref res = r) as Hidx.
  { intros i r. rewrite <- Hrefs, list_lookup_fmap.
    destruct (results !! i) as [res|]; simpl; split.
    - intros ?. simplify_eq. by exists res.
    - intros (res' & ? & ?). by simplify_eq.
    - done.
    - by intros (res' & ? & ?). }
  assert (∀ r, r ∈ collect_seasons 0 seasons →
            absEp seasons r = absolute_index seasons r) as Habs.
  { intros r Hr. by apply absEp_episodes_before. }
  split; [|split; [|split; [|split; [|split; [exact Hfirst|exact Hall]]]]].
  - split; [done|]. split; [apply collect_seasons_NoDup|].
    intros j res Hj. apply Hnf. by eapply list_elem_of_lookup_2.
  - intros i r Hr. apply Hidx in Hr as (res & Hres & <-).
    rewrite omniRetry_elem. split.
    + intros (res0 & Hres0 & Hall' & Hne). simplify_eq. split; [|done].
      intros j res' Hj Hsn. apply Hall'; [|done]. by eapply list_elem_of_lookup_2.
    + intros [Hall' Hne]. exists res. split; [done|]. split; [|done].
      intros res' Hin Hsn. apply list_elem_of_lookup in Hin as [j Hj]. by eapply Hall'.
  - split; [apply omniRetry_from_NoDup|].
    intros i Hi. apply omniRetry_elem in Hi as (res & Hres & _).
    exists (ref res). apply Hidx. by exists res.
  - unfold retry_round.
    destruct (foldl_retry_one_requests sql api tmdbAPIKey id seasons
                (collect_seasons 0 seasons) (omniRetry results) (results, w2) Hkey Hrefs)
      as (ns & Hlen & Hcalls & Hmade).
    exists ns. split; [done|]. split.
    + rewrite Hcalls. cbn [snd]. f_equal. f_equal.
      apply zip_with_ext_l. intros i n _. unfold retry_requests.
      destruct (collect_seasons 0 seasons !! i) as [r|] eqn:Hr; [|done].
      rewrite Habs; [done|]. by eapply list_elem_of_lookup_2.
    + intros p i r n Hp Hr Hn. rewrite <- Habs by (by eapply list_elem_of_lookup_2).
      by eapply Hmade.
Qed.

End OmniseasonProps.

(** *** Examples *)

(** The show of the examples, never checked before: the retry list of its
    first round has no repetition, and the one result of that round, for
    the episode of season 3, is not-found because the API answered 404. *)
Lemma omniseason_retry_witness :
  NoDup (omniRetry
           (fetch_round toy_sql flat_api "key" 1399
              (collect_seasons 0 (Seasons (toy_show None))) toy_world).1)
  ∧ answered_404 flat_api 1399 3 1.
Proof.
  pose proof (omniseason_retry toy_sql flat_api "key" 1399 (Seasons (toy_show None))
                toy_world ltac:(discriminate)
                ltac:(apply (bool_decide_unpack _); vm_compute; exact I))
    as ((_ & _ & Hnf) & _ & (Hnd & _) & _ & _ & _).
  split; [exact Hnd|].
  pose proof (Hnf 0%nat _ eq_refl) as H0. exact (proj1 H0 eq_refl).
Defined.

(** The scenario of the design document: seasons 1 and 2 have 24 episodes
    each, the only episode requested for season 3 is its episode 1, and the
    API answers 404 for season 3. The gate asks for season 3 episode 1, then
    for season 1 episode 49, and the episode gets the image found there. *)
Example omniseason_scenario :
  episodes_before (Seasons (toy_show None)) 2 = 48
  ∧ calls (maybeFetchEpisodes toy_sql flat_api "key" 0 (toy_show None) toy_world).2
    = [CallEpisode 1399 3 1; CallEpisode 1399 1 49]
  ∧ (Seasons (maybeFetchEpisodes toy_sql flat_api "key" 0 (toy_show None) toy_world).1
       !! 2%nat) ≫= (λ s, ep_ImageURL <$> Episodes s !! 0%nat)
    = Some (Some "https://image.tmdb.org/t/p/w400/still.jpg").
Proof. vm_compute. done. Qed.


Example cooldown_scenario :
  calls (maybeFetchEpisodes toy_sql flat_api "key" 3600000000000
           (toy_show (Some 0)) toy_world).2 = []
  ∧ calls (maybeFetchEpisodes toy_sql flat_api "key" (25 * 3600000000000)
             (toy_show (Some 0)) toy_world).2
    = [CallEpisode 1399 3 1; CallEpisode 1399 1 49].
Proof. vm_compute. done. Qed.

(** [stripEpisodeSentinels] leaves no episode-level sentinel. *)
Lemma stripEpisodeSentinels_clean show s ep :
  s ∈ Seasons (stripEpisodeSentinels show) → ep ∈ Episodes s →
  ep_ImageURL ep ≠ Some episode_sentinel.
Proof.
  unfold stripEpisodeSentinels. simpl. intros Hs Hep.
  apply list_elem_of_fmap in Hs as (s0 & -> & _). simpl in Hep.
  apply list_elem_of_fmap in Hep as (ep0 & -> & _).
  unfold strip_episode.
  destruct (ep_ImageURL ep0) as [u|] eqn:Hu; [|by rewrite Hu].
  destruct (String.eqb u "TMDB_NOT_FOUND_DO_NOT_RETRY") eqn:Hs; [done|].
  apply String.eqb_neq in Hs. rewrite Hu. unfold episode_sentinel. congruence.
Qed.

(** C3 fails for the title-level sentinel. A lookup that finds no poster
    stores ['none'] in [image_url]; the list handler hands an item that holds
    it to the template as it is, having made no request, and so does the
    movie page. *)
Theorem title_sentinel_reaches_templates :
  Store.image_url <$>
    titles (fetchAndStoreTMDBImage toy_sql posterless_api "key" "tt0000002" "movie"
              unfetched_world).2 !! 2
  = Some (Some title_sentinel)
  ∧ handleTitlesList toy_sql posterless_api "key" [toy_item (Some title_sentinel)] toy_world
    = ([toy_item (Some title_sentinel)], toy_world)
  ∧ ImageURL (handleMoviePage toy_sql Float.trunc posterless_api "key" toy_movie toy_world).1
    = Some title_sentinel.
Proof. vm_compute. done. Qed.

(** The episode-level sentinel is stripped on the list page and, for a show
    within its cooldown, on the show page. *)
Example episode_sentinel_stripped :
  li_ImageURL <$>
    (handleTitlesList toy_sql posterless_api "key" [toy_item (Some episode_sentinel)]
       toy_world).1
  = [None]
  ∧ (λ s, ep_ImageURL <$> Episodes s) <$>
      Seasons (maybeFetchEpisodes toy_sql flat_api "key" 1
                 {| show_Title := show_Title (toy_show (Some 0));
                    Seasons := Seasons sentinel_show |} toy_world).1
    = [[None]].
Proof. vm_compute. done. Qed.

(** Without an API key [maybeFetchEpisodes] returns before it strips. *)
Example episode_sentinel_without_key :
  (λ s, ep_ImageURL <$> Episodes s) <$>
    Seasons (maybeFetchEpisodes toy_sql flat_api "" 1 sentinel_show toy_world).1
  = [[Some episode_sentinel]].
Proof. vm_compute. done. Qed.

(** *** The episode fetch *)

Section EpisodeFetchProps.
Context (sql : Sql) (api : Api) (tmdbAPIKey : string).

Lemma get_episode_attempts left attempt id sn en w :
  ∃ n, (1 ≤ n ≤ S left)%nat
    ∧ calls (get_episode api left attempt id sn en w).2
      = calls w ++ replicate n (CallEpisode id sn en)
    ∧ (get_episode api left attempt id sn en w).1
      = episode api id sn en (attempt + n - 1)%nat
    ∧ (∀ k, (S k < n)%nat →
         ∃ e okd, episode api id sn en (attempt + k)%nat = Resp 429 e okd)
    ∧ titles (get_episode api left attempt id sn en w).2 = titles w
    ∧ show_episodes (get_episode api left attempt id sn en w).2 = show_episodes w.
Proof.
  revert attempt w. induction left as [|left IH]; intros attempt w; simpl.
  - exists 1%nat. split; [lia|]. split; [done|].
    split; [by replace (attempt + 1 - 1)%nat with attempt by lia|].
    split; [intros k ?; lia|done].
  - destruct (episode api id sn en attempt) as [|status ep okd] eqn:Hresp.
    + exists 1%nat. split; [lia|]. split; [done|].
      split; [by replace (attempt + 1 - 1)%nat with attempt by lia|]. split; [intros k ?; lia|done].
    + case_decide as Hs.
      * destruct (IH (S attempt) (called (CallEpisode id sn en) w))
          as (n & Hn & Hcalls & Hlast & Hthr & Ht & He).
        exists (S n). split; [lia|]. rewrite Hcalls, Hlast, Ht, He. simpl.
        split; [by rewrite <- app_assoc|].
        split; [f_equal; lia|]. split; [|done].
        intros [|k] Hk.
        -- rewrite Nat.add_0_r, Hresp, Hs. by eauto.
        -- replace (attempt + S k)%nat with (S attempt + k)%nat by lia.
           apply Hthr. lia.
      * exists 1%nat. split; [lia|]. split; [done|].
        split; [by replace (attempt + 1 - 1)%nat with attempt by lia|]. split; [intros k ?; lia|done].
Qed.

(** One episode costs at most three requests, all for the same episode,
    and a request is repeated only after an answer of 429. Without an API
    key nothing is requested and nothing is written. The [titles] table is
    never touched, and in [show_episodes] only the row of the episode can
    change. *)
Theorem episode_fetch_retries_only_on_429 id sn en epID w :
  let r := fetchAndStoreEpisodeData sql api tmdbAPIKey id sn en epID w in
  (tmdbAPIKey = "" → r.2 = w)
  ∧ (tmdbAPIKey ≠ "" →
       ∃ n, (1 ≤ n ≤ 3)%nat
         ∧ calls r.2 = calls w ++ replicate n (CallEpisode id sn en)
         ∧ ∀ k, (S k < n)%nat → ∃ e okd, episode api id sn en k = Resp 429 e okd)
  ∧ titles r.2 = titles w
  ∧ ∀ id', id' ≠ epID → show_episodes r.2 !! id' = show_episodes w !! id'.
Proof.
  cbv zeta. unfold fetchAndStoreEpisodeData.
  destruct (String.eqb tmdbAPIKey "") eqn:Hkey.
  { apply String.eqb_eq in Hkey. repeat split; (done || lia). }
  apply String.eqb_neq in Hkey.
  destruct (get_episode_attempts 2 0 id sn en w) as (n & Hn & Hcalls & _ & Hthr & Ht & He).
  destruct (get_episode api 2 0 id sn en w) as [resp w1]. cbn [fst snd] in *.
  assert (∀ d : epData,
            (tmdbAPIKey = "" → (d, w1).2 = w)
            ∧ (tmdbAPIKey ≠ "" →
                 ∃ n, (1 ≤ n ≤ 3)%nat
                   ∧ calls (d, w1).2 = calls w ++ replicate n (CallEpisode id sn en)
                   ∧ ∀ k, (S k < n)%nat →
                       ∃ e okd, episode api id sn en k = Resp 429 e okd)
            ∧ titles (d, w1).2 = titles w
            ∧ ∀ id', id' ≠ epID → show_episodes (d, w1).2 !! id' = show_episodes w !! id')
    as Hsame.
  { intros d. split; [done|]. split; [|split; [done|intros id' _; simpl; by rewrite He]].
    intros _. exists n. repeat split; (done || lia). }
  destruct resp as [|status ep okd]; [apply Hsame|].
  case_decide; [apply Hsame|].
  destruct (negb (bool_decide (status = 200))); [apply Hsame|].
  destruct (negb okd); [apply Hsame|].
  destruct (update_by_id _ epID (show_episodes w1)) as [tbl|] eqn:Hup; [|apply Hsame].
  cbn [fst snd]. split; [done|]. split; [|split; [done|]].
  - intros _. exists n. repeat split; (done || lia).
  - intros id' Hne. simpl. rewrite <- He.
    unfold update_by_id in Hup.
    destruct (show_episodes w1 !! epID) as [row|]; [|by simplify_eq].
    destruct (episode_update _ _ _ _ _ _ row); [|done].
    simplify_eq. by rewrite lookup_insert_ne.
Qed.

End EpisodeFetchProps.

Lemma append_nonempty (a b : string) : a ≠ "" → a +:+ b ≠ "".
Proof. destruct a; [done|]. by intros _. Qed.

Section EpisodeStoreProps.
Context (sql : Sql) (api : Api) (tmdbAPIKey : string).

(** What an episode fetch leaves in the store. The row of the episode is
    written only when the fetch reports [ok], and a written row never has
    an empty image: it holds the still of the episode or, when TMDB has
    none, the sentinel, so that the episode is not taken for one that was
    never looked up. A fetch that reports not-found has written nothing,
    and no fetch reports both. *)
Theorem episode_fetch_stores_image_or_sentinel id sn en epID w :
  let r := fetchAndStoreEpisodeData sql api tmdbAPIKey id sn en epID w in
  (d_ok r.1 = true →
     d_notFound r.1 = false
     ∧ ∀ row, show_episodes w !! epID = Some row →
         ∃ row', show_episodes r.2 !! epID = Some row'
           ∧ Server.image_url row'
             = Some (if String.eqb (d_imageURL r.1) "" then episode_sentinel
                     else d_imageURL r.1)
           ∧ Server.image_url row' ≠ Some "")
  ∧ (d_ok r.1 = false → show_episodes r.2 = show_episodes w)
  ∧ (d_notFound r.1 = true → d_ok r.1 = false ∧ d_imageURL r.1 = "").
Proof.
  cbv zeta. unfold fetchAndStoreEpisodeData.
  destruct (String.eqb tmdbAPIKey ""); [done|].
  destruct (get_episode_calls api 2 0 id sn en w) as (n & _ & _ & _ & He).
  destruct (get_episode api 2 0 id sn en w) as [resp w1]. cbn [fst snd] in *.
  destruct resp as [|status ep okd]; [simpl; by rewrite He|].
  case_decide; [simpl; by rewrite He|].
  destruct (negb (bool_decide (status = 200))); [simpl; by rewrite He|].
  destruct (negb okd); [simpl; by rewrite He|].
  unfold update_by_id. rewrite He.
  destruct (show_episodes w !! epID) as [row|] eqn:Hrow.
  2: { simpl. split; [|done]. intros _. split; [done|]. by intros row Hr. }
  destruct (episode_update _ _ _ _ _ _ row) as [row'|] eqn:Hup;
    cbn [fst snd d_ok d_notFound d_imageURL show_episodes with_episodes];
    [|by rewrite He].
  split; [|done]. intros _. split; [done|].
  intros row0 Hr0. simplify_eq.
  exists row'. rewrite lookup_insert_eq. split; [done|].
  unfold episode_update in Hup.
  repeat (case_match; simplify_eq/=); (split; [done|]);
    unfold episode_sentinel; try done.
  all: intros Heq; simplify_eq;
    match goal with H : String.eqb _ "" = false |- _ => apply String.eqb_neq in H end;
    by eapply append_nonempty.
Qed.

End EpisodeStoreProps.

(** *** Sentinels on the show page *)

Lemma strip_episode_idem ep : strip_episode (strip_episode ep) = strip_episode ep.
Proof.
  unfold strip_episode. destruct (ep_ImageURL ep) as [u|] eqn:Hu; [|by rewrite Hu].
  destruct (String.eqb u "TMDB_NOT_FOUND_DO_NOT_RETRY") eqn:Hs; [done|].
  by rewrite Hu, Hs.
Qed.

Lemma strip_episode_keeps ep :
  ep_ImageURL ep ≠ Some episode_sentinel → strip_episode ep = ep.
Proof.
  unfold strip_episode, episode_sentinel. intros Hne.
  destruct (ep_ImageURL ep) as [u|] eqn:Hu; [|done].
  destruct (String.eqb u "TMDB_NOT_FOUND_DO_NOT_RETRY") eqn:Hs; [|done].
  apply String.eqb_eq in Hs. by subst.
Qed.

(** [stripEpisodeSentinels] changes images and nothing else. It keeps the
    title, the seasons and their numbers, the episodes and every field of
    an episode other than its image; an image that is not the sentinel is
    kept and the sentinel becomes nil; and stripping twice is stripping
    once. *)
Theorem stripEpisodeSentinels_only_clears_sentinels show :
  stripEpisodeSentinels (stripEpisodeSentinels show) = stripEpisodeSentinels show
  ∧ show_Title (stripEpisodeSentinels show) = show_Title show
  ∧ SeasonNumber <$> Seasons (stripEpisodeSentinels show) = SeasonNumber <$> Seasons show
  ∧ ∀ si s, Seasons show !! si = Some s →
      ∃ s', Seasons (stripEpisodeSentinels show) !! si = Some s'
        ∧ length (Episodes s') = length (Episodes s)
        ∧ ∀ ei ep, Episodes s !! ei = Some ep →
            ∃ ep', Episodes s' !! ei = Some ep'
              ∧ EpisodeID ep' = EpisodeID ep ∧ EpisodeNumber ep' = EpisodeNumber ep
              ∧ ep_DisplayName ep' = ep_DisplayName ep ∧ ep_AirDate ep' = ep_AirDate ep
              ∧ ep_RuntimeMinutes ep' = ep_RuntimeMinutes ep
              ∧ ep_Synopsis ep' = ep_Synopsis ep
              ∧ ep_ImageURL ep' ≠ Some episode_sentinel
              ∧ (ep_ImageURL ep ≠ Some episode_sentinel → ep' = ep)
              ∧ (ep_ImageURL ep = Some episode_sentinel → ep_ImageURL ep' = None).
Proof.
  unfold stripEpisodeSentinels. cbn [Seasons show_Title].
  split; [|split; [done|split]].
  - f_equal. rewrite <- list_fmap_compose. apply list_fmap_ext. intros _ s _.
    unfold with_episodes_of. cbn. f_equal.
    rewrite <- list_fmap_compose. apply list_fmap_ext. intros _ ep _.
    apply strip_episode_idem.
  - rewrite <- list_fmap_compose. by apply list_fmap_ext.
  - intros si s Hs. rewrite list_lookup_fmap, Hs. eexists. split; [done|].
    cbn. split; [by rewrite length_fmap|].
    intros ei ep Hep. rewrite list_lookup_fmap, Hep. eexists. split; [done|].
    unfold strip_episode, episode_sentinel.
    destruct (ep_ImageURL ep) as [u|] eqn:Hu.
    + destruct (String.eqb u "TMDB_NOT_FOUND_DO_NOT_RETRY") eqn:Hsent.
      * apply String.eqb_eq in Hsent. subst u. cbn. by repeat split.
      * apply String.eqb_neq in Hsent. rewrite Hu. repeat split; congruence.
    + rewrite Hu. by repeat split.
Qed.

Section ShowPageProps.
Context (sql : Sql) (api : Api) (tmdbAPIKey : string) (now : Z).

(** No episode-level sentinel leaves [maybeFetchEpisodes] once the show has
    a TMDB id: whenever the show it returns carries a TMDB id that is not
    zero (the stored one or the one just resolved), no episode of that show
    holds the sentinel as its image, whether the call was inside the
    cooldown, found nothing to fetch, or fetched. *)
Theorem maybeFetchEpisodes_strips_sentinels show w s ep :
  tmdbAPIKey ≠ "" →
  (∃ i, IMDbID (show_Title show) = Some i ∧ i ≠ "") →
  default 0 (TMDBID (show_Title (maybeFetchEpisodes sql api tmdbAPIKey now show w).1)) ≠ 0 →
  s ∈ Seasons (maybeFetchEpisodes sql api tmdbAPIKey now show w).1 →
  ep ∈ Episodes s →
  ep_ImageURL ep ≠ Some episode_sentinel.
Proof.
  intros Hkey (i & Hi & Hne). unfold maybeFetchEpisodes.
  apply String.eqb_neq in Hkey, Hne. rewrite Hkey, Hi, Hne.
  destruct (decide (default 0 (TMDBID (show_Title show)) = 0)) as [Hz|Hnz].
  - destruct (fetchAndStoreTMDBImage sql api tmdbAPIKey i "show" w) as [[url id] w'].
    cbv beta iota zeta.
    destruct (decide (id = 0)) as [->|Hid].
    + simpl. by rewrite Hz.
    + destruct (in_cooldown _ _); [intros _; apply stripEpisodeSentinels_clean|].
      destruct (collect_seasons 0 _) eqn:Hc; [intros _; apply stripEpisodeSentinels_clean|].
      rewrite <- Hc. clear Hc.
      repeat match goal with
             | |- context [let '(_, _) := ?e in _] => destruct e
             end.
      intros _. apply stripEpisodeSentinels_clean.
  - cbv beta iota zeta. rewrite decide_False by done.
    destruct (in_cooldown _ _); [intros _; apply stripEpisodeSentinels_clean|].
    destruct (collect_seasons 0 _) eqn:Hc; [intros _; apply stripEpisodeSentinels_clean|].
    rewrite <- Hc. clear Hc.
    repeat match goal with
           | |- context [let '(_, _) := ?e in _] => destruct e
           end.
    intros _. apply stripEpisodeSentinels_clean.
Qed.

End ShowPageProps.

Lemma update_by_imdb_id_lookup f imdbID (tbl tbl' : gmap Z TitleRow) tid row :
  update_by_imdb_id f imdbID tbl = Some tbl' →
  tbl !! tid = Some row → imdb_id row = Some imdbID →
  ∃ row', f row = Some row' ∧ tbl' !! tid = Some row'.
Proof.
  unfold update_by_imdb_id. intros H Hrow Hid.
  destruct (bool_decide (map_Exists _ tbl)) eqn:Hex; [done|]. simplify_eq.
  apply bool_decide_eq_false in Hex.
  destruct (f row) as [row'|] eqn:Hf.
  - exists row'. split; [done|]. rewrite lookup_fmap, Hrow. simpl.
    by rewrite decide_True, Hf.
  - destruct Hex. by exists tid, row.
Qed.

Lemma find_update_image sql image p row row' :
  find_update sql image p row = Some row' →
  Store.image_url row' = Some image ∧ imdb_id row' = imdb_id row
  ∧ needs_backfill_tmdb row' = Some false ∧ tmdb_id row' = Some (tmdbID p).
Proof.
  unfold find_update. intros H. repeat (case_match; simplify_eq/=); done.
Qed.

Section FindCache.
Context (sql : Sql) (api : Api) (tmdbAPIKey : string).

(** What [fetchAndStoreTMDBImage] does after a Find answer that decodes. *)
Lemma fetchAndStoreTMDBImage_found imdbID titleType w result :
  tmdbAPIKey ≠ "" → imdbID ≠ "" →
  find api imdbID = Resp 200 result true →
  let p := with_detail_country api tmdbAPIKey titleType (pick titleType result) in
  let r := fetchAndStoreTMDBImage sql api tmdbAPIKey imdbID titleType w in
  r.1 = (if String.eqb (posterPath p) "" then "" else poster_base +:+ posterPath p, tmdbID p)
  ∧ titles r.2
    = default (titles w)
        (update_by_imdb_id (find_update sql (stored_image p) p) imdbID (titles w)).
Proof.
  intros Hkey Hid Hfind. cbv zeta. unfold fetchAndStoreTMDBImage, with_detail_country.
  apply String.eqb_neq in Hkey, Hid. rewrite Hkey, Hid, Hfind. cbn [orb negb andb].
  rewrite andb_true_r.
  set (p0 := pick titleType result).
  destruct (String.eqb (originCountry p0) "" && negb (bool_decide (tmdbID p0 = 0))).
  - set (p := match detail api _ _ with Resp 200 d true => _ | _ => p0 end).
    unfold stored_image.
    destruct (String.eqb (posterPath p) ""); cbn [fst snd]; (split; [done|]);
      cbn [called titles];
      by destruct (update_by_imdb_id _ imdbID (titles w)).
  - unfold stored_image.
    destruct (String.eqb (posterPath p0) ""); cbn [fst snd]; (split; [done|]);
      cbn [called titles];
      by destruct (update_by_imdb_id _ imdbID (titles w)).
Qed.

Lemma stored_image_nonempty p : stored_image p ≠ "".
Proof.
  unfold stored_image. destruct (String.eqb (posterPath p) "") eqn:Hp; [done|].
  apply String.eqb_neq in Hp. by apply append_nonempty.
Qed.


End FindCache.

Lemma maybeFetchEpisodes_strips_sentinels_witness :
  Forall (λ s, Forall (λ ep, ep_ImageURL ep ≠ Some episode_sentinel) (Episodes s))
    (Seasons (maybeFetchEpisodes toy_sql flat_api "key" 1 Samples.cooling_sentinel_show toy_world).1).
Proof.
  apply Forall_forall. intros s Hs. apply Forall_forall. intros ep Hep.
  refine (maybeFetchEpisodes_strips_sentinels toy_sql flat_api "key" 1
            Samples.cooling_sentinel_show toy_world s ep _ _ _ Hs Hep).
  - discriminate.
  - exists "tt0000001". split; [reflexivity|discriminate].
  - vm_compute. discriminate.
Defined.


End ServerProps.

(** ** The backfill UPDATE of both programs *)

Module MergeProps.
Import Store TMDB.
Local Open Scope Z_scope.

Lemma keeps_or_takes_if {A} (P : Prop) (b : bool) (taken old : option A) :
  (b = true ↔ P) → (b = false → is_Some taken) →
  keeps_or_takes P taken old (if b then old else taken).
Proof.
  intros Hb Hsome. split.
  - intros HP. apply Hb in HP. by rewrite HP.
  - intros HnP. destruct b; [by destruct HnP; apply Hb|]. split; [done|by apply Hsome].
Qed.

Lemma coalesce_nullif_varchar10_spec sql new old r :
  coalesce_nullif_varchar10 sql new old = Some r →
  keeps_or_takes (new = "") (to_varchar10 sql new) old r.
Proof.
  unfold coalesce_nullif_varchar10. intros H.
  destruct (String.eqb new "") eqn:Hn.
  - apply String.eqb_eq in Hn. simplify_eq. split; [done|]. by intros [].
  - apply String.eqb_neq in Hn.
    destruct (to_varchar10 sql new) as [v|]; simplify_eq/=.
    split; [done|]. intros _. split; [done|by eexists].
Qed.

Lemma coalesce_date_spec sql new (old : option string) r :
  (if String.eqb new "" then Some old else Some <$> to_date sql new) = Some r →
  keeps_or_takes (new = "") (to_date sql new) old r.
Proof.
  intros H. destruct (String.eqb new "") eqn:Hn.
  - apply String.eqb_eq in Hn. simplify_eq. split; [done|]. by intros [].
  - apply String.eqb_neq in Hn.
    destruct (to_date sql new) as [v|]; simplify_eq/=.
    split; [done|]. intros _. split; [done|by eexists].
Qed.

(** What the UPDATE at the end of both backfill paths does to a row. *)
Lemma backfill_update_merge sql a row row' :
  backfill_update sql a row = Some row' → merge_policy sql a row row'.
Proof.
  unfold backfill_update, merge_policy. intros H.
  destruct (negb _); [done|].
  destruct (Float.cast_real (arg_popularity a)) as [p|] eqn:Hp; [|done].
  destruct (coalesce_nullif_varchar10 sql (arg_originalLanguage a) (original_language row))
    as [language|] eqn:Hl; [|done].
  destruct (coalesce_nullif_varchar10 sql (arg_originCountry a) (origin_country row))
    as [country|] eqn:Hc; [|done].
  apply coalesce_nullif_varchar10_spec in Hl, Hc.
  destruct (if String.eqb (arg_releaseDate a) "" then _ else _) as [date|] eqn:Hd; [|done].
  apply coalesce_date_spec in Hd. simplify_eq. simpl.
  split; [done|]. split.
  { apply keeps_or_takes_if; [apply String.eqb_eq | by eexists]. }
  split; [done|]. split; [done|]. split.
  { apply keeps_or_takes_if; [|by eexists].
    split; [intros Hz; by exists p | intros (p' & ? & ?); by simplify_eq]. }
  split; [done|]. split.
  { destruct (decide (arg_runtime a = 0)) as [Hr|Hr]; by split. }
  done.
Qed.

(** The scheduler's success branch: the id of the Details request is the
    stored id when there is one and the id the Find API gave otherwise, and
    the UPDATE runs with that id on the row of [r]. *)
Lemma process_row_merge sql iof api st r imdbID id cs1 d ok row :
  Backfill.ImdbID r = Some imdbID → imdbID ≠ "" →
  Backfill.resolve_tmdbID api r imdbID (Backfill.calls st) = (id, cs1) →
  id ≠ 0 →
  Backfill.detail api (length cs1) (String.eqb (Backfill.Type_ r) "show") id = Resp 200 d ok →
  Backfill.titles st !! Backfill.ID r = Some row →
  (default 0 (Backfill.TmdbID r) ≠ 0 → id = default 0 (Backfill.TmdbID r))
  ∧ (default 0 (Backfill.TmdbID r) = 0 →
       ∃ result, Backfill.find api (length (Backfill.calls st)) imdbID = Resp 200 result true
         ∧ id = pick_id (Backfill.Type_ r) result)
  ∧ Backfill.calls (Backfill.process_row sql iof api st r)
    = cs1 ++ [Backfill.CallDetail (String.eqb (Backfill.Type_ r) "show") id]
  ∧ match backfill_update sql (backfill_args iof id d) row with
    | Some row' =>
        Backfill.titles (Backfill.process_row sql iof api st r)
        = <[Backfill.ID r := row']> (Backfill.titles st)
        ∧ tmdb_id row' = Some id
        ∧ needs_backfill_tmdb row' = Some false
    | None =>
        Backfill.titles (Backfill.process_row sql iof api st r) = Backfill.titles st
    end.
Proof.
  intros Hi Hne Hres Hid Hdet Hrow.
  split; [|split].
  - intros Hs. unfold Backfill.resolve_tmdbID in Hres.
    rewrite decide_False in Hres by done. by simplify_eq.
  - intros Hz. unfold Backfill.resolve_tmdbID in Hres.
    rewrite decide_True in Hres by done. simplify_eq.
    destruct (Backfill.find api (length (Backfill.calls st)) imdbID)
      as [|status result ok']; [done|].
    destruct (decide (status = 200)) as [->|Hs].
    + destruct ok'; [by exists result|done].
    + exfalso. apply Hid. clear -Hs. by repeat (case_match; try done).
  - unfold Backfill.process_row. rewrite Hi.
    rewrite (proj2 (String.eqb_neq _ _) Hne), Hres.
    rewrite decide_False by done. rewrite Hdet. rewrite decide_True by done.
    unfold update_by_id. rewrite Hrow.
    destruct (backfill_update sql _ row) as [row'|] eqn:Hup; simpl; [|done].
    split; [done|]. split; [done|].
    apply backfill_update_merge in Hup. split; apply Hup.
Qed.

(** The same branch of [maybeTMDBBackfill]; here a body that does not
    decode ends the call before the UPDATE. *)
Lemma maybeTMDBBackfill_merge sql iof api key title w imdbID id d row :
  Server.NeedsBackfillTMDB title = true → key ≠ "" →
  Server.IMDbID title = Some imdbID → imdbID ≠ "" →
  (if decide (default 0 (Server.TMDBID title) = 0)
   then ∃ result, Server.find api imdbID = Resp 200 result true
          ∧ id = pick_id (Server.Type_ title) result
   else id = default 0 (Server.TMDBID title)) →
  id ≠ 0 →
  Server.detail api (String.eqb (Server.Type_ title) "show") id = Resp 200 d true →
  Server.titles w !! Server.TitleID title = Some row →
  last (Server.calls (Server.maybeTMDBBackfill sql iof api key title w).2)
  = Some (Server.CallDetail (String.eqb (Server.Type_ title) "show") id)
  ∧ match backfill_update sql (backfill_args iof id d) row with
    | Some row' =>
        Server.titles (Server.maybeTMDBBackfill sql iof api key title w).2
        = <[Server.TitleID title := row']> (Server.titles w)
        ∧ tmdb_id row' = Some id
        ∧ needs_backfill_tmdb row' = Some false
        ∧ Server.TMDBID (Server.maybeTMDBBackfill sql iof api key title w).1 = Some id
        ∧ Server.NeedsBackfillTMDB (Server.maybeTMDBBackfill sql iof api key title w).1
          = false
    | None =>
        Server.titles (Server.maybeTMDBBackfill sql iof api key title w).2
        = Server.titles w
    end.
Proof.
  intros Hflag Hkey Hi Hne Hid Hnz Hdet Hrow.
  unfold Server.maybeTMDBBackfill.
  rewrite Hflag, (proj2 (String.eqb_neq _ _) Hkey), Hi, (proj2 (String.eqb_neq _ _) Hne).
  cbn [negb orb]. cbv zeta.
  assert (∃ w1,
            (if decide (default 0 (Server.TMDBID title) = 0)
             then match Server.find api imdbID with
                  | Resp 200 result true =>
                      Some (pick_id (Server.Type_ title) result,
                            Server.called (Server.CallFind imdbID) w)
                  | _ => None
                  end
             else Some (default 0 (Server.TMDBID title), w)) = Some (id, w1)
            ∧ Server.titles w1 = Server.titles w) as (w1 & -> & Ht).
  { destruct (decide (default 0 (Server.TMDBID title) = 0)).
    - destruct Hid as (result & -> & ->). by eexists.
    - subst id. by eexists. }
  rewrite decide_False by done. rewrite Hdet. cbn [bool_decide negb].
  rewrite bool_decide_eq_true_2 by done. cbn [negb].
  unfold update_by_id. cbn [Server.called Server.titles]. rewrite Ht, Hrow.
  destruct (backfill_update sql _ row) as [row'|] eqn:Hup; cbn [fst snd].
  - split; [simpl; by rewrite last_snoc|]. split; [done|].
    apply backfill_update_merge in Hup. split; [apply Hup|]. split; [apply Hup|done].
  - split; [simpl; by rewrite last_snoc|done].
Qed.

(** C1, as the code has it. Both backfill paths end in the same UPDATE.
    (1) For each of image_url, original_language, release_date,
    tmdb_popularity, origin_country and runtime_minutes the UPDATE keeps the
    stored value when the fetched value is empty (or zero), and otherwise
    stores the fetched value, whatever was there before; it sets tmdb_id to
    its first argument and clears the flag. (2) In the scheduler a row whose
    Details request is answered 200 goes through that UPDATE with the id of
    the request, which is the stored id when that is not zero and the id
    the Find API gave otherwise; a failed UPDATE leaves the table as it
    was. (3) The same holds of [maybeTMDBBackfill] when the answer
    decodes. *)
Theorem backfill_merge_takes_fetched_unless_empty sql iof :
  (∀ a row row', backfill_update sql a row = Some row' → merge_policy sql a row row')
  ∧ (∀ api st r imdbID id cs1 d ok row,
       Backfill.ImdbID r = Some imdbID → imdbID ≠ "" →
       Backfill.resolve_tmdbID api r imdbID (Backfill.calls st) = (id, cs1) →
       id ≠ 0 →
       Backfill.detail api (length cs1) (String.eqb (Backfill.Type_ r) "show") id
       = Resp 200 d ok →
       Backfill.titles st !! Backfill.ID r = Some row →
       (default 0 (Backfill.TmdbID r) ≠ 0 → id = default 0 (Backfill.TmdbID r))
       ∧ (default 0 (Backfill.TmdbID r) = 0 →
            ∃ result,
              Backfill.find api (length (Backfill.calls st)) imdbID = Resp 200 result true
              ∧ id = pick_id (Backfill.Type_ r) result)
       ∧ Backfill.calls (Backfill.process_row sql iof api st r)
         = cs1 ++ [Backfill.CallDetail (String.eqb (Backfill.Type_ r) "show") id]
       ∧ match backfill_update sql (backfill_args iof id d) row with
         | Some row' =>
             Backfill.titles (Backfill.process_row sql iof api st r)
             = <[Backfill.ID r := row']> (Backfill.titles st)
             ∧ tmdb_id row' = Some id
             ∧ needs_backfill_tmdb row' = Some false
         | None =>
             Backfill.titles (Backfill.process_row sql iof api st r) = Backfill.titles st
         end)
  ∧ (∀ api key title w imdbID id d row,
       Server.NeedsBackfillTMDB title = true → key ≠ "" →
       Server.IMDbID title = Some imdbID → imdbID ≠ "" →
       (if decide (default 0 (Server.TMDBID title) = 0)
        then ∃ result, Server.find api imdbID = Resp 200 result true
               ∧ id = pick_id (Server.Type_ title) result
        else id = default 0 (Server.TMDBID title)) →
       id ≠ 0 →
       Server.detail api (String.eqb (Server.Type_ title) "show") id = Resp 200 d true →
       Server.titles w !! Server.TitleID title = Some row →
       last (Server.calls (Server.maybeTMDBBackfill sql iof api key title w).2)
       = Some (Server.CallDetail (String.eqb (Server.Type_ title) "show") id)
       ∧ match backfill_update sql (backfill_args iof id d) row with
         | Some row' =>
             Server.titles (Server.maybeTMDBBackfill sql iof api key title w).2
             = <[Server.TitleID title := row']> (Server.titles w)
             ∧ tmdb_id row' = Some id
             ∧ needs_backfill_tmdb row' = Some false
             ∧ Server.TMDBID (Server.maybeTMDBBackfill sql iof api key title w).1 = Some id
             ∧ Server.NeedsBackfillTMDB
                 (Server.maybeTMDBBackfill sql iof api key title w).1 = false
         | None =>
             Server.titles (Server.maybeTMDBBackfill sql iof api key title w).2
             = Server.titles w
         end).
Proof.
  split; [apply backfill_update_merge|].
  split; [apply process_row_merge|apply maybeTMDBBackfill_merge].
Qed.

(** C1 as stated fails: the UPDATE replaces a poster that is there. *)
Lemma backfill_update_overwrites_image :
  ¬ (∀ sql a row row',
       backfill_update sql a row = Some row' →
       real_text (image_url row) → image_url row' = image_url row).
Proof.
  intros H.
  specialize (H toy_sql new_poster_args Backfill.toy_row _ eq_refl).
  discriminate H. by eexists.
Qed.

(** The UPDATE with a new poster and nothing else, on a row whose columns
    are set; and the scheduler on that row, whose stored id 603 is the id
    of the request and of the UPDATE. *)
Lemma backfill_merge_takes_fetched_unless_empty_witness :
  merge_policy toy_sql new_poster_args Backfill.toy_row
    (default Backfill.toy_row (backfill_update toy_sql new_poster_args Backfill.toy_row))
  ∧ Backfill.calls
      (Backfill.process_row toy_sql Float.trunc (Backfill.toy_api 200 Backfill.poster_detail)
         Backfill.toy_state Backfill.toy_backfillRow)
    = [Backfill.CallDetail false 603].
Proof.
  split.
  - refine (proj1 (backfill_merge_takes_fetched_unless_empty toy_sql Float.trunc) _ _ _ _).
    reflexivity.
  - refine (proj1 (proj2 (proj2
              (proj1 (proj2 (backfill_merge_takes_fetched_unless_empty toy_sql Float.trunc))
                 (Backfill.toy_api 200 Backfill.poster_detail) Backfill.toy_state
                 Backfill.toy_backfillRow "tt01" 603 [] Backfill.poster_detail true
                 Backfill.toy_row _ _ _ _ _ _)))); try reflexivity; discriminate.
Defined.

(** The scheduler on a row that has a poster and a language, when the
    details carry other ones: both are replaced; the release date, the
    country and the runtime, which the details lack, are kept. *)
Example process_row_replaces_poster :
  let st := Backfill.process_row toy_sql Float.trunc (Backfill.toy_api 200 Backfill.poster_detail)
              Backfill.toy_state Backfill.toy_backfillRow in
  (λ row, (image_url row, original_language row, release_date row, origin_country row,
           runtime_minutes row, needs_backfill_tmdb row)) <$> Backfill.titles st !! 1
  = Some (Some "https://image.tmdb.org/t/p/w500/new.jpg", Some "fr", Some "1999-03-31",
          Some "US", Some 136, Some false).
Proof. vm_compute. done. Qed.

(** The same on the server: the page of a flagged movie that has a poster
    shows the fetched one and stores it. *)
Example maybeTMDBBackfill_replaces_poster :
  let r := Server.maybeTMDBBackfill toy_sql Float.trunc (Server.detail_api Backfill.poster_detail)
             "key" Server.flagged_movie Server.flagged_world in
  Server.ImageURL r.1 = Some "https://image.tmdb.org/t/p/w500/new.jpg"
  ∧ image_url <$> Server.titles r.2 !! 1 = Some (Some "https://image.tmdb.org/t/p/w500/new.jpg").
Proof. vm_compute. done. Qed.

End MergeProps.

(** ** The scan of [syncTitles] *)

Module SyncTitlesProps.
Import SyncTitles.
Local Open Scope Z_scope.

Lemma intsEqual_true_iff a b : intsEqual a b = true ↔ a = b.
Proof.
  destruct a, b; simpl; try (split; congruence).
  rewrite bool_decide_eq_true. split; congruence.
Qed.

Lemma needsUpdate_false_iff existing r :
  needsUpdate existing (r_DisplayName r) (r_StartYear r) (r_EndYear r)
    (r_OriginalTitle r) (r_RuntimeMinutes r) = false
  ↔ same_columns existing r.
Proof.
  unfold needsUpdate, same_columns.
  rewrite !orb_false_iff, !negb_false_iff, !intsEqual_true_iff, !String.eqb_eq.
  tauto.
Qed.

Section ScanProps.
Context (existingTitles : gmap string ExistingTitle)
        (existingMovies existingShows : gmap Z bool).

Local Abbreviation scan_line := (scan_line existingTitles existingMovies existingShows).
Local Abbreviation scan := (scan existingTitles existingMovies existingShows).

Lemma scan_snoc lines line st :
  scan (lines ++ [line]) st = scan_line (scan lines st) line.
Proof. unfold scan. by rewrite foldl_app. Qed.

(** Every line is accounted for once. Lines with fewer than nine fields
    move no counter; every other line is counted as an episode title, as
    ignored or as scanned; and every scanned line is counted unchanged or
    queued in exactly one of the two lists. *)
Theorem syncTitles_scan_accounts_for_every_line et tg lines :
  let st := scan lines (scan_init et tg) in
  episodeCount st + ignored st + scanned st
  = Z.of_nat (length (filter (λ l, has_nine_fields l = true) lines))
  ∧ scanned st
    = unchanged st + Z.of_nat (length (toInsert st)) + Z.of_nat (length (toUpdate st))
  ∧ 0 ≤ episodeCount st ∧ 0 ≤ ignored st ∧ 0 ≤ unchanged st.
Proof.
  induction lines as [|line lines IH] using rev_ind; [done|].
  rewrite scan_snoc. cbv zeta in *.
  set (st := scan lines (scan_init et tg)) in *.
  rewrite filter_app, length_app.
  replace (length (filter (λ l, has_nine_fields l = true) [line]))
    with (if bool_decide (9 ≤ length (Go.Split line Go.tab))%nat then 1%nat else 0%nat)
    by (rewrite filter_cons, filter_nil; unfold has_nine_fields;
        case_decide as Hd; destruct (bool_decide _); done).
  set (n := length (filter _ lines)) in *.
  destruct IH as (IH1 & IH2 & ? & ? & ?).
  unfold SyncTitles.scan_line.
  destruct (Go.Split line Go.tab) as [|f0 [|f1 [|f2 [|f3 [|f4 [|f5 [|f6 [|f7 [|f8 fs]]]]]]]]];
    cbn [length];
    try (rewrite bool_decide_eq_false_2 by lia; repeat split; lia).
  rewrite bool_decide_eq_true_2 by lia.
  destruct (String.eqb f1 "tvEpisode"); [simpl; repeat split; lia|].
  destruct (ourType f1); [|simpl; repeat split; lia].
  destruct (existingTitles !! f0); [|simpl; rewrite length_app; simpl; repeat split; lia].
  destruct (needsUpdate _ _ _ _ _ _); simpl; rewrite ?length_app; simpl; repeat split; lia.
Qed.

(** What a line with a record does to the two lists and to [unchanged]. *)
Lemma scan_line_record st line r :
  record_of_line line = Some r →
  match existingTitles !! r_ImdbID r with
  | None =>
      toInsert (scan_line st line) = toInsert st ++ [r]
      ∧ toUpdate (scan_line st line) = toUpdate st
      ∧ unchanged (scan_line st line) = unchanged st
  | Some existing =>
      toInsert (scan_line st line) = toInsert st
      ∧ (if needsUpdate existing (r_DisplayName r) (r_StartYear r) (r_EndYear r)
              (r_OriginalTitle r) (r_RuntimeMinutes r)
         then toUpdate (scan_line st line) = toUpdate st ++ [r]
              ∧ unchanged (scan_line st line) = unchanged st
         else toUpdate (scan_line st line) = toUpdate st
              ∧ unchanged (scan_line st line) = unchanged st + 1)
  end
  ∧ scanned (scan_line st line) = scanned st + 1.
Proof.
  unfold record_of_line, SyncTitles.scan_line. intros Hr.
  destruct (Go.Split line Go.tab) as [|f0 [|f1 [|f2 [|f3 [|f4 [|f5 [|f6 [|f7 [|f8 fs]]]]]]]]];
    try done.
  destruct (String.eqb f1 "tvEpisode"); [done|].
  destruct (ourType f1) as [ty|]; [|done]. simplify_eq. simpl.
  destruct (existingTitles !! f0) as [existing|]; simpl; [|done].
  by destruct (needsUpdate _ _ _ _ _ _).
Qed.

(** A line without a record queues nothing and moves neither [scanned] nor
    [unchanged]. *)
Lemma scan_line_no_record st line :
  record_of_line line = None →
  toInsert (scan_line st line) = toInsert st
  ∧ toUpdate (scan_line st line) = toUpdate st
  ∧ unchanged (scan_line st line) = unchanged st
  ∧ scanned (scan_line st line) = scanned st.
Proof.
  unfold record_of_line, SyncTitles.scan_line. intros Hr.
  destruct (Go.Split line Go.tab) as [|f0 [|f1 [|f2 [|f3 [|f4 [|f5 [|f6 [|f7 [|f8 fs]]]]]]]]];
    try done.
  destruct (String.eqb f1 "tvEpisode"); [done|].
  by destruct (ourType f1).
Qed.

Lemma record_of_line_type line r :
  record_of_line line = Some r → r_Type r = "movie" ∨ r_Type r = "show".
Proof.
  unfold record_of_line, ourType. intros Hr.
  repeat (case_match; simplify_eq/=); auto.
Qed.

(** What the scan queues. A record queued for INSERT is the record of a
    line of the file whose id was not among the loaded titles; a record
    queued for UPDATE is the record of a line whose id was loaded with at
    least one of the five compared columns different; and the type of every
    queued record is one of the two the CHECK constraint of [titles.type]
    admits. *)
Theorem syncTitles_queues_are_justified et tg lines r :
  let st := scan lines (scan_init et tg) in
  (r ∈ toInsert st →
     (∃ line, line ∈ lines ∧ record_of_line line = Some r)
     ∧ existingTitles !! r_ImdbID r = None
     ∧ (r_Type r = "movie" ∨ r_Type r = "show"))
  ∧ (r ∈ toUpdate st →
     (∃ line, line ∈ lines ∧ record_of_line line = Some r)
     ∧ (∃ existing, existingTitles !! r_ImdbID r = Some existing
                    ∧ ¬ same_columns existing r)
     ∧ (r_Type r = "movie" ∨ r_Type r = "show")).
Proof.
  induction lines as [|line lines IH] using rev_ind.
  { split; intros Hin; by apply elem_of_nil in Hin. }
  cbv zeta in *. rewrite scan_snoc.
  set (st := scan lines (scan_init et tg)) in *.
  destruct IH as [IHi IHu].
  assert (∀ P : Prop, (∃ l, l ∈ lines ∧ record_of_line l = Some r) ∧ P →
            (∃ l, l ∈ lines ++ [line] ∧ record_of_line l = Some r) ∧ P) as Hmono.
  { intros P [(l & Hl & ?) ?]. split; [|done]. exists l. split; [|done].
    apply elem_of_app. by left. }
  destruct (record_of_line line) as [r0|] eqn:Hline.
  - pose proof (scan_line_record st line r0 Hline) as [Hcase _].
    pose proof (record_of_line_type _ _ Hline) as Hty.
    assert (∃ l, l ∈ lines ++ [line] ∧ record_of_line l = Some r0) as Hhere.
    { exists line. split; [|done]. apply elem_of_app. right. apply elem_of_cons. by left. }
    destruct (existingTitles !! r_ImdbID r0) as [existing|] eqn:Hex.
    + destruct Hcase as [-> Hcase].
      split; [intros Hin; by apply Hmono, IHi|].
      destruct (needsUpdate _ _ _ _ _ _) eqn:Hnu; destruct Hcase as [-> _];
        [|intros Hin; by apply Hmono, IHu].
      intros Hin. apply elem_of_app in Hin as [Hin|Hin]; [by apply Hmono, IHu|].
      apply elem_of_cons in Hin as [->|Hin]; [|by apply elem_of_nil in Hin].
      split; [done|]. split; [|done]. exists existing. split; [done|].
      intros Hsame. apply needsUpdate_false_iff in Hsame. congruence.
    + destruct Hcase as (-> & -> & _).
      split; [|intros Hin; by apply Hmono, IHu].
      intros Hin. apply elem_of_app in Hin as [Hin|Hin]; [by apply Hmono, IHi|].
      apply elem_of_cons in Hin as [->|Hin]; [|by apply elem_of_nil in Hin].
      done.
  - destruct (scan_line_no_record st line Hline) as (-> & -> & _).
    split; intros Hin; [by apply Hmono, IHi | by apply Hmono, IHu].
Qed.

(** A store that already holds what the file says gets no write: when the
    record of every line names a loaded title with the same five columns,
    the scan queues no INSERT and no UPDATE and counts every scanned line
    unchanged. *)
Theorem syncTitles_in_sync_queues_nothing et tg lines :
  (∀ line r, line ∈ lines → record_of_line line = Some r →
     ∃ existing, existingTitles !! r_ImdbID r = Some existing ∧ same_columns existing r) →
  let st := scan lines (scan_init et tg) in
  toInsert st = [] ∧ toUpdate st = [] ∧ unchanged st = scanned st.
Proof.
  induction lines as [|line lines IH] using rev_ind; [done|].
  intros Hsync. cbv zeta in *. rewrite scan_snoc.
  set (st := scan lines (scan_init et tg)) in *.
  destruct IH as (IHi & IHu & IHc).
  { intros l r Hl. apply Hsync, elem_of_app. by left. }
  destruct (record_of_line line) as [r0|] eqn:Hline.
  - pose proof (scan_line_record st line r0 Hline) as [Hcase Hsc].
    destruct (Hsync line r0) as (existing & Hex & Hsame); [|done|].
    { apply elem_of_app. right. apply elem_of_cons. by left. }
    rewrite Hex in Hcase. apply needsUpdate_false_iff in Hsame.
    rewrite Hsame in Hcase. destruct Hcase as (-> & -> & ->). rewrite Hsc. by rewrite IHc.
  - by destruct (scan_line_no_record st line Hline) as (-> & -> & -> & ->).
Qed.

End ScanProps.

(** The file of the examples, scanned against the store of the examples:
    one movie unchanged, one series to insert, one short film ignored, one
    episode title kept for later, one short line. *)
Example syncTitles_scan_toy :
  let st := scan toy_existingTitles {[ 1 := true ]} ∅ toy_lines (scan_init ∅ ∅) in
  (r_ImdbID <$> toInsert st, toUpdate st, scanned st, unchanged st, ignored st,
   episodeCount st, episodeTitles st !! "tt04", titleGenres st !! "tt01",
   newMovieTitleIDs st)
  = (["tt02"], [], 2, 1, 1, 1, Some "Pilot", Some ["Action"; "Sci-Fi"], []).
Proof. vm_compute. done. Qed.

Lemma syncTitles_in_sync_queues_nothing_witness :
  let st := scan toy_existingTitles {[ 1 := true ]} ∅ (take 1 toy_lines ++ drop 2 toy_lines)
              (scan_init ∅ ∅) in
  toInsert st = [] ∧ toUpdate st = [] ∧ unchanged st = scanned st.
Proof.
  apply (syncTitles_in_sync_queues_nothing toy_existingTitles {[ 1 := true ]} ∅ ∅ ∅).
  intros line r Hin Hr.
  repeat (apply elem_of_cons in Hin as [-> | Hin]);
    [| by vm_compute in Hr .. | by apply elem_of_nil in Hin].
  vm_compute in Hr. injection Hr as <-.
  eexists. split; [reflexivity|]. by repeat split.
Defined.

End SyncTitlesProps.

(** ** The first pass of [syncEpisodes] *)

Module SyncSeasonsProps.
Import SyncEpisodes SyncSeasons.
Local Open Scope Z_scope.

(** *** The batch loop *)

Lemma batches_fuel_concat {A} (fuel n : nat) (l : list A) :
  (0 < n)%nat → (length l ≤ fuel)%nat → concat (batches_fuel fuel n l) = l.
Proof.
  intros Hn. revert l. induction fuel as [|fuel IH]; intros l Hlen.
  - destruct l; [done|simpl in Hlen; lia].
  - destruct l as [|a l]; [done|].
    cbn [batches_fuel concat]. rewrite IH; [apply take_drop|].
    rewrite length_drop. simpl in *. lia.
Qed.

Lemma batches_fuel_sizes {A} (fuel n : nat) (l : list A) b :
  (0 < n)%nat → b ∈ batches_fuel fuel n l → (0 < length b ≤ n)%nat.
Proof.
  intros Hn. revert l. induction fuel as [|fuel IH]; intros l Hb.
  - destruct l; simpl in Hb; by apply elem_of_nil in Hb.
  - destruct l as [|a l]; [by apply elem_of_nil in Hb|].
    cbn [batches_fuel] in Hb. apply elem_of_cons in Hb as [-> | Hb]; [|by eapply IH].
    rewrite length_take. simpl. lia.
Qed.

(** The batch loops of the import ([for i := 0; i < len(l); i += batchSize])
    hand every record to exactly one statement, in the order of the list,
    and with a positive batch size no statement gets an empty batch or more
    than [batchSize] records. *)
Theorem batches_partition {A} (batchSize : nat) (l : list A) :
  (0 < batchSize)%nat →
  concat (batches batchSize l) = l
  ∧ ∀ b, b ∈ batches batchSize l → (0 < length b ≤ batchSize)%nat.
Proof.
  intros Hn. split.
  - by apply batches_fuel_concat.
  - intros b. by apply batches_fuel_sizes.
Qed.

(** *** The first pass *)

Section FirstPassProps.
Context (showCache : gmap string Z) (existingSeasons : gmap seasonKey Z).

Lemma first_pass_line_spec toIns line k :
  k ∈ first_pass_line showCache existingSeasons toIns line
  ↔ k ∈ toIns ∨ (existingSeasons !! k = None ∧ names_season showCache line k).
Proof.
  unfold first_pass_line, names_season.
  destruct (Go.Split line Go.tab) as [|f0 [|f1 [|f2 [|f3 fs]]]] eqn:Hsplit.
  1-4: split; [by left|]; intros [?|(_ & ? & ? & ? & ? & ? & ? & _)]; [done|]; done.
  destruct (String.eqb f2 "\N") eqn:Hn.
  { apply String.eqb_eq in Hn. split; [by left|].
    intros [?|(_ & ? & ? & ? & ? & ? & ? & ? & _)]; [done|]. by simplify_eq. }
  apply String.eqb_neq in Hn.
  destruct (Go.Atoi f2) as [season|] eqn:Hat.
  2: { split; [by left|].
       intros [?|(_ & ? & ? & ? & ? & ? & ? & ? & ? & _)]; [done|]. simplify_eq; congruence. }
  destruct (showCache !! f1) as [showID|] eqn:Hsc.
  2: { split; [by left|].
       intros [?|(_ & ? & ? & ? & ? & ? & ? & ? & ? & ?)]; [done|]. simplify_eq; congruence. }
  assert (names_season showCache line k ↔ k = (showID, season)) as Hk.
  { unfold names_season. rewrite Hsplit. split.
    - intros (? & ? & ? & ? & ? & ? & ? & ? & ?). simplify_eq.
      destruct k as [a b]. simpl in *. congruence.
    - intros ->. by exists f0, f1, f2, f3, fs. }
  unfold names_season in Hk. rewrite Hsplit in Hk. rewrite Hk.
  destruct (existingSeasons !! (showID, season)) as [id|] eqn:Hex.
  - split; [by left|]. intros [?|[Hnone ->]]; [done|].
    assert (Some id = None) by (etrans; [symmetry; exact Hex|exact Hnone]). done.
  - rewrite elem_of_union, elem_of_singleton. split.
    + intros [->|?]; [by right|by left].
    + intros [?|[_ ->]]; [by right|by left].
Qed.

Lemma first_pass_spec lines k :
  k ∈ first_pass showCache existingSeasons lines
  ↔ existingSeasons !! k = None ∧ ∃ line, line ∈ lines ∧ names_season showCache line k.
Proof.
  unfold first_pass.
  induction lines as [|line lines IH] using rev_ind.
  - simpl. split; [by intros ?%elem_of_empty|].
    intros (_ & ? & ?%elem_of_nil & _). done.
  - rewrite foldl_app. simpl. rewrite first_pass_line_spec, IH. split.
    + intros [(Hn & l & Hl & Hk) | (Hn & Hk)]; (split; [done|]).
      * exists l. split; [|done]. apply elem_of_app. by left.
      * exists line. split; [|done]. apply elem_of_app. right. apply elem_of_cons. by left.
    + intros (Hn & l & Hl & Hk). apply elem_of_app in Hl as [Hl|Hl].
      * left. split; [done|]. by exists l.
      * apply elem_of_cons in Hl as [->|Hl]; [by right|by apply elem_of_nil in Hl].
Qed.

(** What the first pass collects: exactly the (show, season) pairs that
    some line of the file names and that were not among the loaded seasons.
    So the INSERT that follows never repeats a loaded season, and, the
    collection being a set, never names a pair twice. *)
Theorem first_pass_collects_missing_seasons lines k :
  k ∈ first_pass showCache existingSeasons lines
  ↔ existingSeasons !! k = None ∧ ∃ line, line ∈ lines ∧ names_season showCache line k.
Proof. apply first_pass_spec. Qed.

End FirstPassProps.

(** *** The INSERT of the new seasons *)

Lemma insert_season_rows_returned rows d d' returned :
  insert_season_rows rows d = Some (d', returned) → returned.*2 = rows.
Proof.
  revert d d' returned. induction rows as [|k ks IH]; intros d d' returned H; simpl in H.
  - by simplify_eq.
  - repeat (case_match; simplify_eq/=). f_equal. by eapply IH.
Qed.

Lemma record_returned_keys (returned : list (Z * seasonKey)) (m : gmap seasonKey Z) k :
  is_Some (foldl (λ m (ik : Z * seasonKey), <[ik.2 := ik.1]> m) m returned !! k)
  ↔ is_Some (m !! k) ∨ k ∈ returned.*2.
Proof.
  revert m. induction returned as [|[id k'] returned IH]; intros m; simpl.
  - split; [by left|]. intros [?|?%elem_of_nil]; done.
  - rewrite IH, elem_of_cons. destruct (decide (k = k')) as [->|Hne].
    + rewrite lookup_insert_eq. split; [intros _; right; by left|]. intros _. left. by eexists.
    + rewrite lookup_insert_ne by done. split; intros [?|?]; auto.
      destruct H as [?|?]; [done|auto].
Qed.

Lemma insert_season_batches_keys bs s s' k :
  insert_season_batches bs s = (s', None) →
  is_Some (s'.2 !! k) ↔ is_Some (s.2 !! k) ∨ k ∈ concat bs.
Proof.
  revert s. induction bs as [|b bs IH]; intros s H; simpl in H.
  - simplify_eq. simpl. split; [by left|]. intros [?|?%elem_of_nil]; done.
  - destruct (insert_season_batch b s) as [s1|] eqn:Hb; [|done].
    rewrite (IH _ H). simpl. rewrite elem_of_app.
    unfold insert_season_batch in Hb. destruct b as [|k0 b0]; [done|].
    destruct (insert_season_rows (k0 :: b0) s.1) as [[d1 returned]|] eqn:Hrows; [|done].
    simplify_eq. cbn [snd].
    rewrite record_returned_keys, (insert_season_rows_returned _ _ _ _ Hrows). tauto.
Qed.

(** The first pass is what lets the second pass see every episode. When
    the new seasons have been inserted without an error (in whatever order
    the map was ranged over), every line of the file that names a cached
    show with a season and an episode number that parse finds the id of its
    season, and the second pass counts it as scanned rather than dropping
    it. *)
Theorem first_pass_completes_second_pass
    (showCache : gmap string Z) (existingSeasons : gmap seasonKey Z)
    (existingEpisodes : gmap episodeKey ExistingEpisode)
    (episodeTitles : gmap string string)
    (batchSize : nat) (lines : list string) (seasonList : list seasonKey)
    (d d' : seasons_db) (existingSeasons' : gmap seasonKey Z)
    (line : string) (showID season episode : Z) :
  (0 < batchSize)%nat →
  (∀ k, k ∈ seasonList ↔ k ∈ first_pass showCache existingSeasons lines) →
  insert_new_seasons batchSize seasonList d existingSeasons = (d', existingSeasons', None) →
  line ∈ lines →
  names_episode showCache line showID season episode →
  is_Some (existingSeasons' !! (showID, season))
  ∧ ∀ st, scanned (SyncEpisodes.scan_line showCache existingSeasons' existingEpisodes
                     episodeTitles st line)
          = scanned st + 1.
Proof.
  intros Hn Hlist Hins Hline
    (f0 & f1 & f2 & f3 & fs & Hsplit & Hn2 & Hn3 & Hat2 & Hat3 & Hsc).
  assert (is_Some (existingSeasons' !! (showID, season))) as [seasonID Hsid].
  { assert (is_Some (existingSeasons' !! (showID, season))
            ↔ is_Some (existingSeasons !! (showID, season)) ∨ (showID, season) ∈ seasonList)
      as ->.
    { unfold insert_new_seasons in Hins. destruct seasonList as [|k0 l0] eqn:Hl.
      - simplify_eq. split; [by left|]. intros [?|?%elem_of_nil]; done.
      - rewrite (insert_season_batches_keys _ _ _ _ Hins). cbn [snd].
        unfold batches. by rewrite (batches_fuel_concat _ _ _ Hn (le_n _)). }
    destruct (existingSeasons !! (showID, season)) as [id|] eqn:Hex; [left; by eexists|].
    right. apply Hlist, first_pass_spec. split; [done|].
    exists line. split; [done|]. by exists f0, f1, f2, f3, fs. }
  split; [by eexists|]. intros st.
  unfold SyncEpisodes.scan_line. rewrite Hsplit.
  apply String.eqb_neq in Hn2, Hn3. rewrite Hn2, Hn3. cbn [orb].
  rewrite Hat2, Hat3, Hsc, Hsid.
  repeat case_match; done.
Qed.

Lemma batches_partition_witness :
  concat (batches 2 [1; 2; 3; 4; 5]) = [1; 2; 3; 4; 5]
  ∧ ∀ b, b ∈ batches 2 [1; 2; 3; 4; 5] → (0 < length b ≤ 2)%nat.
Proof. apply (batches_partition 2 [1; 2; 3; 4; 5]). lia. Defined.

Example first_pass_toy :
  first_pass {[ "tt1" := 10 ]} {[ (10, 1) := 100 ]} toy_episode_lines = {[ (10, 2) ]}.
Proof. vm_compute. done. Qed.

(** The second season of the examples is inserted with id 101, and the
    line of its episode is then scanned. *)
Lemma first_pass_completes_second_pass_witness :
  is_Some ((insert_new_seasons 5000 [(10, 2)] toy_seasons_db {[ (10, 1) := 100 ]}).1.2
             !! (10, 2))
  ∧ ∀ st, scanned (SyncEpisodes.scan_line {[ "tt1" := 10 ]}
                     (insert_new_seasons 5000 [(10, 2)] toy_seasons_db
                        {[ (10, 1) := 100 ]}).1.2
                     ∅ ∅ st (Go.join_tab ["tt3"; "tt1"; "2"; "1"]))
          = scanned st + 1.
Proof.
  refine (first_pass_completes_second_pass {[ "tt1" := 10 ]} {[ (10, 1) := 100 ]} ∅ ∅
            5000 toy_episode_lines [(10, 2)] toy_seasons_db
            (insert_new_seasons 5000 [(10, 2)] toy_seasons_db {[ (10, 1) := 100 ]}).1.1
            _ (Go.join_tab ["tt3"; "tt1"; "2"; "1"]) 10 2 1 _ _ _ _ _).
  - lia.
  - intros k. rewrite first_pass_toy, list_elem_of_singleton, elem_of_singleton. done.
  - vm_compute. reflexivity.
  - apply (bool_decide_unpack _). vm_compute. exact I.
  - exists "tt3", "tt1", "2", "1", []. by repeat split.
Defined.

End SyncSeasonsProps.

(** ** [tmdbBackfill] *)

Module TmdbBackfillProps.
Import Store TMDB TmdbBackfill.
Local Open Scope Z_scope.

Lemma coalesce_nullif_varchar10_cases sql new old r :
  coalesce_nullif_varchar10 sql new old = Some r →
  (new = "" ∧ r = old) ∨ (new ≠ "" ∧ r = to_varchar10 sql new ∧ is_Some r).
Proof.
  unfold coalesce_nullif_varchar10. intros H.
  destruct (String.eqb new "") eqn:Hn.
  - apply String.eqb_eq in Hn. left. by simplify_eq.
  - apply String.eqb_neq in Hn. right.
    destruct (to_varchar10 sql new); simplify_eq/=. by eauto.
Qed.

(** [tmdbBackfill] fills, it does not replace, four of the columns: a
    stored TMDB id, a stored poster that is not empty, a stored release date
    and a stored popularity are kept whatever was fetched, and each of these
    columns takes the fetched value only when it held none. The language
    and the country are different: a fetched value that is not empty
    replaces the stored one. The statement leaves the runtime, the vote
    count and the backfill flag alone. *)
Theorem tmdbBackfill_fills_only_missing sql tmdbID imageURL origLang releaseDate
    popularity originCountry row row' :
  fill_update sql tmdbID imageURL origLang releaseDate popularity originCountry row
  = Some row' →
  (tmdb_id row' = Some (default tmdbID (tmdb_id row)))
  ∧ (real_text (image_url row) → image_url row' = image_url row)
  ∧ (¬ real_text (image_url row) →
       image_url row' = if String.eqb imageURL "" then None else Some imageURL)
  ∧ (is_Some (release_date row) → release_date row' = release_date row)
  ∧ (release_date row = None → releaseDate ≠ "" →
       release_date row' = to_date sql releaseDate ∧ is_Some (release_date row'))
  ∧ (is_Some (tmdb_popularity row) → tmdb_popularity row' = tmdb_popularity row)
  ∧ (tmdb_popularity row = None → tmdb_popularity row' = Float.cast_real popularity)
  ∧ (origLang ≠ "" → original_language row' = to_varchar10 sql origLang)
  ∧ (originCountry ≠ "" → origin_country row' = to_varchar10 sql originCountry)
  ∧ (origLang = "" → original_language row' = original_language row)
  ∧ (originCountry = "" → origin_country row' = origin_country row)
  ∧ runtime_minutes row' = runtime_minutes row
  ∧ needs_backfill_tmdb row' = needs_backfill_tmdb row
  ∧ num_votes row' = num_votes row
  ∧ imdb_id row' = imdb_id row.
Proof.
  unfold fill_update. intros H.
  destruct (negb (in_int4 tmdbID)); [done|].
  destruct (Float.cast_real popularity) as [pop|] eqn:Hpop; [|done].
  destruct (coalesce_nullif_varchar10 sql origLang (original_language row))
    as [language|] eqn:Hl; [|done].
  destruct (coalesce_nullif_varchar10 sql originCountry (origin_country row))
    as [country|] eqn:Hc; [|done].
  apply coalesce_nullif_varchar10_cases in Hl, Hc.
  match type of H with
  | match ?d with _ => _ end = _ => destruct d as [date|] eqn:Hd; [|done]
  end.
  simplify_eq. cbn [tmdb_id image_url release_date tmdb_popularity original_language
                    origin_country runtime_minutes needs_backfill_tmdb num_votes imdb_id].
  split; [by destruct (tmdb_id row)|].
  split.
  { intros (u & -> & Hu). by rewrite (proj2 (String.eqb_neq _ _) Hu). }
  split.
  { intros Hnr. destruct (image_url row) as [u|]; [|done].
    destruct (String.eqb u "") eqn:Hu; [done|].
    destruct Hnr. exists u. split; [done|]. by apply String.eqb_neq. }
  split.
  { intros [d Hrd]. rewrite Hrd in Hd. destruct (String.eqb releaseDate ""); by simplify_eq. }
  split.
  { intros Hrd Hne. rewrite Hrd in Hd.
    rewrite (proj2 (String.eqb_neq _ _) Hne) in Hd.
    destruct (to_date sql releaseDate); simplify_eq/=. split; [done|by eexists]. }
  split; [by intros [p ->]|].
  split; [by intros ->|].
  split; [intros Hne; destruct Hl as [[? _]|(_ & -> & _)]; done|].
  split; [intros Hne; destruct Hc as [[? _]|(_ & -> & _)]; done|].
  split; [intros He; destruct Hl as [[_ ->]|(? & _)]; done|].
  split; [intros He; destruct Hc as [[_ ->]|(? & _)]; done|].
  done.
Qed.

Lemma http_match_200 {A B} (h : http A) (X : A → B) (Y : B) :
  match h with Resp 200 r true => X r | _ => Y end
  = match h with
    | Resp s r ok => if decide (s = 200) then (if ok then X r else Y) else Y
    | NetErr => Y
    end.
Proof.
  destruct h as [|s r ok]; [done|].
  destruct (decide (s = 200)) as [->|Hs]; [by destruct ok|].
  repeat case_match; try done; by destruct Hs.
Qed.

Section FetchProps.
Context (sql : Sql) (api : Backfill.Api) (tmdbAPIKey : string).

(** What a call of [tmdbBackfill] can do to the table and how many requests
    it makes. It makes no request without an API key or an IMDb id, and at
    most two otherwise; the table is left as it is unless the Find API
    answered with a result of the title's own kind, and then only the row
    of the title goes through the UPDATE above, with the first such
    result. *)
Theorem tmdbBackfill_effects titleID imdbID titleType tbl cs :
  let '(country, tbl', cs') := tmdbBackfill sql api tmdbAPIKey titleID imdbID titleType tbl cs in
  (∃ extra, cs' = cs ++ extra ∧ (length extra ≤ 2)%nat
      ∧ (tmdbAPIKey = "" ∨ imdbID = "" → extra = []))
  ∧ (tbl' = tbl
     ∨ ∃ result row row',
         Backfill.find api (length cs) imdbID = Resp 200 result true
         ∧ f_tmdbID (select titleType result) ≠ 0
         ∧ tbl !! titleID = Some row
         ∧ fill_update sql (f_tmdbID (select titleType result))
             (if String.eqb (f_posterPath (select titleType result)) "" then ""
              else poster_base +:+ f_posterPath (select titleType result))
             (f_origLang (select titleType result))
             (f_releaseDate (select titleType result))
             (f_popularity (select titleType result)) country row = Some row'
         ∧ tbl' = <[titleID := row']> tbl).
Proof.
  unfold tmdbBackfill.
  destruct (String.eqb tmdbAPIKey "" || String.eqb imdbID "") eqn:Hk.
  { split; [|by left]. exists []. rewrite app_nil_r.
    split; [done|]. split; [simpl; lia|done]. }
  apply orb_false_iff in Hk as [Hk1 Hk2]. apply String.eqb_neq in Hk1, Hk2.
  assert (∀ extra : list Backfill.call, tmdbAPIKey = "" ∨ imdbID = "" → extra = []) as Hno.
  { by intros extra [?|?]. }
  assert (∀ c : string, ∃ extra : list Backfill.call,
            cs ++ [Backfill.CallFind imdbID] = cs ++ extra ∧ (length extra ≤ 2)%nat
            ∧ (tmdbAPIKey = "" ∨ imdbID = "" → extra = [])) as Hone.
  { intros _. eexists. split; [done|]. split; [simpl; lia|apply Hno]. }
  rewrite http_match_200.
  destruct (Backfill.find api (length cs) imdbID) as [|status result ok] eqn:Hfind;
    [split; [by apply Hone|by left]|].
  destruct (decide (status = 200)) as [->|Hs]; [|split; [by apply Hone|by left]].
  destruct ok; [|split; [by apply Hone|by left]].
  set (f := select titleType result).
  destruct (decide (f_tmdbID f = 0)); [split; [by apply Hone|by left]|].
  destruct (if String.eqb (f_originCountry f) "" then _ else _)
    as [country cs2] eqn:He.
  split.
  - destruct (String.eqb (f_originCountry f) ""); simplify_eq.
    + eexists. split; [by rewrite <- app_assoc|]. split; [simpl; lia|apply Hno].
    + by apply Hone.
  - unfold update_by_id. destruct (tbl !! titleID) as [row|] eqn:Hrow; [|by left].
    destruct (fill_update _ _ _ _ _ _ _ row) as [row'|] eqn:Hup; [|by left].
    right. by exists result, row, row'.
Qed.

End FetchProps.
(** The example row has a poster, a release date and a TMDB id, and no
    popularity: the poster is kept. *)
Lemma tmdbBackfill_fills_only_missing_witness :
  image_url (default Backfill.toy_row
               (fill_update toy_sql 604 "https://image.tmdb.org/t/p/w500/new.jpg" "fr"
                  "2003-05-15" Float.zero "FR" Backfill.toy_row))
  = image_url Backfill.toy_row.
Proof.
  refine (proj1 (proj2 (tmdbBackfill_fills_only_missing toy_sql 604
                          "https://image.tmdb.org/t/p/w500/new.jpg" "fr" "2003-05-15"
                          Float.zero "FR" Backfill.toy_row _ _)) _).
  - vm_compute. reflexivity.
  - eexists. split; [reflexivity|discriminate].
Defined.

(** The whole call on that row: one request; the poster, the date and the
    id stay, the language and the country are replaced. *)
Example tmdbBackfill_toy :
  let '(country, tbl, cs) :=
    tmdbBackfill toy_sql toy_find_api "key" 1 "tt01" "movie" (Backfill.titles Backfill.toy_state)
      [] in
  (country, cs,
   (λ row, (tmdb_id row, image_url row, release_date row, original_language row,
            origin_country row, needs_backfill_tmdb row)) <$> tbl !! 1)
  = ("FR", [Backfill.CallFind "tt01"],
     Some (Some 603, Some "https://image.tmdb.org/t/p/w500/old.jpg", Some "1999-03-31",
           Some "fr", Some "FR", Some true)).
Proof. vm_compute. done. Qed.

End TmdbBackfillProps.
